(** * Study-Buddy front end: the markdown renderer and the chat client

    A shallow embedding of [script.js]: the regular-expression pipeline of
    [advancedMarkdownToHtml], [escapeHtml], and the submit / reply handlers
    that drive the chat transcript.

    JavaScript strings are sequences of UTF-16 code units; the regular
    expressions of the script carry no [u] flag, so they work on code units
    too.  A string is therefore a [list N]. *)

From Stdlib Require Import String Ascii List NArith Arith Bool Lia.
From Stdlib Require Import DecimalString.
Import ListNotations.

Set Implicit Arguments.

(* ================================================================= *)
(** ** Strings *)

Definition jsstring := list N.

(** A literal of the script, as code units. *)
Definition str (s : string) : jsstring :=
  map N_of_ascii (list_ascii_of_string s).

Definition NL : N := 10.
Definition LT : N := 60.   (* < *)
Definition GT : N := 62.   (* > *)
Definition AMP : N := 38.  (* & *)
Definition NBSP : N := 160.
Definition BT : N := 96.   (* ` *)
Definition STAR : N := 42. (* * *)
Definition HASH : N := 35. (* # *)
Definition DOT : N := 46.  (* . *)
Definition QUOT : N := 34.

(** ECMAScript LineTerminator. *)
Definition line_terminator (c : N) : bool :=
  ((c =? 10) || (c =? 13) || (c =? 8232) || (c =? 8233))%N.

(** ECMAScript WhiteSpace: TAB, VT, FF, ZWNBSP and the Unicode category Zs. *)
Definition white_space (c : N) : bool :=
  ((c =? 9) || (c =? 11) || (c =? 12) || (c =? 32) || (c =? 160)
   || (c =? 5760) || ((8192 <=? c) && (c <=? 8202))
   || (c =? 8239) || (c =? 8287) || (c =? 12288) || (c =? 65279))%N.

(** The class [\s], which is also what [String.prototype.trim] strips. *)
Definition cls_s (c : N) : bool := white_space c || line_terminator c.
(** [\d] *)
Definition cls_d (c : N) : bool := ((48 <=? c) && (c <=? 57))%N.
(** [.] without the [s] flag *)
Definition cls_dot (c : N) : bool := negb (line_terminator c).
(** [[\s\S]] *)
Definition cls_any (c : N) : bool := true.
(** [[a-z]] *)
Definition cls_lower (c : N) : bool := ((97 <=? c) && (c <=? 122))%N.
(** [[1-6]] *)
Definition cls_1_6 (c : N) : bool := ((49 <=? c) && (c <=? 54))%N.
(** [[-*+]] *)
Definition cls_bullet (c : N) : bool := ((c =? 45) || (c =? 42) || (c =? 43))%N.
(** a single character, and its complement [[^c]] *)
Definition only (c : N) : N -> bool := N.eqb c.
Definition except (c : N) : N -> bool := fun x => negb (N.eqb c x).
(** [[<\s]] *)
Definition cls_lt_s (c : N) : bool := only LT c || cls_s c.

(* ================================================================= *)
(** ** Regular expressions

    The fragment of ECMAScript patterns the script uses.  Every quantifier
    of the script is applied to a character class, so [Rep] quantifies a
    class: [Rep true 0 p] is [p*], [Rep true 1 p] is [p+], [Rep false 0 p]
    is [p*?] and [Rep false 1 p] is [p+?].  Each anchor carries the [m]
    flag of its pattern. *)

Inductive regex : Type :=
| Chr (p : N -> bool)
| Eps
| Seq (r1 r2 : regex)
| Alt (r1 r2 : regex)
| Rep (greedy : bool) (min : nat) (p : N -> bool)
| Grp (i : nat) (r : regex)
| Bol (multiline : bool)
| Eol (multiline : bool)
| Look (r : regex)
| NLook (r : regex)
| NBehind (p : N -> bool).

Fixpoint seqs (rs : list regex) : regex :=
  match rs with
  | [] => Eps
  | [r] => r
  | r :: rs' => Seq r (seqs rs')
  end.

Fixpoint alts (r : regex) (rs : list regex) : regex :=
  match rs with
  | [] => r
  | r' :: rs' => Alt r (alts r' rs')
  end.

(** A literal run of characters. *)
Definition Lit (s : string) : regex := seqs (map (fun c => Chr (only c)) (str s)).

(** *** The backtracking matcher

    The matcher follows the continuation semantics of the ECMAScript
    specification.  A state is the character before the current position
    (none at the start of the input), the rest of the input, the current
    index, and the capture ranges recorded so far. *)

Definition captures := list (nat * (nat * nat)).
Definition result := (nat * captures)%type.
Definition cont := option N -> list N -> nat -> captures -> option result.

Definition accept : cont := fun _ _ e cs => Some (e, cs).

Fixpoint rep (greedy : bool) (p : N -> bool) (k : cont) (min : nat)
    (prev : option N) (rest : list N) (pos : nat) (cs : captures)
    {struct rest} : option result :=
  match rest with
  | [] => match min with O => k prev [] pos cs | S _ => None end
  | c :: t =>
      match min with
      | S n => if p c then rep greedy p k n (Some c) t (S pos) cs else None
      | O =>
          if greedy then
            match (if p c then rep greedy p k 0 (Some c) t (S pos) cs
                   else None) with
            | Some z => Some z
            | None => k prev rest pos cs
            end
          else
            match k prev rest pos cs with
            | Some z => Some z
            | None => if p c then rep greedy p k 0 (Some c) t (S pos) cs
                      else None
            end
      end
  end.

Fixpoint m (r : regex) (k : cont) (prev : option N) (rest : list N)
    (pos : nat) (cs : captures) {struct r} : option result :=
  match r with
  | Chr p =>
      match rest with
      | c :: t => if p c then k (Some c) t (S pos) cs else None
      | [] => None
      end
  | Eps => k prev rest pos cs
  | Seq r1 r2 => m r1 (m r2 k) prev rest pos cs
  | Alt r1 r2 =>
      match m r1 k prev rest pos cs with
      | Some z => Some z
      | None => m r2 k prev rest pos cs
      end
  | Rep g n p => rep g p k n prev rest pos cs
  | Grp i r1 =>
      m r1 (fun pv rs e cs' => k pv rs e ((i, (pos, e)) :: cs'))
        prev rest pos cs
  | Bol ml =>
      match prev with
      | None => k prev rest pos cs
      | Some c => if ml && line_terminator c then k prev rest pos cs else None
      end
  | Eol ml =>
      match rest with
      | [] => k prev rest pos cs
      | c :: _ => if ml && line_terminator c then k prev rest pos cs else None
      end
  | Look r1 =>
      match m r1 accept prev rest pos cs with
      | Some (_, cs') => k prev rest pos cs'
      | None => None
      end
  | NLook r1 =>
      match m r1 accept prev rest pos cs with
      | Some _ => None
      | None => k prev rest pos cs
      end
  | NBehind p =>
      match prev with
      | Some c => if p c then None else k prev rest pos cs
      | None => k prev rest pos cs
      end
  end.

(** One match: where it starts, where it stops, and its capture ranges. *)
Record mtch : Type := Mtch { start : nat; stop : nat; caps : captures }.

(** *** All matches of a global pattern

    [String.prototype.replace] with a [g] pattern collects the matches from
    left to right: the next search starts where the last match stopped, one
    further when the match was empty.  [skip] counts the characters of the
    last match still to step over. *)

Fixpoint scan (re : regex) (prev : option N) (rest : list N) (pos skip : nat)
    {struct rest} : list mtch :=
  match skip with
  | S n =>
      match rest with
      | c :: t => scan re (Some c) t (S pos) n
      | [] => []
      end
  | O =>
      match m re accept prev rest pos [] with
      | Some (e, cs) =>
          Mtch pos e cs ::
          match rest with
          | c :: t => scan re (Some c) t (S pos) (e - pos - 1)
          | [] => []
          end
      | None =>
          match rest with
          | c :: t => scan re (Some c) t (S pos) 0
          | [] => []
          end
      end
  end.

Definition find_all (re : regex) (s : list N) : list mtch :=
  scan re None s 0 0.

Fixpoint assoc (i : nat) (cs : captures) : option (nat * nat) :=
  match cs with
  | [] => None
  | (j, r) :: cs' => if Nat.eqb i j then Some r else assoc i cs'
  end.

(** [includes] and [startsWith] of [String.prototype]. *)
Fixpoint prefix_of (p s : list N) : bool :=
  match p, s with
  | [], _ => true
  | _ :: _, [] => false
  | a :: p', b :: s' => N.eqb a b && prefix_of p' s'
  end.

Fixpoint includes (p s : list N) : bool :=
  prefix_of p s ||
  match s with
  | [] => false
  | _ :: s' => includes p s'
  end.

Fixpoint drop_while {A : Type} (f : A -> bool) (l : list A) : list A :=
  match l with
  | [] => []
  | a :: l' => if f a then drop_while f l' else l
  end.

(** A replacement string: literal characters, [$1] to [$9], [$&], and [$$]
    for a dollar sign. *)
Inductive piece : Type :=
| PChar (c : N)
| PGroup (i : nat)
| PWhole.

Fixpoint parse_template (l : jsstring) : list piece :=
  match l with
  | [] => []
  | c :: l' =>
      if (c =? 36)%N then
        match l' with
        | d :: t =>
            if (d =? 38)%N then PWhole :: parse_template t
            else if (d =? 36)%N then PChar 36 :: parse_template t
            else if ((49 <=? d) && (d <=? 57))%N
                 then PGroup (N.to_nat (d - 48)) :: parse_template t
                 else PChar c :: parse_template l'
        | [] => [PChar c]
        end
      else PChar c :: parse_template l'
  end.

(* ================================================================= *)
(** ** The renderer

    The renderer is written once over an arbitrary character type [A] that
    carries a code unit ([code]) and into which the renderer's own literals
    are injected ([lit]).  Matching only ever looks at the code units.  The
    script's functions are the instance [A := N]; the instance that pairs
    every character with its origin is used to state where the characters
    of the output come from. *)

Section Render.

Context {A : Type} (code : A -> N) (lit : N -> A).

Definition lits (s : string) : list A := map lit (str s).

Definition sub (s : list A) (a b : nat) : list A := firstn (b - a) (skipn a s).

(** [$i] of a match: the empty string when group [i] did not take part. *)
Definition group (s : list A) (mt : mtch) (i : nat) : list A :=
  match assoc i (caps mt) with
  | Some (a, b) => sub s a b
  | None => []
  end.

(** [$&] *)
Definition whole (s : list A) (mt : mtch) : list A := sub s (start mt) (stop mt).

Fixpoint assemble (f : list A -> mtch -> list A) (s : list A) (cur : nat)
    (ms : list mtch) : list A :=
  match ms with
  | [] => skipn cur s
  | mt :: ms' => sub s cur (start mt) ++ f s mt ++ assemble f s (stop mt) ms'
  end.

(** The replacement string [t] as a replacer function. *)
Definition expand_piece (s : list A) (mt : mtch) (p : piece) : list A :=
  match p with
  | PChar c => [lit c]
  | PGroup i => group s mt i
  | PWhole => whole s mt
  end.

Definition subst (t : string) (s : list A) (mt : mtch) : list A :=
  flat_map (expand_piece s mt) (parse_template (str t)).

(** [s.replace(re, f)] for a global pattern [re]. *)
Definition replace (re : regex) (f : list A -> mtch -> list A) (s : list A)
    : list A :=
  assemble f s 0 (find_all re (map code s)).

Definition trim (s : list A) : list A :=
  rev (drop_while (fun a => cls_s (code a))
         (rev (drop_while (fun a => cls_s (code a)) s))).

(** [div.textContent = text; return div.innerHTML]: the HTML fragment
    serialisation of a text node replaces [&], U+00A0, [<] and [>]. *)
Definition escape_char (a : A) : list A :=
  if (code a =? AMP)%N then lits "&amp;"
  else if (code a =? NBSP)%N then lits "&nbsp;"
  else if (code a =? LT)%N then lits "&lt;"
  else if (code a =? GT)%N then lits "&gt;"
  else [a].

Definition escape_html (text : list A) : list A := flat_map escape_char text.

(** **** The patterns, in the order of the script *)

(* "/```([a-z]*" ")\n([\s\S]*?)\n```/g" *)
Definition re_fence : regex :=
  seqs [Lit "```"; Grp 1 (Rep true 0 cls_lower); Chr (only NL);
        Grp 2 (Rep false 0 cls_any); Chr (only NL); Lit "```"].

Definition fn_fence (s : list A) (mt : mtch) : list A :=
  let language := group s mt 1 in
  let code' := group s mt 2 in
  let lang := match language with
              | [] => []
              | _ :: _ =>
                  lits " class=" ++ [lit QUOT] ++ lits "language-" ++ language
                    ++ [lit QUOT]
              end in
  lits "<pre><code" ++ lang ++ lits ">" ++ trim code' ++ lits "</code></pre>".

(* "/`([^`]+)`/g" *)
Definition re_inline : regex :=
  seqs [Chr (only BT); Grp 1 (Rep true 1 (except BT)); Chr (only BT)].

(* "/\*\*([^*]+)\*\*/g" *)
Definition re_bold : regex :=
  seqs [Chr (only STAR); Chr (only STAR); Grp 1 (Rep true 1 (except STAR));
        Chr (only STAR); Chr (only STAR)].

(* "/\*([^*]+)\*/g" *)
Definition re_italic : regex :=
  seqs [Chr (only STAR); Grp 1 (Rep true 1 (except STAR)); Chr (only STAR)].

(* "/^\s*[-*+]\s+(.*?)(?=\n|$)/gm" *)
Definition re_ul_item : regex :=
  seqs [Bol true; Rep true 0 cls_s; Chr cls_bullet; Rep true 1 cls_s;
        Grp 1 (Rep false 0 cls_dot); Look (Alt (Chr (only NL)) (Eol true))].

(* "/(<li>.*?<\/li>)\n(<li>)/g" *)
Definition re_li_join : regex :=
  seqs [Grp 1 (seqs [Lit "<li>"; Rep false 0 cls_dot; Lit "</li>"]);
        Chr (only NL); Grp 2 (Lit "<li>")].

(* "/(^|[^<])<li>/g" *)
Definition re_li_open : regex :=
  seqs [Grp 1 (Alt (Bol false) (Chr (except LT))); Lit "<li>"].

(* "/<\/li>(\n|$)(?![<\s]*<li>)/g" *)
Definition re_li_close : regex :=
  seqs [Lit "</li>"; Grp 1 (Alt (Chr (only NL)) (Eol false));
        NLook (seqs [Rep true 0 cls_lt_s; Lit "<li>"])].

(* "/^\s*(\d+)\.\s+(.*?)(?=\n|$)/gm" *)
Definition re_ol_item : regex :=
  seqs [Bol true; Rep true 0 cls_s; Grp 1 (Rep true 1 cls_d); Chr (only DOT);
        Rep true 1 cls_s; Grp 2 (Rep false 0 cls_dot);
        Look (Alt (Chr (only NL)) (Eol true))].

(* "/(?<!\n)<li>.*?<\/li>\n<li>/g" *)
Definition re_ol_join : regex :=
  seqs [NBehind (only NL); Lit "<li>"; Rep false 0 cls_dot; Lit "</li>";
        Chr (only NL); Lit "<li>"].

(* "/^###\s+(.*?)$/gm, /^##\s+(.*?)$/gm, /^#\s+(.*?)$/gm" *)
Definition re_heading (hashes : string) : regex :=
  seqs [Bol true; Lit hashes; Rep true 1 cls_s; Grp 1 (Rep false 0 cls_dot);
        Eol true].

(* "/\n\n([\s\S]+?)(?=\n\n|$)/g" *)
Definition re_para : regex :=
  seqs [Chr (only NL); Chr (only NL); Grp 1 (Rep false 1 cls_any);
        Look (Alt (Seq (Chr (only NL)) (Chr (only NL))) (Eol false))].

Definition fn_para (s : list A) (mt : mtch) : list A :=
  let content := group s mt 1 in
  let c := map code content in
  if prefix_of (str "<") (map code (trim content))
     || includes (str "</") c
     || includes (str "<li>") c
     || includes (str "<code>") c
  then lits (String "010" (String "010" EmptyString)) ++ content
  else lits (String "010" (String "010" EmptyString)) ++ lits "<p>"
         ++ content ++ lits "</p>".

(* "(?:h[1-6]|ul|ol|pre|div|blockquote)" *)
Definition re_block_name : regex :=
  alts (Seq (Chr (only 104%N)) (Chr cls_1_6))
       [Lit "ul"; Lit "ol"; Lit "pre"; Lit "div"; Lit "blockquote"].

(* "/<p>(<(?:h[1-6]|ul|ol|pre|div|blockquote).*?<\/(?:h[1-6]|ul|ol|pre|div|blockquote)>)<\/p>/g" *)
Definition re_unwrap : regex :=
  seqs [Lit "<p>";
        Grp 1 (seqs [Chr (only LT); re_block_name; Rep false 0 cls_dot;
                     Lit "</"; re_block_name; Chr (only GT)]);
        Lit "</p>"].

(* "/\n/g" *)
Definition re_newline : regex := Chr (only NL).

(** **** The pipeline: everything after [if (!text) return '']

    [substitute] is the chain of [html = html.replace(...)] statements
    and the final [trim]; [markdown] runs it on the escaped text. *)

Definition substitute (html : list A) : list A :=
  (* Convert code blocks *)
  let html := replace re_fence fn_fence html in
  (* Convert inline code *)
  let html := replace re_inline (subst "<code>$1</code>") html in
  (* Convert bold text *)
  let html := replace re_bold (subst "<strong>$1</strong>") html in
  (* Convert italic text *)
  let html := replace re_italic (subst "<em>$1</em>") html in
  (* Convert unordered lists *)
  let html := replace re_ul_item (subst "<li>$1</li>") html in
  let html := replace re_li_join (subst "$1$2") html in
  let html := replace re_li_open (subst "$1<ul><li>") html in
  let html := replace re_li_close (subst "</li></ul>") html in
  (* Convert ordered lists *)
  let html := replace re_ol_item (subst "<li>$2</li>") html in
  let html := replace re_ol_join (subst "<li>$&") html in
  let html := replace re_li_open (subst "$1<ol><li>") html in
  let html := replace re_li_close (subst "</li></ol>") html in
  (* Convert headings *)
  let html := replace (re_heading "###") (subst "<h3>$1</h3>") html in
  let html := replace (re_heading "##") (subst "<h2>$1</h2>") html in
  let html := replace (re_heading "#") (subst "<h1>$1</h1>") html in
  (* Convert paragraphs *)
  let html := replace re_para fn_para html in
  (* Remove unnecessary paragraph tags around HTML elements *)
  let html := replace re_unwrap (subst "$1") html in
  (* Convert line breaks *)
  let html := replace re_newline (subst "<br>") html in
  trim html.

Definition markdown (text : list A) : list A :=
  (* Escape HTML to prevent XSS *)
  let html := escape_html text in
  substitute html.

End Render.

(** A value the script may be handed where it expects a string. *)
Inductive jsvalue : Type :=
| Undefined
| Null
| Str (s : jsstring).

(** [!v] *)
Definition falsy (v : jsvalue) : bool :=
  match v with
  | Undefined | Null => true
  | Str [] => true
  | Str (_ :: _) => false
  end.

Definition escapeHtml (text : jsstring) : jsstring :=
  escape_html (fun c => c) (fun c => c) text.

Definition advancedMarkdownToHtml (text : jsvalue) : jsstring :=
  match text with
  | Str (c :: s) => markdown (fun c => c) (fun c => c) (c :: s)
  | _ => []
  end.

(* ================================================================= *)
(** ** The chat client

    The page state the handlers read and write: the children appended to
    [.chat-history], the value of the message box, the selected image, the
    loading indicator, the submit button, and the toasts [showError] has
    put on the page (a toast removes itself after three seconds; the list
    keeps every toast so that what was shown stays observable). *)

(** A template of the script; an apostrophe stands for the double quote of
    the source text. *)
Definition tpl (s : string) : jsstring :=
  map (fun c => if (c =? 39)%N then QUOT else c) (str s).

Definition spaces (n : nat) : jsstring := repeat 32%N n.

Record element : Type := Element { className : string; innerHTML : jsstring }.

Record file : Type := File { file_type : jsstring }.

Record dom : Type := Dom {
  chatHistory : list element;
  messageInput : jsstring;
  selectedImage : option file;
  imageInput : jsstring;
  previewHidden : bool;
  loadingHidden : bool;
  loadingText : jsstring;
  submitDisabled : bool;
  toasts : list jsstring
}.

(** The body of a reply of [/api/solve], as [response.json()] gives it; a
    field that the object does not carry is [None]. *)
Record reply : Type := Reply {
  solution : option jsstring;
  explanation : option jsstring;
  practice_questions : option jsstring;
  response : option jsstring;
  image_url : option jsstring;
  error : option jsstring;
  details : option jsstring
}.

Record request : Type := Request {
  text_problem : option jsstring;
  image_data : option jsstring
}.

(** How [await fetch(...)] followed by [await response.json()] ends: one of
    the two throws an error with a message, or the body is parsed. *)
Inductive fetch_outcome : Type :=
| Threw (message : jsstring)
| Parsed (ok : bool) (status : N) (statusText : jsstring) (data : reply).

(** How [reader.readAsDataURL] ends. *)
Inductive read_outcome : Type :=
| Loaded (result : jsstring)
| ReadFailed.

(** A handler runs until it returns or until it waits for the network or
    for the file reader.  The page state at the moment it waits is visible;
    when the wait ends the handler goes on from the page as it is then. *)
Inductive task : Type :=
| Ret (st : dom)
| Fetch (st : dom) (req : request) (k : fetch_outcome -> dom -> task)
| Read (st : dom) (f : file) (k : read_outcome -> dom -> task).

Fixpoint bind (t : task) (g : dom -> task) : task :=
  match t with
  | Ret st => g st
  | Fetch st req k => Fetch st req (fun o st' => bind (k o st') g)
  | Read st f k => Read st f (fun o st' => bind (k o st') g)
  end.

(** Truthiness of an optional string field, and [a || b] on such fields. *)
Definition truthy (v : option jsstring) : bool :=
  match v with
  | Some (_ :: _) => true
  | _ => false
  end.

Definition value (v : option jsstring) : jsstring :=
  match v with
  | Some s => s
  | None => []
  end.

Definition nonempty (s : jsstring) : bool :=
  match s with
  | [] => false
  | _ :: _ => true
  end.

Definition js_trim (s : jsstring) : jsstring := trim (fun c => c) s.

Definition decimal (n : N) : jsstring := str (NilZero.string_of_uint (N.to_uint n)).

Definition validateInput (st : dom) : dom :=
  Dom (chatHistory st) (messageInput st) (selectedImage st) (imageInput st)
      (previewHidden st) (loadingHidden st) (loadingText st)
      (negb (nonempty (js_trim (messageInput st))
             || match selectedImage st with Some _ => true | None => false end))
      (toasts st).

Definition showLoading (message : jsstring) (st : dom) : dom :=
  Dom (chatHistory st) (messageInput st) (selectedImage st) (imageInput st)
      (previewHidden st) false message true (toasts st).

Definition hideLoading (st : dom) : dom :=
  validateInput
    (Dom (chatHistory st) (messageInput st) (selectedImage st) (imageInput st)
         (previewHidden st) true (loadingText st) (submitDisabled st)
         (toasts st)).

Definition showError (message : jsstring) (st : dom) : dom :=
  Dom (chatHistory st) (messageInput st) (selectedImage st) (imageInput st)
      (previewHidden st) (loadingHidden st) (loadingText st)
      (submitDisabled st) (toasts st ++ [message]).

Definition removeImage (st : dom) : dom :=
  validateInput
    (Dom (chatHistory st) (messageInput st) None [] true (loadingHidden st)
         (loadingText st) (submitDisabled st) (toasts st)).

Definition set_messageInput (v : jsstring) (st : dom) : dom :=
  Dom (chatHistory st) v (selectedImage st) (imageInput st)
      (previewHidden st) (loadingHidden st) (loadingText st)
      (submitDisabled st) (toasts st).

Definition appendChild (e : element) (st : dom) : dom :=
  Dom (chatHistory st ++ [e]) (messageInput st) (selectedImage st)
      (imageInput st) (previewHidden st) (loadingHidden st) (loadingText st)
      (submitDisabled st) (toasts st).

Definition addUserMessage (message : jsstring) (st : dom) : dom :=
  if negb (nonempty (js_trim message)) then st
  else
    appendChild
      (Element "message user-message"
         (tpl "<div class='message-content'>" ++ escapeHtml message
            ++ tpl "</div>"))
      st.

(** One of the three sections of a structured answer. *)
Definition section (class title : string) (text : jsstring) : jsstring :=
  [NL] ++ spaces 12 ++ tpl "<div class='" ++ str class ++ tpl "'>"
  ++ [NL] ++ spaces 16 ++ str "<h3>" ++ str title ++ str "</h3>"
  ++ [NL] ++ spaces 16 ++ tpl "<div class='message-content'>"
  ++ advancedMarkdownToHtml (Str text) ++ str "</div>"
  ++ [NL] ++ spaces 12 ++ str "</div>"
  ++ [NL] ++ spaces 8.

(** The string [addBotMessage] assigns to [messageElement.innerHTML]. *)
Definition botInnerHTML (data : reply) : jsstring :=
  let innerHTML := [] in
  let innerHTML :=
    if truthy (solution data)
    then innerHTML ++ section "solution" "Solution" (value (solution data))
    else innerHTML in
  let innerHTML :=
    if truthy (explanation data)
    then innerHTML
         ++ section "explanation" "Explanation" (value (explanation data))
    else innerHTML in
  let innerHTML :=
    if truthy (practice_questions data)
    then innerHTML
         ++ section "practice-questions" "Practice Questions"
              (value (practice_questions data))
    else innerHTML in
  (* If there's just a simple response *)
  let innerHTML :=
    if negb (truthy (solution data)) && negb (truthy (explanation data))
       && negb (truthy (practice_questions data)) && truthy (response data)
    then tpl "<div class='message-content'>"
         ++ advancedMarkdownToHtml (Str (value (response data)))
         ++ str "</div>"
    else innerHTML in
  (* Add image if present *)
  if truthy (image_url data)
  then innerHTML ++ tpl "<img src='" ++ value (image_url data)
       ++ tpl "' alt='Response Image' class='message-image'>"
  else innerHTML.

Definition addBotMessage (data : reply) (st : dom) : dom :=
  appendChild (Element "message bot-message" (botInnerHTML data)) st.

(** The [catch] block of [makeApiCall]. *)
Definition makeApiCall_catch (message : jsstring) (st : dom) : dom :=
  let st := hideLoading st in
  let st :=
    showError (if nonempty message then message
               else str "Failed to communicate with the server.") st in
  let st := set_messageInput [] st in
  let st := match selectedImage st with
            | Some _ => removeImage st
            | None => st
            end in
  validateInput st.

(** [makeApiCall] after its two [await]s. *)
Definition makeApiCall_then (o : fetch_outcome) (st : dom) : dom :=
  match o with
  | Threw message => makeApiCall_catch message st
  | Parsed ok status statusText data =>
      if negb ok then
        let errorMessage :=
          if truthy (details data) then value (details data)
          else if truthy (error data) then value (error data)
          else str "Server error: " ++ decimal status ++ str " " ++ statusText
        in
        makeApiCall_catch errorMessage st
      else
        let st := hideLoading st in
        if truthy (error data) then
          showError
            (value (error data)
               ++ (if truthy (details data)
                   then str ": " ++ value (details data) else []))
            st
        else addBotMessage data st
  end.

Definition makeApiCall (requestData : request) (st : dom) : task :=
  Fetch st requestData (fun o st' => Ret (makeApiCall_then o st')).

(** [s.split(',')[1]] *)
Fixpoint upto_comma (s : jsstring) : jsstring :=
  match s with
  | [] => []
  | c :: s' => if (c =? 44)%N then [] else c :: upto_comma s'
  end.

Fixpoint split_comma_1 (s : jsstring) : option jsstring :=
  match s with
  | [] => None
  | c :: s' => if (c =? 44)%N then Some (upto_comma s') else split_comma_1 s'
  end.

(** The statements of [handleSubmit] after its [try] block. *)
Definition handleSubmit_tail (st : dom) : dom :=
  let st := set_messageInput [] st in
  let st := match selectedImage st with
            | Some _ => removeImage st
            | None => st
            end in
  validateInput st.

Definition handleSubmit (st : dom) : task :=
  let userMessage := js_trim (messageInput st) in
  if negb (nonempty userMessage)
     && match selectedImage st with Some _ => false | None => true end
  then Ret (showError (str "Please enter a message or upload an image.") st)
  else
    let st := addUserMessage userMessage st in
    let st := showLoading (str "Thinking...") st in
    let requestData :=
      Request (if nonempty userMessage then Some userMessage else None) None in
    match selectedImage st with
    | Some f =>
        (* the reader is started and the handler runs on to its end *)
        Read (handleSubmit_tail st) f
          (fun o st' =>
             match o with
             | Loaded result =>
                 makeApiCall
                   (Request (text_problem requestData) (split_comma_1 result))
                   st'
             | ReadFailed =>
                 Ret (hideLoading
                        (showError
                           (str "Failed to read the selected image file.") st'))
             end)
    | None => bind (makeApiCall requestData st)
                (fun st' => Ret (handleSubmit_tail st'))
    end.

(** ** Where the characters of the output come from

    The renderer over characters paired with their origin: [true] for a
    character of the text handed to the renderer, [false] for a character
    the renderer wrote itself. *)

Definition traced := (N * bool)%type.
Definition from_input (c : N) : traced := (c, true).
Definition from_renderer (c : N) : traced := (c, false).

Definition markdown_traced (text : jsstring) : list traced :=
  markdown fst from_renderer (map from_input text).

(** Runs a handler to its end when the file reader ends with [ro], every
    network call ends with [fo], and nothing else touches the page while
    the handler waits. *)
Fixpoint run (t : task) (ro : read_outcome) (fo : fetch_outcome) : dom :=
  match t with
  | Ret st => st
  | Fetch st _ k => run (k fo st) ro fo
  | Read st _ k => run (k ro st) ro fo
  end.

(** The page as it stands while the handler waits for the first time. *)
Definition waiting (t : task) : option dom :=
  match t with
  | Ret _ => None
  | Fetch st _ _ => Some st
  | Read st _ _ => Some st
  end.

(** The message elements the handlers append. *)
Definition userElement (message : jsstring) : element :=
  Element "message user-message"
    (tpl "<div class='message-content'>" ++ escapeHtml message ++ tpl "</div>").

Definition botElement (data : reply) : element :=
  Element "message bot-message" (botInnerHTML data).

(** A reply that asks for the assistant message: status 2xx, no [error]. *)
Definition confirmed_success (fo : fetch_outcome) : option reply :=
  match fo with
  | Parsed true _ _ data => if truthy (error data) then None else Some data
  | _ => None
  end.

(** The number of calls to [fetch('/api/solve')] a handler makes on the way. *)
Fixpoint network_calls (t : task) (ro : read_outcome) (fo : fetch_outcome)
    : nat :=
  match t with
  | Ret _ => 0
  | Fetch st _ k => S (network_calls (k fo st) ro fo)
  | Read st _ k => network_calls (k ro st) ro fo
  end.

Definition has_image (st : dom) : bool :=
  match selectedImage st with Some _ => true | None => false end.

(** A reply with its [response] field, or its [image_url] field, replaced. *)
Definition with_response (r : option jsstring) (data : reply) : reply :=
  Reply (solution data) (explanation data) (practice_questions data) r
        (image_url data) (error data) (details data).

Definition with_image_url (u : option jsstring) (data : reply) : reply :=
  Reply (solution data) (explanation data) (practice_questions data)
        (response data) u (error data) (details data).

(** An empty page. *)
Definition dom0 : dom := Dom [] [] None [] true true [] true [].

(** Some concrete pages and replies. *)
Definition blank_page : dom :=
  Dom [] (str "   ") None [] true true [] true [].

Definition typed_page : dom :=
  Dom [] (str " 2x + 5 = 13 ") None [] true true [] false [].

Definition image_only_page : dom :=
  Dom [] [] (Some (File (str "image/png"))) (str "problem.png") false true []
      false [].

Definition bad_input : reply :=
  Reply None None None None None
        (Some (str "Bad input")) (Some (str "missing field")).

Definition empty_solution_reply : reply :=
  Reply (Some []) None None (Some (str "hi")) None None None.

Definition solved_reply : reply :=
  Reply (Some (str "x=4")) None None (Some (str "hi")) None None None.

Definition empty_image_reply : reply :=
  Reply None None None None (Some []) None None.

Definition image_reply : reply :=
  Reply (Some (str "x=4")) None None None (Some (str "plot.png")) None None.

(* ================================================================= *)
(** ** Markdown tokens, character by character

    The markdown tokens, said of the text itself and not through the
    patterns: each is a test on the text from one position on, given the
    character before it. *)

(** The position starts a line. *)
Definition line_start (prev : option N) : bool :=
  match prev with
  | None => true
  | Some c => line_terminator c
  end.

(** A backtick, one or more other characters, and then a backtick. *)
Definition code_span_at (prev : option N) (l : jsstring) : bool :=
  match l with
  | c :: d :: t => (c =? BT)%N && negb (d =? BT)%N && existsb (N.eqb BT) t
  | _ => false
  end.

(** A line that begins with [#]. *)
Definition heading_at (prev : option N) (l : jsstring) : bool :=
  line_start prev &&
  match l with
  | c :: _ => (c =? HASH)%N
  | [] => false
  end.

(** A line that begins, after optional white space, with an unordered-list
    marker: one of [-], [*], [+], followed by white space. *)
Definition bullet_at (prev : option N) (l : jsstring) : bool :=
  line_start prev &&
  match drop_while cls_s l with
  | c :: d :: _ => cls_bullet c && cls_s d
  | _ => false
  end.

(** A line that begins, after optional white space, with ordered-list
    numbering: digits, a full stop, white space. *)
Definition numbering_at (prev : option N) (l : jsstring) : bool :=
  line_start prev &&
  match drop_while cls_s l with
  | d :: t =>
      cls_d d &&
      match drop_while cls_d t with
      | c :: w :: _ => (c =? DOT)%N && cls_s w
      | _ => false
      end
  | [] => false
  end.

(** A blank line with text after it: two newlines and one more character. *)
Definition paragraph_at (prev : option N) (l : jsstring) : bool :=
  match l with
  | a :: b :: _ :: _ => (a =? NL)%N && (b =? NL)%N
  | _ => false
  end.

(** [f] holds at no position of the text. *)
Fixpoint nowhere (f : option N -> jsstring -> bool) (prev : option N)
    (l : jsstring) : bool :=
  negb (f prev l) &&
  match l with
  | [] => true
  | c :: t => nowhere f (Some c) t
  end.

Definition lacks (c : N) (s : jsstring) : bool := negb (existsb (N.eqb c) s).

(** No markdown token: no backtick, no asterisk, no line that begins with
    [#], with an unordered-list marker or with ordered-list numbering. *)
Definition markdown_free (s : jsstring) : bool :=
  lacks BT s && lacks STAR s
  && nowhere heading_at None s
  && nowhere bullet_at None s
  && nowhere numbering_at None s.

(** The same, but for backticks: they may occur as long as no two of them
    enclose a run of other characters (an opening fence that is never
    closed, say). *)
Definition no_token_but_backticks (s : jsstring) : bool :=
  nowhere code_span_at None s && lacks STAR s
  && nowhere heading_at None s
  && nowhere bullet_at None s
  && nowhere numbering_at None s.

(** No character that [escapeHtml] rewrites. *)
Definition needs_no_escaping (s : jsstring) : bool :=
  lacks AMP s && lacks NBSP s && lacks LT s && lacks GT s.

(** The first character of the text that is not white space is [#]. *)
Definition starts_with_hash (s : jsstring) : bool :=
  heading_at None (drop_while cls_s s).

(** The escaped text with each newline turned into [<br>], trimmed. *)
Definition line_breaks (s : jsstring) : jsstring :=
  flat_map (fun c => if (c =? NL)%N then str "<br>" else [c]) s.

Definition literal_text (s : jsstring) : jsstring :=
  js_trim (line_breaks (escapeHtml s)).

(** The characters of an entity: [&], a lower-case letter, [;]. *)
Definition entity_char (c : N) : bool :=
  (c =? AMP)%N || cls_lower c || (c =? 59)%N.

(** [P] holds at every position of the text. *)
Fixpoint everywhere (P : option N -> jsstring -> Prop) (prev : option N)
    (l : jsstring) : Prop :=
  P prev l /\
  match l with
  | [] => True
  | c :: t => everywhere P (Some c) t
  end.

(** The pattern [re] matches at no position. *)
Definition unmatched (re : regex) (prev : option N) (l : jsstring) : Prop :=
  everywhere (fun pv l' => forall pos, m re accept pv l' pos [] = None) prev l.

(* ================================================================= *)
(** ** The rest of the form

    [handleImageSelection], the [onload] callback it leaves with its file
    reader, and what a handler sends to [/api/solve]. *)

Definition set_imageInput (v : jsstring) (st : dom) : dom :=
  Dom (chatHistory st) (messageInput st) (selectedImage st) v
      (previewHidden st) (loadingHidden st) (loadingText st)
      (submitDisabled st) (toasts st).

Definition set_selectedImage (f : option file) (st : dom) : dom :=
  Dom (chatHistory st) (messageInput st) f (imageInput st)
      (previewHidden st) (loadingHidden st) (loadingText st)
      (submitDisabled st) (toasts st).

(** [handleImageSelection(event)], where [files0] is
    [event.target.files[0]] and [event.target] is the image input: the
    page it leaves at once, and the file it has asked the reader to load,
    if any. *)
Definition handleImageSelection (files0 : option file) (st : dom)
    : dom * option file :=
  match files0 with
  | None => (st, None)
  | Some f =>
      if negb (prefix_of (str "image/") (file_type f)) then
        (set_imageInput [] (showError (str "Please select an image file.") st),
         None)
      else
        (validateInput (set_selectedImage (Some f) st), Some f)
  end.

(** [reader.onload] of [handleImageSelection]: the new [imagePreview.src]
    and the page with the preview shown. *)
Definition imagePreview_onload (result : jsstring) (st : dom)
    : jsstring * dom :=
  (result,
   Dom (chatHistory st) (messageInput st) (selectedImage st) (imageInput st)
       false (loadingHidden st) (loadingText st) (submitDisabled st)
       (toasts st)).

(** The body of the first call to [/api/solve] a handler makes, if it makes
    one when the reader ends with [ro]. *)
Fixpoint first_request (t : task) (ro : read_outcome) : option request :=
  match t with
  | Ret _ => None
  | Fetch _ req _ => Some req
  | Read st _ k => first_request (k ro st) ro
  end.

(** A submission that [handleSubmit] does not turn down. *)
Definition accepted (st : dom) : bool :=
  nonempty (js_trim (messageInput st)) || has_image st.

(** Nothing stands in the way of the assistant message: the image, if
    there was one, was read. *)
Definition image_read (st : dom) (ro : read_outcome) : bool :=
  match has_image st, ro with
  | true, ReadFailed => false
  | _, _ => true
  end.

(* ================================================================= *)
(** ** What the patterns need, beyond the tokens *)

(** The character before the position reached after [run]. *)
Fixpoint prev_after (prev : option N) (run : jsstring) : option N :=
  match run with
  | [] => prev
  | c :: t => prev_after (Some c) t
  end.

(** The character [c] twice in a row. *)
Definition pair_at (c : N) (prev : option N) (l : jsstring) : bool :=
  match l with
  | a :: b :: _ => (a =? c)%N && (b =? c)%N
  | _ => false
  end.

(** The start of a list-item tag or of a paragraph tag: what the patterns
    that tidy lists and paragraphs begin with. *)
Definition block_at (prev : option N) (l : jsstring) : bool :=
  prefix_of (str "<l") l || prefix_of (str "</l") l || prefix_of (str "<p>") l.

(** A line that begins with two [#]. *)
Definition subheading_at (prev : option N) (l : jsstring) : bool :=
  line_start prev && prefix_of (str "##") l.

(** The start of a list-item tag. *)
Definition item_at (prev : option N) (l : jsstring) : bool :=
  prefix_of (str "<li>") l.

(** [P] holds at every position of [x], a part of the text that goes on
    with [rest]. *)
Fixpoint upto (P : option N -> jsstring -> Prop) (prev : option N)
    (x rest : jsstring) : Prop :=
  match x with
  | [] => True
  | c :: t => P prev (c :: t ++ rest) /\ upto P (Some c) t rest
  end.

(** The pattern [re] does not match here. *)
Definition fails (re : regex) (prev : option N) (l : jsstring) : Prop :=
  forall pos, m re accept prev l pos [] = None.

(** The [lang] of the replacer of code blocks: the class attribute, when
    the fence names a language. *)
Definition language_class (language : jsstring) : jsstring :=
  match language with
  | [] => []
  | _ :: _ => str " class=" ++ [QUOT] ++ str "language-" ++ language ++ [QUOT]
  end.

(** ** The page during the waits *)

(** Runs a handler to its end when the page may have changed while the
    handler waited: each wait ends on the next page of [pages], and once
    [pages] is used up on the page as it was when the wait began. *)
Fixpoint run_on (pages : list dom) (t : task) (ro : read_outcome)
    (fo : fetch_outcome) {struct t} : dom :=
  match t with
  | Ret st => st
  | Fetch st _ k =>
      match pages with
      | [] => run_on [] (k fo st) ro fo
      | p :: ps => run_on ps (k fo p) ro fo
      end
  | Read st _ k =>
      match pages with
      | [] => run_on [] (k ro st) ro fo
      | p :: ps => run_on ps (k ro p) ro fo
      end
  end.

(** The form is back to its initial state. *)
Definition form_reset (r : dom) : Prop :=
  messageInput r = [] /\ selectedImage r = None /\ submitDisabled r = true.

(** The form of [r] is that of the page [p], with the button as
    [validateInput] sets it. *)
Definition form_as (p r : dom) : Prop :=
  messageInput r = messageInput p
  /\ selectedImage r = selectedImage p
  /\ submitDisabled r = negb (nonempty (js_trim (messageInput p)) || has_image p).

(** The call ends in the [catch] block of [makeApiCall]. *)
Definition call_failed (fo : fetch_outcome) : bool :=
  match fo with
  | Threw _ => true
  | Parsed ok _ _ _ => negb ok
  end.

(* ================================================================= *)

(** ** The tags of the output

    The output is read from left to right as text and tags.  A tag runs
    from a [<] to the next [>]; both are characters the renderer wrote, and
    what stands between them is one of the renderer's own tag names, every
    character written by the renderer, or the [code] tag with its class
    attribute, where only the letters of the language name may come from
    elsewhere.  Text holds no [<] and no [>]. *)

(** What the renderer writes between [<] and [>]. *)
Definition renderer_tags : list string :=
  ["pre"; "code"; "/code"; "/pre"; "strong"; "/strong"; "em"; "/em";
   "li"; "/li"; "ul"; "/ul"; "ol"; "/ol";
   "h1"; "/h1"; "h2"; "/h2"; "h3"; "/h3"; "p"; "/p"; "br"]%string.

Fixpoint codes_eqb (x y : jsstring) : bool :=
  match x, y with
  | [], [] => true
  | a :: x', b :: y' => (a =? b)%N && codes_eqb x' y'
  | _, _ => false
  end.

(** Every character was written by the renderer. *)
Definition written (b : list traced) : bool :=
  forallb (fun a => negb (snd a)) b.

Definition plain_tag (b : list traced) : bool :=
  written b && existsb (fun t => codes_eqb (map fst b) (str t)) renderer_tags.

(** [code class="language-L"], with [L] one or more lower-case letters. *)
Definition language_tag (b : list traced) : bool :=
  let opening := str "code class=" ++ [QUOT] ++ str "language-" in
  let head := firstn (length opening) b in
  written head && codes_eqb (map fst head) opening
  && match rev (skipn (length opening) b) with
     | q :: l =>
         negb (snd q) && (fst q =? QUOT)%N
         && nonempty (map fst l) && forallb (fun a => cls_lower (fst a)) l
     | [] => false
     end.

Definition valid_tag (b : list traced) : bool := plain_tag b || language_tag b.

(** Where the reader stands: in text, or inside a tag of which it has read
    [b] so far. *)
Inductive tag_state : Type :=
| InText
| InTag (b : list traced).

(** Reads [s] from the state [q]; [None] when [s] is not made of text and
    valid tags. *)
Fixpoint tags (q : tag_state) (s : list traced) : option tag_state :=
  match s with
  | [] => Some q
  | a :: t =>
      match q with
      | InText =>
          if (fst a =? LT)%N then
            if snd a then None else tags (InTag []) t
          else if (fst a =? GT)%N then None
          else tags InText t
      | InTag b =>
          if (fst a =? GT)%N then
            if snd a then None
            else if valid_tag b then tags InText t else None
          else if (fst a =? LT)%N then None
          else tags (InTag (b ++ [a])) t
      end
  end.

Definition well_tagged (s : list traced) : bool :=
  match tags InText s with
  | Some InText => true
  | _ => false
  end.

(** The characters of the renderer's tags. *)
Definition tag_char (c : N) : bool :=
  cls_lower c || (c =? 32)%N || (c =? 61)%N || (c =? QUOT)%N || (c =? 45)%N
  || (c =? 47)%N || (c =? 49)%N || (c =? 50)%N || (c =? 51)%N.

(** The replacer [f] of the pattern [re] leaves the reading of tags as it
    is: wherever [re] matches in a string of text and tags, what [f] puts
    there takes the reader from the state in which the match begins to the
    state in which it ends. *)
Definition keeps_tags (re : regex) (f : list traced -> mtch -> list traced)
    : Prop :=
  forall x rest e cs q,
    tags InText x = Some q ->
    m re accept (prev_after None (map fst x)) (map fst rest) (length x) []
    = Some (e, cs) ->
    tags q rest = Some InText ->
    tags q (f (x ++ rest) (Mtch (length x) e cs))
    = tags q (firstn (e - length x) rest).

(** A pattern without groups, every character class of which lies within
    [ok]. *)
Fixpoint simple (ok : N -> bool) (r : regex) : Prop :=
  match r with
  | Chr p => forall c, p c = true -> ok c = true
  | Eps => True
  | Seq r1 r2 => simple ok r1 /\ simple ok r2
  | Alt r1 r2 => simple ok r1 /\ simple ok r2
  | Rep _ _ p => forall c, p c = true -> ok c = true
  | Grp _ _ => False
  | Bol _ => True
  | Eol _ => True
  | Look r1 => simple (fun _ => true) r1
  | NLook r1 => simple (fun _ => true) r1
  | NBehind _ => True
  end.

(** A character of text that no tag of the renderer holds. *)
Definition plain (a : traced) : Prop :=
  tag_char (fst a) = false /\ fst a <> LT /\ fst a <> GT.

(** Neither [<] nor [>]. *)
Definition code_no_angle (c : N) : bool :=
  negb (c =? LT)%N && negb (c =? GT)%N.

(** Neither [<] nor [>], of a character with its origin. *)
Definition no_angle (a : traced) : Prop := fst a <> LT /\ fst a <> GT.

(** [L] ends with a [>]. *)
Definition ends_gt (L : list traced) : Prop :=
  exists Y g, L = Y ++ [g] /\ fst g = GT.

(* ================================================================= *)
(** * Properties *)

(** ** Lists and trimming *)

Lemma drop_while_head {A} (f : A -> bool) (l : list A) a l' :
  drop_while f l = a :: l' -> f a = false.
Proof.
  induction l as [|b l IH]; simpl; [discriminate|].
  destruct (f b) eqn:E; [exact IH|].
  intros H; injection H as -> _; exact E.
Qed.

Lemma drop_while_stable {A} (f : A -> bool) (l : list A) :
  match l with [] => True | a :: _ => f a = false end -> drop_while f l = l.
Proof. destruct l as [|a l]; simpl; [reflexivity|]. intros ->; reflexivity. Qed.

Lemma drop_while_keeps_last {A} (f : A -> bool) (l : list A) a :
  f a = false -> exists l', drop_while f (l ++ [a]) = l' ++ [a].
Proof.
  intros Ha. induction l as [|b l IH]; simpl.
  - rewrite Ha. exists []; reflexivity.
  - destruct (f b); [exact IH|]. exists (b :: l); reflexivity.
Qed.

Lemma trim_head {A} (code : A -> N) (s : list A) a l :
  trim code s = a :: l -> cls_s (code a) = false.
Proof.
  unfold trim. set (f := fun a => cls_s (code a)).
  destruct (drop_while f s) as [|b u] eqn:E; simpl; [discriminate|].
  pose proof (drop_while_head f s E) as Hb.
  destruct (drop_while_keeps_last f (rev u) b Hb) as [l' Hl'].
  rewrite Hl', rev_app_distr; simpl.
  intros H; injection H as <- _; exact Hb.
Qed.

Lemma trim_idempotent {A} (code : A -> N) (s : list A) :
  trim code (trim code s) = trim code s.
Proof.
  set (f := fun a => cls_s (code a)).
  assert (H1 : drop_while f (trim code s) = trim code s).
  { apply drop_while_stable. destruct (trim code s) eqn:E; [exact I|].
    exact (trim_head code s E). }
  unfold trim at 1. fold f. rewrite H1.
  unfold trim. fold f. rewrite rev_involutive.
  rewrite drop_while_stable; [reflexivity|].
  destruct (drop_while f (rev (drop_while f s))) eqn:E; [exact I|].
  exact (drop_while_head f _ E).
Qed.

(** ** The chat client *)

Lemma chatHistory_tail st : chatHistory (handleSubmit_tail st) = chatHistory st.
Proof. unfold handleSubmit_tail; simpl. destruct (selectedImage st); reflexivity. Qed.

Lemma chatHistory_catch msg st :
  chatHistory (makeApiCall_catch msg st) = chatHistory st.
Proof. unfold makeApiCall_catch; simpl. destruct (selectedImage st); reflexivity. Qed.

Lemma toasts_catch msg st :
  toasts (makeApiCall_catch msg st)
  = toasts st ++ [if nonempty msg then msg
                  else str "Failed to communicate with the server."].
Proof. unfold makeApiCall_catch; simpl. destruct (selectedImage st); reflexivity. Qed.

(** What [makeApiCall] leaves in the transcript once the call has ended. *)
Lemma chatHistory_then fo st :
  chatHistory (makeApiCall_then fo st)
  = chatHistory st ++ match confirmed_success fo with
                      | Some data => [botElement data]
                      | None => []
                      end.
Proof.
  destruct fo as [msg | ok status text data];
    unfold makeApiCall_then, confirmed_success.
  - rewrite chatHistory_catch, app_nil_r; reflexivity.
  - destruct ok; cbn [negb].
    + destruct (truthy (error data)); simpl; [rewrite app_nil_r|]; reflexivity.
    + rewrite chatHistory_catch, app_nil_r; reflexivity.
Qed.

(** C6: when the trimmed message is empty and no image is selected,
    [handleSubmit] returns at once: it shows the validation message, makes
    no call to [/api/solve] whatever the network would answer, and leaves
    the transcript, the message box and the selected image as they were. *)
Theorem empty_submission_rejected (st : dom) :
  js_trim (messageInput st) = [] ->
  selectedImage st = None ->
  exists st',
    handleSubmit st = Ret st'
    /\ (forall ro fo, network_calls (handleSubmit st) ro fo = 0)
    /\ toasts st'
       = toasts st ++ [str "Please enter a message or upload an image."]
    /\ chatHistory st' = chatHistory st
    /\ messageInput st' = messageInput st
    /\ selectedImage st' = selectedImage st
    /\ loadingHidden st' = loadingHidden st
    /\ submitDisabled st' = submitDisabled st.
Proof.
  intros Ht Hi.
  exists (showError (str "Please enter a message or upload an image.") st).
  assert (E : handleSubmit st
              = Ret (showError
                       (str "Please enter a message or upload an image.") st)).
  { unfold handleSubmit. rewrite Ht, Hi. reflexivity. }
  split; [exact E|]. split; [intros ro fo; rewrite E; reflexivity|].
  repeat split.
Qed.

Lemma empty_submission_rejected_witness :
  js_trim (messageInput blank_page) = []
  /\ selectedImage blank_page = None
  /\ exists st',
       handleSubmit blank_page = Ret st'
       /\ (forall ro fo, network_calls (handleSubmit blank_page) ro fo = 0)
       /\ toasts st'
          = toasts blank_page
            ++ [str "Please enter a message or upload an image."]
       /\ chatHistory st' = chatHistory blank_page
       /\ messageInput st' = messageInput blank_page
       /\ selectedImage st' = selectedImage blank_page
       /\ loadingHidden st' = loadingHidden blank_page
       /\ submitDisabled st' = submitDisabled blank_page.
Proof.
  split; [reflexivity|]. split; [reflexivity|].
  apply (empty_submission_rejected blank_page); reflexivity.
Defined.

(** C2, as stated, fails: for a 400 reply with error "Bad input" and
    details "missing field" the toast reads "missing field", not
    "Bad input: missing field". *)
Lemma non2xx_toast_is_not_joined :
  toasts (run (makeApiCall (Request (Some (str "2x")) None) dom0) ReadFailed
            (Parsed false 400 (str "Bad Request") bad_input))
  = [str "missing field"]
  /\ toasts (run (makeApiCall (Request (Some (str "2x")) None) dom0) ReadFailed
               (Parsed false 400 (str "Bad Request") bad_input))
     <> [str "Bad input: missing field"].
Proof. split; [reflexivity | discriminate]. Qed.

(** C2, amended: when [/api/solve] answers with a status outside 2xx and a
    JSON body that carries an [error] field and a non-empty [details]
    field, the toast shows [details] alone and no assistant message is
    appended to the transcript. *)
Theorem non2xx_toast_is_details (req : request) (st : dom) (status : N)
    (statusText : jsstring) (data : reply) (e d : jsstring) :
  error data = Some e ->
  details data = Some d ->
  nonempty d = true ->
  exists k,
    makeApiCall req st = Fetch st req k
    /\ forall st', exists st'',
         k (Parsed false status statusText data) st' = Ret st''
         /\ toasts st'' = toasts st' ++ [d]
         /\ chatHistory st'' = chatHistory st'.
Proof.
  intros He Hd Hn. eexists. split; [reflexivity|].
  intros st'. eexists. split; [reflexivity|].
  unfold makeApiCall_then; cbn [negb].
  rewrite toasts_catch, chatHistory_catch, Hd.
  destruct d as [|c d]; [discriminate|]. split; reflexivity.
Qed.

Lemma non2xx_toast_is_details_witness :
  exists k,
    makeApiCall (Request (Some (str "2x")) None) dom0
    = Fetch dom0 (Request (Some (str "2x")) None) k
    /\ forall st', exists st'',
         k (Parsed false 400 (str "Bad Request") bad_input) st' = Ret st''
         /\ toasts st'' = toasts st' ++ [str "missing field"]
         /\ chatHistory st'' = chatHistory st'.
Proof.
  apply (non2xx_toast_is_details (Request (Some (str "2x")) None) dom0 400
           (str "Bad Request") bad_input (e := str "Bad input"));
    reflexivity.
Defined.

(** The joined form is what the 2xx path shows when the body has an
    [error] field. *)
Example ok_reply_with_error_is_joined :
  toasts (run (makeApiCall (Request (Some (str "2x")) None) dom0) ReadFailed
            (Parsed true 200 (str "OK") bad_input))
  = [str "Bad input: missing field"].
Proof. reflexivity. Qed.

(** C4, as stated, fails: an image-only submission is accepted, and while
    [handleSubmit] waits the transcript is still empty; it holds no user
    message after the reply either. *)
Lemma image_only_appends_no_user_message :
  has_image image_only_page = true
  /\ option_map chatHistory (waiting (handleSubmit image_only_page)) = Some []
  /\ chatHistory
       (run (handleSubmit image_only_page) (Loaded (str "data:image/png;base64,AAAA"))
          (Parsed false 500 (str "Internal Server Error") bad_input))
     = [].
Proof. repeat split. Qed.

(** C4, amended: for every accepted submission [handleSubmit] appends the
    user's message before it waits for the reader or the network when the
    trimmed text is not empty, and appends no user message when the text is
    empty (an image-only submission).  The assistant message is appended
    only on confirmed success: the image, if any, was read, the status is
    2xx and the body carries no [error]. *)
Theorem user_message_before_reply (st : dom) :
  nonempty (js_trim (messageInput st)) || has_image st = true ->
  exists st1,
    waiting (handleSubmit st) = Some st1
    /\ chatHistory st1
       = chatHistory st
         ++ (if nonempty (js_trim (messageInput st))
             then [userElement (js_trim (messageInput st))] else [])
    /\ forall ro fo,
         chatHistory (run (handleSubmit st) ro fo)
         = chatHistory st1
           ++ match has_image st, ro with
              | true, ReadFailed => []
              | _, _ => match confirmed_success fo with
                        | Some data => [botElement data]
                        | None => []
                        end
              end.
Proof.
  intros Hacc. unfold handleSubmit, has_image in *.
  set (text := js_trim (messageInput st)) in *.
  assert (Hu : chatHistory (addUserMessage text st)
               = chatHistory st
                 ++ (if nonempty text then [userElement text] else [])).
  { unfold addUserMessage, text, js_trim. rewrite trim_idempotent.
    fold (js_trim (messageInput st)). fold text.
    destruct (nonempty text); simpl; [reflexivity | rewrite app_nil_r; reflexivity]. }
  assert (Hs : selectedImage (showLoading (str "Thinking...")
                                (addUserMessage text st))
               = selectedImage st).
  { unfold addUserMessage. destruct (negb (nonempty (js_trim text))); reflexivity. }
  destruct (selectedImage st) as [f|] eqn:Hi.
  - replace (negb (nonempty text) && false) with false
      by (destruct (nonempty text); reflexivity).
    rewrite Hs. eexists. split; [reflexivity|]. split.
    + rewrite chatHistory_tail. exact Hu.
    + intros ro fo. destruct ro as [result|]; simpl run.
      * rewrite chatHistory_then. reflexivity.
      * cbn. rewrite app_nil_r. reflexivity.
  - rewrite orb_false_r in Hacc. rewrite Hacc. cbn [negb andb].
    rewrite Hs. eexists. split; [reflexivity|]. split.
    + rewrite Hacc in Hu. exact Hu.
    + intros ro fo. simpl run.
      rewrite chatHistory_tail, chatHistory_then. destruct ro; reflexivity.
Qed.

Lemma user_message_before_reply_witness :
  exists st1,
    waiting (handleSubmit typed_page) = Some st1
    /\ chatHistory st1
       = chatHistory typed_page
         ++ (if nonempty (js_trim (messageInput typed_page))
             then [userElement (js_trim (messageInput typed_page))] else [])
    /\ forall ro fo,
         chatHistory (run (handleSubmit typed_page) ro fo)
         = chatHistory st1
           ++ match has_image typed_page, ro with
              | true, ReadFailed => []
              | _, _ => match confirmed_success fo with
                        | Some data => [botElement data]
                        | None => []
                        end
              end.
Proof. apply (user_message_before_reply typed_page). reflexivity. Defined.

(** C8: the fenced block with language tag python and body print(1)
    renders to exactly one [pre]/[code] element. *)
Theorem fence_python_renders :
  advancedMarkdownToHtml
    (Str (str "```python" ++ [NL] ++ str "print(1)" ++ [NL] ++ str "```"))
  = tpl "<pre><code class='language-python'>print(1)</code></pre>".
Proof. vm_compute. reflexivity. Qed.

(** C9, as stated, fails: in a reply whose [solution] field is present but
    empty, the [response] text is what the assistant message shows. *)
Lemma response_shown_beside_empty_solution :
  solution empty_solution_reply = Some []
  /\ botInnerHTML empty_solution_reply
     = tpl "<div class='message-content'>hi</div>"
  /\ botInnerHTML empty_solution_reply
     <> botInnerHTML (with_response None empty_solution_reply).
Proof. split; [reflexivity|]. split; [vm_compute; reflexivity|]. vm_compute. discriminate. Qed.

(** C9, amended: when at least one of [solution], [explanation] and
    [practice_questions] is present and not empty, the assistant message
    does not depend on the [response] field: it is the message of the same
    reply without [response].  So [response] is rendered only when all
    three are absent or empty. *)
Theorem response_ignored_beside_sections (data : reply) :
  truthy (solution data) || truthy (explanation data)
    || truthy (practice_questions data) = true ->
  forall r, botInnerHTML (with_response r data)
            = botInnerHTML (with_response None data).
Proof.
  intros H r. unfold botInnerHTML, with_response; cbn [solution explanation
    practice_questions response image_url].
  destruct (truthy (solution data)), (truthy (explanation data)),
    (truthy (practice_questions data)); try discriminate; reflexivity.
Qed.

Lemma response_ignored_beside_sections_witness :
  botInnerHTML (with_response (Some (str "hi")) solved_reply)
  = botInnerHTML (with_response None solved_reply).
Proof.
  apply (response_ignored_beside_sections solved_reply). reflexivity.
Defined.

(** C10, as stated, fails: a reply that carries an empty [image_url] field
    gets no image tag. *)
Lemma empty_image_url_gets_no_tag :
  image_url empty_image_reply = Some []
  /\ botInnerHTML empty_image_reply = []
  /\ botInnerHTML empty_image_reply
     <> tpl "<img src='' alt='Response Image' class='message-image'>".
Proof. split; [reflexivity|]. split; [reflexivity | discriminate]. Qed.

(** C10, amended: for every reply whose [image_url] field is present and
    not empty, the assistant message is the message of the same reply
    without [image_url], followed by an [img] tag whose [src] attribute is
    the field's value, character for character; this is so whatever the
    other fields hold. *)
Theorem image_url_verbatim (data : reply) (u : jsstring) :
  image_url data = Some u ->
  nonempty u = true ->
  botInnerHTML data
  = botInnerHTML (with_image_url None data)
    ++ tpl "<img src='" ++ u
    ++ tpl "' alt='Response Image' class='message-image'>".
Proof.
  intros Hu Hn. unfold botInnerHTML, with_image_url; cbn [solution explanation
    practice_questions response image_url].
  rewrite Hu. destruct u as [|c u]; [discriminate|]. cbn [truthy value].
  reflexivity.
Qed.

Lemma image_url_verbatim_witness :
  botInnerHTML image_reply
  = botInnerHTML (with_image_url None image_reply)
    ++ tpl "<img src='" ++ str "plot.png"
    ++ tpl "' alt='Response Image' class='message-image'>".
Proof. apply (image_url_verbatim image_reply); reflexivity. Defined.

(** ** Erasing and tracing the renderer

    The renderer over any character type does, on the code units, what the
    script does; and a property that holds of the renderer's own literals
    and of every character that is neither [<] nor [>] holds of every
    character of the output. *)

Section Traces.

Context {A : Type} (code : A -> N) (lit : N -> A).
Hypothesis code_lit : forall c, code (lit c) = c.

Let plain : N -> N := fun c => c.

Lemma map_plain (l : list N) : map plain l = l.
Proof. apply map_id. Qed.

Lemma map_sub (s : list A) a b : map code (sub s a b) = sub (map code s) a b.
Proof. unfold sub. rewrite skipn_map, firstn_map. reflexivity. Qed.

Lemma map_group (s : list A) mt i :
  map code (group s mt i) = group (map code s) mt i.
Proof.
  unfold group. destruct (assoc i (caps mt)) as [[a b]|]; [apply map_sub|reflexivity].
Qed.

Lemma map_whole (s : list A) mt : map code (whole s mt) = whole (map code s) mt.
Proof. apply map_sub. Qed.

Lemma map_lits x : map code (lits lit x) = lits plain x.
Proof.
  unfold lits. rewrite !map_map. apply map_ext. intros c. apply code_lit.
Qed.

Lemma map_drop_while (f : N -> bool) (l : list A) :
  map code (drop_while (fun a => f (code a)) l) = drop_while f (map code l).
Proof.
  induction l as [|a l IH]; simpl; [reflexivity|].
  destruct (f (code a)); [exact IH | reflexivity].
Qed.

Lemma map_trim (s : list A) : map code (trim code s) = trim plain (map code s).
Proof.
  unfold trim, plain.
  rewrite map_rev, (map_drop_while cls_s), map_rev, (map_drop_while cls_s).
  reflexivity.
Qed.

Lemma map_assemble f g (s : list A) :
  (forall mt, map code (f s mt) = g (map code s) mt) ->
  forall ms cur,
    map code (assemble f s cur ms) = assemble g (map code s) cur ms.
Proof.
  intros Hf. induction ms as [|mt ms IH]; intros cur; simpl.
  - symmetry. apply skipn_map.
  - rewrite !map_app, map_sub, Hf, IH. reflexivity.
Qed.

Lemma map_replace re f g (s : list A) :
  (forall s mt, map code (f s mt) = g (map code s) mt) ->
  map code (replace code re f s) = replace plain re g (map code s).
Proof.
  intros Hf. unfold replace. rewrite map_plain. apply map_assemble. apply Hf.
Qed.

Lemma map_escape (s : list A) :
  map code (escape_html code lit s) = escape_html plain plain (map code s).
Proof.
  unfold escape_html. induction s as [|a s IH]; simpl; [reflexivity|].
  rewrite map_app, IH. f_equal.
  unfold escape_char. change (plain (code a)) with (code a).
  destruct (code a =? AMP)%N; [apply map_lits|].
  destruct (code a =? NBSP)%N; [apply map_lits|].
  destruct (code a =? LT)%N; [apply map_lits|].
  destruct (code a =? GT)%N; [apply map_lits|]. reflexivity.
Qed.

Lemma map_fn_fence (s : list A) mt :
  map code (fn_fence code lit s mt) = fn_fence plain plain (map code s) mt.
Proof.
  unfold fn_fence. rewrite !map_app, !map_lits, map_trim, !map_group.
  do 2 f_equal.
  destruct (group s mt 1) as [|a l] eqn:E.
  - rewrite <- map_group, E. reflexivity.
  - rewrite <- !map_group, E. cbn [map].
    rewrite !map_app, !map_lits. cbn [map]. rewrite !code_lit. reflexivity.
Qed.

Lemma map_fn_para (s : list A) mt :
  map code (fn_para code lit s mt) = fn_para plain plain (map code s) mt.
Proof.
  unfold fn_para. rewrite <- !map_group, map_plain, map_trim, map_plain.
  match goal with |- context [if ?b then _ else _] => destruct b end;
    rewrite !map_app, !map_lits; reflexivity.
Qed.

Lemma map_subst t (s : list A) mt :
  map code (subst lit t s mt) = subst plain t (map code s) mt.
Proof.
  unfold subst. induction (parse_template (str t)) as [|p ps IH]; simpl;
    [reflexivity|].
  rewrite map_app, IH. f_equal.
  destruct p as [c|i|]; simpl;
    [rewrite code_lit; reflexivity | apply map_group | apply map_whole].
Qed.

Lemma markdown_erase (s : list A) :
  map code (markdown code lit s) = markdown plain plain (map code s).
Proof.
  unfold markdown, substitute. rewrite map_trim.
  rewrite !(map_replace _ _ _ _ (map_subst _)).
  rewrite (map_replace _ _ _ _ map_fn_para).
  rewrite !(map_replace _ _ _ _ (map_subst _)).
  rewrite (map_replace _ _ _ _ map_fn_fence).
  rewrite map_escape. reflexivity.
Qed.

(** *** What the output is made of *)

Variable P : A -> Prop.
Hypothesis P_lit : forall c, P (lit c).
Hypothesis P_text : forall a, code a <> LT -> code a <> GT -> P a.

Lemma Forall_firstn n (l : list A) : Forall P l -> Forall P (firstn n l).
Proof.
  revert l. induction n as [|n IH]; intros l H; simpl; [constructor|].
  destruct H; constructor; auto.
Qed.

Lemma Forall_skipn n (l : list A) : Forall P l -> Forall P (skipn n l).
Proof.
  revert l. induction n as [|n IH]; intros l H; simpl; [exact H|].
  destruct H; [constructor | auto].
Qed.

Lemma Forall_sub (s : list A) a b : Forall P s -> Forall P (sub s a b).
Proof. intros H. apply Forall_firstn, Forall_skipn, H. Qed.

Lemma Forall_group (s : list A) mt i : Forall P s -> Forall P (group s mt i).
Proof.
  intros H. unfold group.
  destruct (assoc i (caps mt)) as [[a b]|]; [apply Forall_sub, H | constructor].
Qed.

Lemma Forall_lits x : Forall P (lits lit x).
Proof. unfold lits. apply Forall_map, Forall_forall. intros c _. apply P_lit. Qed.

Lemma Forall_drop_while f (l : list A) : Forall P l -> Forall P (drop_while f l).
Proof.
  induction 1 as [|a l Ha Hl IH]; simpl; [constructor|].
  destruct (f a); [exact IH | constructor; assumption].
Qed.

Lemma Forall_trim (s : list A) : Forall P s -> Forall P (trim code s).
Proof.
  intros H. unfold trim.
  apply Forall_rev, Forall_drop_while, Forall_rev, Forall_drop_while, H.
Qed.

Lemma Forall_assemble f (s : list A) :
  (forall mt, Forall P (f s mt)) -> Forall P s ->
  forall ms cur, Forall P (assemble f s cur ms).
Proof.
  intros Hf Hs. induction ms as [|mt ms IH]; intros cur; simpl.
  - apply Forall_skipn, Hs.
  - apply Forall_app; split; [apply Forall_sub, Hs|].
    apply Forall_app; split; [apply Hf | apply IH].
Qed.

Lemma Forall_replace re f (s : list A) :
  (forall s mt, Forall P s -> Forall P (f s mt)) ->
  Forall P s -> Forall P (replace code re f s).
Proof.
  intros Hf Hs. unfold replace. apply Forall_assemble; auto.
Qed.

Lemma Forall_escape (s : list A) : Forall P (escape_html code lit s).
Proof.
  unfold escape_html. apply Forall_flat_map, Forall_forall. intros a _.
  unfold escape_char.
  destruct (code a =? AMP)%N; [apply Forall_lits|].
  destruct (code a =? NBSP)%N; [apply Forall_lits|].
  destruct (code a =? LT)%N eqn:E1; [apply Forall_lits|].
  destruct (code a =? GT)%N eqn:E2; [apply Forall_lits|].
  constructor; [|constructor].
  apply P_text; apply N.eqb_neq; assumption.
Qed.

Ltac pieces :=
  intros;
  repeat (apply Forall_app; split);
  auto using Forall_lits, Forall_group, Forall_sub, Forall_trim.

Lemma Forall_fn_fence (s : list A) mt :
  Forall P s -> Forall P (fn_fence code lit s mt).
Proof.
  intros H. unfold fn_fence. pieces.
  destruct (group s mt 1) eqn:E; [constructor|]. rewrite <- E. pieces.
Qed.

Lemma Forall_fn_para (s : list A) mt :
  Forall P s -> Forall P (fn_para code lit s mt).
Proof.
  intros H. unfold fn_para.
  match goal with |- context [if ?b then _ else _] => destruct b end; pieces.
Qed.

Lemma Forall_subst t (s : list A) mt :
  Forall P s -> Forall P (subst lit t s mt).
Proof.
  intros H. unfold subst. apply Forall_flat_map, Forall_forall.
  intros [c|i|] _; simpl;
    [constructor; [apply P_lit | constructor]
    | apply Forall_group, H | apply Forall_sub, H].
Qed.

Lemma Forall_markdown (s : list A) : Forall P (markdown code lit s).
Proof.
  unfold markdown, substitute. apply Forall_trim.
  repeat (first
    [ apply Forall_escape
    | apply Forall_replace;
      [ first [ exact Forall_fn_fence | exact Forall_fn_para
              | intros; apply Forall_subst; assumption ] | ] ]).
Qed.

End Traces.

Lemma escapeHtml_no_angle (text : jsstring) :
  Forall (fun c => c <> LT /\ c <> GT) (escapeHtml text).
Proof.
  unfold escapeHtml, escape_html. apply Forall_flat_map, Forall_forall.
  intros a _. unfold escape_char.
  destruct (a =? AMP)%N;
    [repeat constructor; discriminate|].
  destruct (a =? NBSP)%N; [repeat constructor; discriminate|].
  destruct (a =? LT)%N eqn:E1; [repeat constructor; discriminate|].
  destruct (a =? GT)%N eqn:E2; [repeat constructor; discriminate|].
  constructor; [|constructor]. split; apply N.eqb_neq; assumption.
Qed.

Lemma advancedMarkdownToHtml_Str (text : jsstring) :
  advancedMarkdownToHtml (Str text) = markdown (fun c => c) (fun c => c) text.
Proof. destruct text; reflexivity. Qed.

(* ================================================================= *)
(** ** The matcher *)

(** A quantified class consumes a run of its class, at least [n] long, and
    hands the rest to its continuation. *)
Lemma rep_sound g p k : forall rest n prev pos cs z,
  rep g p k n prev rest pos cs = Some z ->
  exists run rest' prev',
    rest = run ++ rest' /\ forallb p run = true /\ n <= length run
    /\ k prev' rest' (pos + length run) cs = Some z.
Proof.
  induction rest as [|c t IH]; intros n prev pos cs z H.
  - destruct n; simpl in H; [|discriminate].
    exists [], [], prev. rewrite Nat.add_0_r. auto.
  - assert (Hstop : k prev (c :: t) pos cs = Some z ->
                    exists run rest' prev',
                      c :: t = run ++ rest' /\ forallb p run = true
                      /\ 0 <= length run
                      /\ k prev' rest' (pos + length run) cs = Some z).
    { intros Hk. exists [], (c :: t), prev. rewrite Nat.add_0_r.
      repeat split; auto. }
    assert (Hmore : forall n',
               n <= S n' ->
               (if p c then rep g p k n' (Some c) t (S pos) cs else None)
               = Some z ->
               exists run rest' prev',
                 c :: t = run ++ rest' /\ forallb p run = true
                 /\ n <= length run
                 /\ k prev' rest' (pos + length run) cs = Some z).
    { intros n' Hn Hr. destruct (p c) eqn:Ep; [|discriminate].
      apply IH in Hr as (run & rest' & prev' & -> & Hf & Hl & Hk).
      exists (c :: run), rest', prev'. simpl. rewrite Ep, Hf.
      repeat split; [lia|].
      replace (pos + S (length run)) with (S pos + length run) by lia.
      exact Hk. }
    destruct n as [|n]; simpl in H.
    + destruct g.
      * destruct (if p c then rep true p k 0 (Some c) t (S pos) cs else None)
          as [z'|] eqn:E.
        -- injection H as ->. apply (Hmore 0); [lia | exact E].
        -- apply Hstop, H.
      * destruct (k prev (c :: t) pos cs) as [z'|] eqn:E.
        -- injection H as ->. apply Hstop. reflexivity.
        -- apply (Hmore 0); [lia | exact H].
    + apply (Hmore n); [lia | exact H].
Qed.

Lemma nowhere_everywhere f : forall l prev,
  nowhere f prev l = true -> everywhere (fun pv l' => f pv l' = false) prev l.
Proof.
  induction l as [|c t IH]; intros prev H; simpl in *;
    apply andb_prop in H as [H1 H2]; apply negb_true_iff in H1; auto.
Qed.

Lemma everywhere_impl (P Q : option N -> jsstring -> Prop) :
  (forall pv l, P pv l -> Q pv l) ->
  forall l prev, everywhere P prev l -> everywhere Q prev l.
Proof.
  intros HPQ. induction l as [|c t IH]; intros prev [H1 H2]; simpl; auto.
Qed.

Lemma lacks_cons c a l :
  lacks c (a :: l) = true -> (c =? a)%N = false /\ lacks c l = true.
Proof.
  unfold lacks; simpl. intros H. apply negb_true_iff, orb_false_elim in H.
  destruct H as [H1 H2]. rewrite H2. auto.
Qed.

Lemma lacks_everywhere c : forall l prev,
  lacks c l = true -> everywhere (fun _ l' => lacks c l' = true) prev l.
Proof.
  induction l as [|a t IH]; intros prev H; simpl; [auto|].
  split; [exact H|]. apply IH. apply (lacks_cons _ _ _ H).
Qed.

(** Where a pattern matches nowhere, [replace] gives the string back. *)
Lemma scan_nil re : forall rest prev pos,
  unmatched re prev rest -> scan re prev rest pos 0 = [].
Proof.
  induction rest as [|c t IH]; intros prev pos [H1 H2]; simpl; rewrite H1.
  - reflexivity.
  - apply IH, H2.
Qed.

Lemma replace_unmatched {A} (code : A -> N) re f (s : list A) :
  unmatched re None (map code s) -> replace code re f s = s.
Proof.
  intros H. unfold replace, find_all. rewrite scan_nil by exact H. reflexivity.
Qed.

#[local] Arguments only : simpl never.
#[local] Arguments except : simpl never.
#[local] Arguments cls_s : simpl never.
#[local] Arguments cls_d : simpl never.
#[local] Arguments cls_dot : simpl never.
#[local] Arguments cls_any : simpl never.
#[local] Arguments cls_lower : simpl never.
#[local] Arguments cls_bullet : simpl never.
#[local] Arguments cls_lt_s : simpl never.
#[local] Arguments cls_1_6 : simpl never.
#[local] Arguments line_terminator : simpl never.
#[local] Arguments N_of_ascii : simpl never.

(** Inverting one step of the matcher. *)
Ltac step H :=
  match type of H with
  | match ?l with [] => None | _ :: _ => _ end = Some _ =>
      let c := fresh "c" in let t := fresh "t" in
      destruct l as [|c t]; [discriminate H|]
  | (if ?b then _ else None) = Some _ =>
      let E := fresh "E" in destruct b eqn:E; [|discriminate H]
  | match ?l with [] => _ | _ :: _ => None end = Some _ =>
      destruct l; [|discriminate H]
  end.

(** Facts about the character classes, by case analysis on the tests. *)
Ltac classes :=
  unfold entity_char, only, except, cls_s, cls_d, cls_dot, cls_lower,
    cls_bullet, cls_lt_s, white_space, line_terminator, BT, STAR, LT, GT, NL, HASH, DOT, AMP, NBSP
    in *;
  repeat match goal with
         | H : context [(?a =? ?b)%N] |- _ =>
             destruct (N.eqb_spec a b); simpl in H; try discriminate H; try lia
         | H : context [(?a <=? ?b)%N] |- _ =>
             destruct (N.leb_spec a b); simpl in H; try discriminate H; try lia
         end;
  repeat match goal with
         | |- context [(?a =? ?b)%N] =>
             destruct (N.eqb_spec a b); simpl; try lia
         | |- context [(?a <=? ?b)%N] =>
             destruct (N.leb_spec a b); simpl; try lia
         end;
  try reflexivity; try discriminate; try lia.

Lemma bullet_not_space c : cls_bullet c = true -> cls_s c = false.
Proof. intros H. classes. Qed.

Lemma digit_not_space c : cls_d c = true -> cls_s c = false.
Proof. intros H. classes. Qed.

Lemma dot_not_digit c : only DOT c = true -> cls_d c = false.
Proof. intros H. classes. Qed.

Lemma lower_not_backtick c : cls_lower c = true -> (c =? BT)%N = false.
Proof. intros H. classes. Qed.

Lemma only_eq a c : only a c = true -> c = a.
Proof. unfold only. intros H. apply N.eqb_eq in H. auto. Qed.

Lemma except_neq a c : except a c = true -> (c =? a)%N = false.
Proof.
  unfold except. intros H. apply negb_true_iff in H.
  rewrite N.eqb_sym. exact H.
Qed.

Lemma drop_while_run {A} (f : A -> bool) run b t :
  forallb f run = true -> f b = false -> drop_while f (run ++ b :: t) = b :: t.
Proof.
  intros Hr Hb. induction run as [|a run IH]; simpl in *.
  - rewrite Hb. reflexivity.
  - apply andb_prop in Hr as [Ha Hr]. rewrite Ha. auto.
Qed.

Lemma existsb_app_r {A} (f : A -> bool) l1 l2 :
  existsb f l2 = true -> existsb f (l1 ++ l2) = true.
Proof. intros H. rewrite existsb_app, H. apply orb_true_r. Qed.

Lemma everywhere_here (P : option N -> jsstring -> Prop) l prev :
  everywhere P prev l -> P prev l.
Proof. destruct l; intros [H _]; exact H. Qed.

Lemma everywhere_nested (P : option N -> jsstring -> Prop) : forall l prev,
  everywhere P prev l -> everywhere (fun pv l' => everywhere P pv l') prev l.
Proof.
  induction l as [|c t IH]; intros prev H; simpl; split; auto.
  apply IH, H.
Qed.

(** *** Where each pattern can match *)

Lemma inline_needs_span pv l pos z :
  m re_inline accept pv l pos [] = Some z -> code_span_at pv l = true.
Proof.
  intros H. simpl in H. do 2 step H.
  apply rep_sound in H as (run & rest' & prev' & -> & Hf & Hl & Hk).
  do 2 step Hk. destruct run as [|d run]; [simpl in Hl; lia|].
  simpl in Hf. apply andb_prop in Hf as [Hd _].
  apply only_eq in E, E0. apply except_neq in Hd. subst.
  simpl. rewrite Hd. simpl. apply existsb_app_r. reflexivity.
Qed.

Lemma span_after_backtick pv d t :
  (d =? BT)%N = false -> existsb (N.eqb BT) t = true ->
  code_span_at pv (BT :: d :: t) = true.
Proof. intros Hd Ht. simpl. rewrite Hd, Ht. reflexivity. Qed.

Lemma fence_needs_span pv l pos z :
  m re_fence accept pv l pos [] = Some z ->
  exists a b t, l = a :: b :: t /\ code_span_at (Some b) t = true.
Proof.
  intros H. simpl in H. do 6 step H.
  apply rep_sound in H as (run & rest' & prev' & -> & Hf & _ & Hk).
  do 2 step Hk.
  apply rep_sound in Hk as (run2 & rest2 & prev2 & -> & _ & _ & Hk).
  do 4 step Hk.
  repeat match goal with
         | E : only _ _ = true |- _ => apply only_eq in E; subst
         end.
  change (N_of_ascii "`") with BT.
  eexists _, _, _. split; [reflexivity|].
  destruct run as [|d run]; cbn [app].
  - apply span_after_backtick; [reflexivity|].
    apply existsb_app_r. reflexivity.
  - simpl in Hf. apply andb_prop in Hf as [Hd _].
    apply span_after_backtick; [apply lower_not_backtick, Hd|].
    apply existsb_app_r. cbn [existsb]. rewrite existsb_app_r; [|reflexivity].
    apply orb_true_r.
Qed.

Lemma bold_needs_star pv l pos z :
  m re_bold accept pv l pos [] = Some z -> lacks STAR l = false.
Proof.
  intros H. simpl in H. do 2 step H.
  apply only_eq in E. subst. reflexivity.
Qed.

Lemma italic_needs_star pv l pos z :
  m re_italic accept pv l pos [] = Some z -> lacks STAR l = false.
Proof.
  intros H. simpl in H. do 2 step H.
  apply only_eq in E. subst. reflexivity.
Qed.

Lemma Bol_line_start pv (X : option result) z :
  match pv with
  | None => X
  | Some c => if true && line_terminator c then X else None
  end = Some z ->
  line_start pv = true /\ X = Some z.
Proof.
  destruct pv as [c|]; simpl; [|auto].
  destruct (line_terminator c); [auto | discriminate].
Qed.

Lemma ul_item_needs_bullet pv l pos z :
  m re_ul_item accept pv l pos [] = Some z -> bullet_at pv l = true.
Proof.
  intros H. simpl in H. apply Bol_line_start in H as [Hl H].
  apply rep_sound in H as (run & rest' & prev' & -> & Hf & _ & Hk).
  do 2 step Hk.
  apply rep_sound in Hk as (run2 & rest2 & prev2 & -> & Hf2 & Hl2 & _).
  destruct run2 as [|w run2]; [simpl in Hl2; lia|].
  simpl in Hf2. apply andb_prop in Hf2 as [Hw _].
  unfold bullet_at. rewrite Hl.
  rewrite (drop_while_run cls_s _ _ _ Hf (bullet_not_space _ E)).
  simpl. rewrite E, Hw. reflexivity.
Qed.

Lemma ol_item_needs_numbering pv l pos z :
  m re_ol_item accept pv l pos [] = Some z -> numbering_at pv l = true.
Proof.
  intros H. simpl in H. apply Bol_line_start in H as [Hl H].
  apply rep_sound in H as (run & rest' & prev' & -> & Hf & _ & Hk).
  apply rep_sound in Hk as (ds & rest1 & prev1 & -> & Hd & Hld & Hk).
  do 2 step Hk.
  apply rep_sound in Hk as (run2 & rest2 & prev2 & -> & Hf2 & Hl2 & _).
  destruct run2 as [|w run2]; [simpl in Hl2; lia|].
  simpl in Hf2. apply andb_prop in Hf2 as [Hw _].
  destruct ds as [|d ds]; [simpl in Hld; lia|].
  simpl in Hd. apply andb_prop in Hd as [Hd Hds].
  unfold numbering_at. rewrite Hl. cbn [app].
  rewrite (drop_while_run cls_s _ _ _ Hf (digit_not_space _ Hd)).
  rewrite Hd, (drop_while_run cls_d _ _ _ Hds (dot_not_digit _ E)).
  simpl. apply only_eq in E. subst. rewrite Hw. reflexivity.
Qed.

Lemma heading_needs_hash hashes pv l pos z :
  hashes = "###"%string \/ hashes = "##"%string \/ hashes = "#"%string ->
  m (re_heading hashes) accept pv l pos [] = Some z -> heading_at pv l = true.
Proof.
  intros [-> | [-> | ->]] H; simpl in H;
    apply Bol_line_start in H as [Hl H]; do 2 step H;
    apply only_eq in E; subst; unfold heading_at; rewrite Hl; reflexivity.
Qed.

Lemma para_needs_break pv l pos z :
  m re_para accept pv l pos [] = Some z -> paragraph_at pv l = true.
Proof.
  intros H. simpl in H. do 4 step H.
  apply rep_sound in H as (run & rest' & prev' & -> & _ & Hl & _).
  destruct run as [|a run]; [simpl in Hl; lia|].
  apply only_eq in E, E0. subst. reflexivity.
Qed.

(** The patterns that begin with [<] need a [<] in the text. *)
Lemma li_join_needs_lt pv l pos z :
  m re_li_join accept pv l pos [] = Some z -> lacks LT l = false.
Proof.
  intros H. simpl in H. do 2 step H. apply only_eq in E. subst. reflexivity.
Qed.

Lemma li_close_needs_lt pv l pos z :
  m re_li_close accept pv l pos [] = Some z -> lacks LT l = false.
Proof.
  intros H. simpl in H. do 2 step H. apply only_eq in E. subst. reflexivity.
Qed.

Lemma ol_join_needs_lt pv l pos z :
  m re_ol_join accept pv l pos [] = Some z -> lacks LT l = false.
Proof.
  intros H. simpl in H.
  assert (H' : match l with
               | [] => None
               | c :: _ => if only (N_of_ascii "<") c then Some z else None
               end = Some z).
  { destruct pv as [c|]; [destruct (only NL c); [discriminate|]|];
      destruct l as [|c' t]; try discriminate;
      destruct (only (N_of_ascii "<") c'); try discriminate; reflexivity. }
  do 2 step H'. apply only_eq in E. subst. reflexivity.
Qed.

Lemma unwrap_needs_lt pv l pos z :
  m re_unwrap accept pv l pos [] = Some z -> lacks LT l = false.
Proof.
  intros H. simpl in H. do 2 step H. apply only_eq in E. subst. reflexivity.
Qed.

Lemma li_open_needs_lt pv l pos z :
  m re_li_open accept pv l pos [] = Some z -> lacks LT l = false.
Proof.
  intros H. simpl in H.
  destruct l as [|c t]; [destruct pv; discriminate|].
  destruct (only (N_of_ascii "<") c) eqn:Ec.
  - apply only_eq in Ec. subst. reflexivity.
  - assert (H' : match t with
                 | [] => None
                 | c' :: _ => if only (N_of_ascii "<") c' then Some z else None
                 end = Some z).
    { destruct pv; destruct (except LT c); try discriminate;
        destruct t as [|c' t']; try discriminate;
        destruct (only (N_of_ascii "<") c'); try discriminate; reflexivity. }
    do 2 step H'. apply only_eq in E. subst.
    unfold lacks. simpl. rewrite orb_true_r. reflexivity.
Qed.

(** *** From the tokens to the patterns *)

Lemma unmatched_nowhere re (Q : option N -> jsstring -> bool) :
  (forall pv l pos z, m re accept pv l pos [] = Some z -> Q pv l = true) ->
  forall l prev, nowhere Q prev l = true -> unmatched re prev l.
Proof.
  intros HQ l prev H. apply nowhere_everywhere in H.
  revert H. apply everywhere_impl. intros pv l' Hf pos.
  destruct (m re accept pv l' pos []) as [z|] eqn:E; [|reflexivity].
  apply HQ in E. congruence.
Qed.

Lemma unmatched_lacks re c :
  (forall pv l pos z, m re accept pv l pos [] = Some z -> lacks c l = false) ->
  forall l prev, lacks c l = true -> unmatched re prev l.
Proof.
  intros HQ l prev H. apply (lacks_everywhere c l prev) in H.
  revert H. apply everywhere_impl. intros pv l' Hf pos.
  destruct (m re accept pv l' pos []) as [z|] eqn:E; [|reflexivity].
  apply HQ in E. congruence.
Qed.

Lemma unmatched_fence l prev :
  nowhere code_span_at prev l = true -> unmatched re_fence prev l.
Proof.
  intros H. apply nowhere_everywhere, everywhere_nested in H.
  revert H. apply everywhere_impl. intros pv l' Hf pos.
  destruct (m re_fence accept pv l' pos []) as [z|] eqn:E; [|reflexivity].
  apply fence_needs_span in E as (a & b & t & -> & Hs).
  destruct Hf as [_ [_ Hf]]. apply everywhere_here in Hf. congruence.
Qed.

(** *** The last pattern: every newline becomes a line break *)

Lemma sub_snoc {A} (pre : list A) c t cur :
  cur <= length pre ->
  sub (pre ++ c :: t) cur (S (length pre))
  = sub (pre ++ c :: t) cur (length pre) ++ [c].
Proof.
  intros Hc. unfold sub. rewrite skipn_app.
  replace (cur - length pre) with 0 by lia. cbn [skipn].
  assert (Hl : length (skipn cur pre) = length pre - cur)
    by apply length_skipn.
  replace (S (length pre) - cur) with (length (skipn cur pre) + 1) by lia.
  rewrite firstn_app_2. rewrite <- Hl, <- (Nat.add_0_r (length (skipn cur pre))).
  rewrite firstn_app_2. cbn [firstn]. rewrite app_nil_r. reflexivity.
Qed.

Lemma assemble_newline (f : jsstring -> mtch -> jsstring) (br : jsstring) :
  (forall s mt, f s mt = br) ->
  forall rest pre prev cur,
    cur <= length pre ->
    assemble f (pre ++ rest) cur (scan re_newline prev rest (length pre) 0)
    = sub (pre ++ rest) cur (length pre)
      ++ flat_map (fun c => if (c =? NL)%N then br else [c]) rest.
Proof.
  intros Hf. induction rest as [|c t IH]; intros pre prev cur Hc.
  - simpl. rewrite !app_nil_r. unfold sub.
    rewrite firstn_all2; [reflexivity|]. rewrite length_skipn. lia.
  - cbn [scan re_newline m flat_map]. unfold only at 1.
    rewrite (N.eqb_sym NL c). unfold accept.
    replace (pre ++ c :: t) with ((pre ++ [c]) ++ t)
      by (rewrite <- app_assoc; reflexivity).
    assert (Hlen : length (pre ++ [c]) = S (length pre))
      by (rewrite length_app; simpl; lia).
    destruct (c =? NL)%N.
    + replace (S (length pre) - length pre - 1) with 0 by lia.
      cbn [assemble start stop]. rewrite Hf. rewrite <- Hlen.
      rewrite IH by lia. rewrite Hlen.
      replace (sub ((pre ++ [c]) ++ t) (S (length pre)) (S (length pre)))
        with (@nil N)
        by (unfold sub; rewrite Nat.sub_diag; reflexivity).
      rewrite <- !app_assoc. reflexivity.
    + rewrite <- Hlen. rewrite IH by lia. rewrite Hlen.
      rewrite <- (app_assoc pre [c] t). cbn [app].
      rewrite sub_snoc by exact Hc. rewrite <- !app_assoc. reflexivity.
Qed.

Lemma replace_newline (h : jsstring) :
  replace (fun c => c) re_newline (subst (fun c => c) "<br>") h
  = line_breaks h.
Proof.
  unfold replace, find_all. rewrite map_id.
  apply (@assemble_newline (subst (fun c => c) "<br>") (str "<br>")
           (fun _ _ => eq_refl) h [] None 0).
  simpl. lia.
Qed.

(** *** Text without tokens is left as it is *)

Lemma markdown_literal (s : jsstring) :
  nowhere code_span_at None (escapeHtml s) = true ->
  lacks STAR (escapeHtml s) = true ->
  nowhere heading_at None (escapeHtml s) = true ->
  nowhere bullet_at None (escapeHtml s) = true ->
  nowhere numbering_at None (escapeHtml s) = true ->
  nowhere paragraph_at None (escapeHtml s) = true ->
  markdown (fun c => c) (fun c => c) s = literal_text s.
Proof.
  intros Hspan Hstar Hhead Hbul Hnum Hpar.
  assert (Hlt : lacks LT (escapeHtml s) = true).
  { unfold lacks. apply negb_true_iff.
    destruct (existsb (N.eqb LT) (escapeHtml s)) eqn:E; [|reflexivity].
    apply existsb_exists in E as (c & Hin & Hc). apply N.eqb_eq in Hc.
    pose proof (escapeHtml_no_angle s) as Hs.
    rewrite Forall_forall in Hs. destruct (Hs c Hin) as [Hn _]. congruence. }
  unfold literal_text, markdown, substitute. fold (escapeHtml s).
  set (h := escapeHtml s) in *.
  assert (R : forall re f, unmatched re None h ->
                           replace (fun c => c) re f h = h).
  { intros re f H. apply replace_unmatched. rewrite map_id. exact H. }
  rewrite (R re_fence) by (apply unmatched_fence, Hspan).
  rewrite (R re_inline)
    by (apply (@unmatched_nowhere _ _ inline_needs_span), Hspan).
  rewrite (R re_bold) by (apply (@unmatched_lacks _ _ bold_needs_star), Hstar).
  rewrite (R re_italic)
    by (apply (@unmatched_lacks _ _ italic_needs_star), Hstar).
  rewrite (R re_ul_item)
    by (apply (@unmatched_nowhere _ _ ul_item_needs_bullet), Hbul).
  rewrite (R re_li_join) by (apply (@unmatched_lacks _ _ li_join_needs_lt), Hlt).
  rewrite (R re_li_open) by (apply (@unmatched_lacks _ _ li_open_needs_lt), Hlt).
  rewrite (R re_li_close)
    by (apply (@unmatched_lacks _ _ li_close_needs_lt), Hlt).
  rewrite (R re_ol_item)
    by (apply (@unmatched_nowhere _ _ ol_item_needs_numbering), Hnum).
  rewrite (R re_ol_join) by (apply (@unmatched_lacks _ _ ol_join_needs_lt), Hlt).
  rewrite (R re_li_open) by (apply (@unmatched_lacks _ _ li_open_needs_lt), Hlt).
  rewrite (R re_li_close)
    by (apply (@unmatched_lacks _ _ li_close_needs_lt), Hlt).
  rewrite (R (re_heading "###"))
    by (apply (@unmatched_nowhere (re_heading "###") heading_at); [|exact Hhead];
        intros pv l pos z; apply heading_needs_hash; auto).
  rewrite (R (re_heading "##"))
    by (apply (@unmatched_nowhere (re_heading "##") heading_at); [|exact Hhead];
        intros pv l pos z; apply heading_needs_hash; auto).
  rewrite (R (re_heading "#"))
    by (apply (@unmatched_nowhere (re_heading "#") heading_at); [|exact Hhead];
        intros pv l pos z; apply heading_needs_hash; auto).
  rewrite (R re_para)
    by (apply (@unmatched_nowhere _ _ para_needs_break), Hpar).
  rewrite (R re_unwrap) by (apply (@unmatched_lacks _ _ unwrap_needs_lt), Hlt).
  rewrite replace_newline. reflexivity.
Qed.

(* ================================================================= *)
(** ** Tokens of the text and tokens of the escaped text

    Escaping replaces a character by an entity whose characters belong to
    no token, so a token found in the escaped text is a token of the text. *)

Lemma escapeHtml_cons a t :
  escapeHtml (a :: t) = escape_char (fun c => c) (fun c => c) a ++ escapeHtml t.
Proof. reflexivity. Qed.

Lemma escape_char_cases a :
  escape_char (fun c => c) (fun c => c) a = [a]
  /\ (a =? AMP)%N = false /\ (a =? NBSP)%N = false
  /\ (a =? LT)%N = false /\ (a =? GT)%N = false
  \/ (a = AMP \/ a = NBSP \/ a = LT \/ a = GT)
     /\ exists w, escape_char (fun c => c) (fun c => c) a
                  = AMP :: w ++ [59%N]
                  /\ forallb cls_lower w = true.
Proof.
  unfold escape_char.
  destruct (N.eqb_spec a AMP) as [->|H1];
    [right; split; [auto|]; exists (str "amp"); split; reflexivity|].
  destruct (N.eqb_spec a NBSP) as [->|H2];
    [right; split; [auto|]; exists (str "nbsp"); split; reflexivity|].
  destruct (N.eqb_spec a LT) as [->|H3];
    [right; split; [auto|]; exists (str "lt"); split; reflexivity|].
  destruct (N.eqb_spec a GT) as [->|H4];
    [right; split; [auto|]; exists (str "gt"); split; reflexivity|].
  left. auto.
Qed.

Lemma nowhere_app_entity f w : forall pv l,
  (forall pv c l, entity_char c = true -> f pv (c :: l) = false) ->
  forallb entity_char w = true ->
  (forall pv', nowhere f pv' l = true) ->
  nowhere f pv (w ++ l) = true.
Proof.
  induction w as [|c w IH]; intros pv l Hent Hw Hl; simpl; [apply Hl|].
  simpl in Hw. apply andb_prop in Hw as [Hc Hw].
  rewrite (Hent _ _ _ Hc). simpl. apply IH; assumption.
Qed.

Section Transport.

Variable f : option N -> jsstring -> bool.
Hypothesis f_entity :
  forall pv c l, entity_char c = true -> f pv (c :: l) = false.
Hypothesis f_back :
  forall pv pv' l,
    (line_start pv' = true -> line_start pv = true) ->
    f pv' (escapeHtml l) = true -> f pv l = true.

Lemma nowhere_escape : forall s pv pv',
  (line_start pv' = true -> line_start pv = true) ->
  nowhere f pv s = true -> nowhere f pv' (escapeHtml s) = true.
Proof.
  induction s as [|a t IH]; intros pv pv' Hls H.
  - simpl in *. rewrite andb_true_r in *. apply negb_true_iff.
    apply negb_true_iff in H.
    destruct (f pv' []) eqn:E; [|reflexivity].
    rewrite (@f_back pv pv' [] Hls E) in H. discriminate.
  - simpl in H. apply andb_prop in H as [H1 H2]. apply negb_true_iff in H1.
    rewrite escapeHtml_cons.
    destruct (escape_char_cases a) as [[Ea _] | [Ha (w & Ea & Hw)]].
    + rewrite Ea. cbn [app nowhere]. apply andb_true_intro. split.
      * apply negb_true_iff.
        destruct (f pv' (a :: escapeHtml t)) eqn:E; [|reflexivity].
        assert (E' : f pv' (escapeHtml (a :: t)) = true)
          by (rewrite escapeHtml_cons, Ea; exact E).
        rewrite (@f_back pv pv' (a :: t) Hls E') in H1. discriminate.
      * apply (IH (Some a) (Some a)); auto.
    + rewrite Ea.
      assert (Hlast : forall pv0, nowhere f pv0 (59%N :: escapeHtml t) = true).
      { intros pv0. cbn [nowhere]. rewrite f_entity by reflexivity.
        apply (IH (Some a) (Some 59%N)); [discriminate | exact H2]. }
      change (AMP :: w ++ [59%N]) with ((AMP :: w) ++ [59%N]).
      rewrite <- app_assoc. apply nowhere_app_entity; auto.
      simpl. clear - Hw. induction w as [|c w IHw]; [reflexivity|].
      simpl in *. apply andb_prop in Hw as [Hc Hw'].
      unfold entity_char at 1. rewrite Hc, orb_true_r. simpl.
      apply IHw, Hw'.
Qed.

End Transport.

Lemma entity_facts c :
  entity_char c = true ->
  (c =? BT)%N = false /\ (c =? HASH)%N = false /\ (c =? NL)%N = false
  /\ cls_s c = false /\ cls_bullet c = false /\ cls_d c = false.
Proof. intros H. repeat split; classes. Qed.

Lemma escaped_facts a :
  a = AMP \/ a = NBSP \/ a = LT \/ a = GT ->
  (a =? BT)%N = false /\ (a =? STAR)%N = false.
Proof. intros [-> | [-> | [-> | ->]]]; split; reflexivity. Qed.

(** The escaped text starts with the first character of the text, or with
    the [&] of its entity. *)
Lemma escapeHtml_head a t :
  escapeHtml (a :: t) = a :: escapeHtml t
  \/ (a = AMP \/ a = NBSP \/ a = LT \/ a = GT)
     /\ exists r, escapeHtml (a :: t) = AMP :: r.
Proof.
  rewrite escapeHtml_cons.
  destruct (escape_char_cases a) as [[Ea _] | [Ha (w & Ea & _)]]; rewrite Ea.
  - left. reflexivity.
  - right. split; [exact Ha|]. eexists. reflexivity.
Qed.

Lemma existsb_escape c : forall l,
  entity_char c = false ->
  existsb (N.eqb c) (escapeHtml l) = true -> existsb (N.eqb c) l = true.
Proof.
  intros l Hc. induction l as [|a t IH]; intros H; [discriminate|].
  rewrite escapeHtml_cons, existsb_app in H. simpl.
  apply orb_true_iff in H as [H|H]; [|rewrite (IH H); apply orb_true_r].
  destruct (escape_char_cases a) as [[Ea _] | [Ha (w & Ea & Hw)]];
    rewrite Ea in H.
  - simpl in H. rewrite orb_false_r in H. rewrite H. reflexivity.
  - exfalso. change (AMP :: w ++ [59%N]) with ([AMP] ++ w ++ [59%N]) in H.
    rewrite !existsb_app in H.
    assert (Hw' : existsb (N.eqb c) w = false).
    { clear - Hc Hw. induction w as [|d w IHw]; [reflexivity|].
      simpl in *. apply andb_prop in Hw as [Hd Hw]. rewrite (IHw Hw).
      rewrite orb_false_r. destruct (N.eqb_spec c d) as [->|]; [|reflexivity].
      unfold entity_char in Hc. rewrite Hd in Hc.
      rewrite orb_true_r in Hc. discriminate. }
    rewrite Hw' in H. simpl in H.
    unfold entity_char in Hc. rewrite (N.eqb_sym c AMP), (N.eqb_sym c 59) in H.
    destruct (AMP =? c)%N eqn:E1; [rewrite N.eqb_sym, E1 in Hc; discriminate|].
    destruct (59 =? c)%N eqn:E2;
      [rewrite (N.eqb_sym c 59), E2, orb_true_r in Hc; discriminate|].
    discriminate.
Qed.

Lemma lacks_escape c s :
  entity_char c = false -> lacks c s = true -> lacks c (escapeHtml s) = true.
Proof.
  unfold lacks. intros Hc H. apply negb_true_iff in H. apply negb_true_iff.
  destruct (existsb (N.eqb c) (escapeHtml s)) eqn:E; [|reflexivity].
  rewrite (existsb_escape c s Hc E) in H. discriminate.
Qed.

(** **** Code spans *)

Lemma code_span_entity pv c l :
  entity_char c = true -> code_span_at pv (c :: l) = false.
Proof.
  intros H. destruct (entity_facts c H) as (Hb & _).
  destruct l; simpl; [reflexivity|]. rewrite Hb. reflexivity.
Qed.

Lemma code_span_back pv pv' l :
  (line_start pv' = true -> line_start pv = true) ->
  code_span_at pv' (escapeHtml l) = true -> code_span_at pv l = true.
Proof.
  intros _ H. destruct l as [|a t]; [discriminate|].
  destruct (escapeHtml_head a t) as [Ea | [_ (r & Ea)]]; rewrite Ea in H.
  2:{ rewrite code_span_entity in H by reflexivity. discriminate. }
  destruct t as [|b t']; [discriminate|].
  destruct (escapeHtml (b :: t')) as [|d r] eqn:Et; [discriminate|].
  simpl in H. apply andb_prop in H as [H Hr]. apply andb_prop in H as [Ha Hd].
  apply negb_true_iff in Hd.
  assert (Hb : (b =? BT)%N = false).
  { destruct (escapeHtml_head b t') as [Eb | [Hb _]].
    - rewrite Eb in Et. injection Et as <- _. exact Hd.
    - apply (escaped_facts Hb). }
  assert (Hin : existsb (N.eqb BT) (b :: t') = true).
  { apply existsb_escape; [reflexivity|]. rewrite Et. simpl.
    rewrite Hr. apply orb_true_r. }
  cbn [existsb] in Hin. rewrite (N.eqb_sym BT b), Hb in Hin.
  cbn [orb] in Hin. cbn [code_span_at]. rewrite Ha, Hb, Hin. reflexivity.
Qed.

(** **** Headings *)

Lemma heading_entity pv c l :
  entity_char c = true -> heading_at pv (c :: l) = false.
Proof.
  intros H. destruct (entity_facts c H) as (_ & Hh & _).
  unfold heading_at. rewrite Hh. apply andb_false_r.
Qed.

Lemma heading_back pv pv' l :
  (line_start pv' = true -> line_start pv = true) ->
  heading_at pv' (escapeHtml l) = true -> heading_at pv l = true.
Proof.
  intros Hls H.
  destruct l as [|a t];
    [unfold heading_at in H; simpl in H; rewrite andb_false_r in H;
     discriminate|].
  destruct (escapeHtml_head a t) as [Ea | [_ (r & Ea)]]; rewrite Ea in H.
  2:{ rewrite heading_entity in H by reflexivity. discriminate. }
  unfold heading_at in *. apply andb_prop in H as [H1 H2].
  rewrite (Hls H1), H2. reflexivity.
Qed.

(** **** Paragraph breaks *)

Lemma paragraph_entity pv c l :
  entity_char c = true -> paragraph_at pv (c :: l) = false.
Proof.
  intros H. destruct (entity_facts c H) as (_ & _ & Hn & _).
  destruct l as [|b [|d l]]; simpl; try reflexivity. rewrite Hn. reflexivity.
Qed.

Lemma paragraph_back pv pv' l :
  (line_start pv' = true -> line_start pv = true) ->
  paragraph_at pv' (escapeHtml l) = true -> paragraph_at pv l = true.
Proof.
  intros _ H. destruct l as [|a t]; [discriminate|].
  destruct (escapeHtml_head a t) as [Ea | [_ (r & Ea)]]; rewrite Ea in H.
  2:{ rewrite paragraph_entity in H by reflexivity. discriminate. }
  destruct t as [|b t']; [discriminate|].
  destruct (escapeHtml_head b t') as [Eb | [_ (r & Eb)]]; rewrite Eb in H.
  2:{ simpl in H. destruct r; [discriminate|].
      rewrite andb_false_r in H. discriminate. }
  destruct t' as [|c t'']; [discriminate|].
  cbn [paragraph_at] in H.
  destruct (escapeHtml (c :: t'')); [discriminate|]. exact H.
Qed.

(** **** List markers *)

Lemma bullet_entity pv c l :
  entity_char c = true -> bullet_at pv (c :: l) = false.
Proof.
  intros H. destruct (entity_facts c H) as (_ & _ & _ & Hs & Hb & _).
  unfold bullet_at. cbn [drop_while]. rewrite Hs.
  destruct l; rewrite ?Hb; apply andb_false_r.
Qed.

Lemma bullet_core_back : forall l,
  match drop_while cls_s (escapeHtml l) with
  | c :: d :: _ => cls_bullet c && cls_s d
  | _ => false
  end = true ->
  match drop_while cls_s l with
  | c :: d :: _ => cls_bullet c && cls_s d
  | _ => false
  end = true.
Proof.
  induction l as [|a t IH]; intros H; [discriminate|].
  destruct (escapeHtml_head a t) as [Ea | [_ (r & Ea)]]; rewrite Ea in H.
  2:{ cbn [drop_while] in H. change (cls_s AMP) with false in H.
      destruct r; discriminate. }
  cbn [drop_while] in *. destruct (cls_s a); [exact (IH H)|].
  destruct t as [|b t']; [discriminate|].
  destruct (escapeHtml_head b t') as [Eb | [_ (r & Eb)]]; rewrite Eb in H.
  - exact H.
  - change (cls_s AMP) with false in H. rewrite andb_false_r in H.
    discriminate.
Qed.

Lemma bullet_back pv pv' l :
  (line_start pv' = true -> line_start pv = true) ->
  bullet_at pv' (escapeHtml l) = true -> bullet_at pv l = true.
Proof.
  unfold bullet_at. intros Hls H. apply andb_prop in H as [H1 H2].
  rewrite (Hls H1), (bullet_core_back l H2). reflexivity.
Qed.

Lemma numbering_entity pv c l :
  entity_char c = true -> numbering_at pv (c :: l) = false.
Proof.
  intros H. destruct (entity_facts c H) as (_ & _ & _ & Hs & _ & Hd).
  unfold numbering_at. cbn [drop_while]. rewrite Hs, Hd. apply andb_false_r.
Qed.

Lemma numbering_tail_back : forall l,
  match drop_while cls_d (escapeHtml l) with
  | c :: w :: _ => (c =? DOT)%N && cls_s w
  | _ => false
  end = true ->
  match drop_while cls_d l with
  | c :: w :: _ => (c =? DOT)%N && cls_s w
  | _ => false
  end = true.
Proof.
  induction l as [|a t IH]; intros H; [discriminate|].
  destruct (escapeHtml_head a t) as [Ea | [_ (r & Ea)]]; rewrite Ea in H.
  2:{ cbn [drop_while] in H. change (cls_d AMP) with false in H.
      destruct r; discriminate. }
  cbn [drop_while] in *. destruct (cls_d a); [exact (IH H)|].
  destruct t as [|b t']; [discriminate|].
  destruct (escapeHtml_head b t') as [Eb | [_ (r & Eb)]]; rewrite Eb in H.
  - exact H.
  - change (cls_s AMP) with false in H. rewrite andb_false_r in H.
    discriminate.
Qed.

Lemma numbering_core_back : forall l,
  match drop_while cls_s (escapeHtml l) with
  | d :: t =>
      cls_d d &&
      match drop_while cls_d t with
      | c :: w :: _ => (c =? DOT)%N && cls_s w
      | _ => false
      end
  | [] => false
  end = true ->
  match drop_while cls_s l with
  | d :: t =>
      cls_d d &&
      match drop_while cls_d t with
      | c :: w :: _ => (c =? DOT)%N && cls_s w
      | _ => false
      end
  | [] => false
  end = true.
Proof.
  induction l as [|a t IH]; intros H; [discriminate|].
  destruct (escapeHtml_head a t) as [Ea | [_ (r & Ea)]]; rewrite Ea in H.
  2:{ cbn [drop_while] in H. change (cls_s AMP) with false in H.
      change (cls_d AMP) with false in H. discriminate. }
  cbn [drop_while] in *. destruct (cls_s a); [exact (IH H)|].
  apply andb_prop in H as [H1 H2].
  rewrite H1, (numbering_tail_back t H2). reflexivity.
Qed.

Lemma numbering_back pv pv' l :
  (line_start pv' = true -> line_start pv = true) ->
  numbering_at pv' (escapeHtml l) = true -> numbering_at pv l = true.
Proof.
  unfold numbering_at. intros Hls H. apply andb_prop in H as [H1 H2].
  rewrite (Hls H1), (numbering_core_back l H2). reflexivity.
Qed.

(** **** Text without tokens renders as literal text *)

Lemma lacks_no_span : forall l pv,
  lacks BT l = true -> nowhere code_span_at pv l = true.
Proof.
  induction l as [|a t IH]; intros pv H; [reflexivity|].
  apply lacks_cons in H as [Ha Ht]. cbn [nowhere].
  rewrite (IH _ Ht), andb_true_r.
  destruct t as [|d t']; [reflexivity|]. cbn [code_span_at].
  rewrite (N.eqb_sym a BT), Ha. reflexivity.
Qed.

Lemma markdown_free_weaken s :
  markdown_free s = true -> no_token_but_backticks s = true.
Proof.
  unfold markdown_free, no_token_but_backticks. intros H.
  repeat (apply andb_prop in H as [H ?]).
  rewrite (lacks_no_span s None H). repeat (apply andb_true_intro; split); auto.
Qed.

Lemma render_literal s :
  no_token_but_backticks s = true ->
  nowhere paragraph_at None s = true ->
  advancedMarkdownToHtml (Str s) = literal_text s.
Proof.
  unfold no_token_but_backticks. intros H Hp.
  repeat (apply andb_prop in H as [H ?]).
  rewrite advancedMarkdownToHtml_Str. apply markdown_literal.
  - apply (@nowhere_escape code_span_at code_span_entity code_span_back s None None); auto.
  - apply lacks_escape; [reflexivity | assumption].
  - apply (@nowhere_escape heading_at heading_entity heading_back s None None); auto.
  - apply (@nowhere_escape bullet_at bullet_entity bullet_back s None None); auto.
  - apply (@nowhere_escape numbering_at numbering_entity numbering_back s None None); auto.
  - apply (@nowhere_escape paragraph_at paragraph_entity paragraph_back s None None); auto.
Qed.

(* ================================================================= *)
(** ** Rendering twice *)

Lemma lacks_In c s : lacks c s = true <-> ~ In c s.
Proof.
  unfold lacks. rewrite negb_true_iff. split.
  - intros H Hin. assert (E : existsb (N.eqb c) s = true).
    { apply existsb_exists. exists c. split; [exact Hin | apply N.eqb_refl]. }
    congruence.
  - intros H. destruct (existsb (N.eqb c) s) eqn:E; [|reflexivity].
    apply existsb_exists in E as (x & Hin & Hx). apply N.eqb_eq in Hx.
    subst. contradiction.
Qed.

Lemma In_drop_while {A} (f : A -> bool) x l : In x (drop_while f l) -> In x l.
Proof.
  induction l as [|a l IH]; simpl; [auto|].
  destruct (f a); [auto | intros H; exact H].
Qed.

Lemma lacks_trim c s : lacks c s = true -> lacks c (js_trim s) = true.
Proof.
  rewrite !lacks_In. intros H Hin. apply H. unfold js_trim, trim in Hin.
  apply in_rev, In_drop_while, in_rev, In_drop_while in Hin. exact Hin.
Qed.

Lemma escapeHtml_id : forall s,
  lacks AMP s = true -> lacks NBSP s = true ->
  lacks LT s = true -> lacks GT s = true -> escapeHtml s = s.
Proof.
  induction s as [|a t IH]; intros H1 H2 H3 H4; [reflexivity|].
  apply lacks_cons in H1 as [A1 H1], H2 as [A2 H2], H3 as [A3 H3],
    H4 as [A4 H4].
  rewrite escapeHtml_cons, (IH H1 H2 H3 H4). unfold escape_char.
  rewrite (N.eqb_sym a AMP), A1, (N.eqb_sym a NBSP), A2, (N.eqb_sym a LT), A3,
    (N.eqb_sym a GT), A4.
  reflexivity.
Qed.

Lemma line_breaks_id : forall s, lacks NL s = true -> line_breaks s = s.
Proof.
  induction s as [|a t IH]; intros H; [reflexivity|].
  apply lacks_cons in H as [Ha H]. unfold line_breaks in *. cbn [flat_map].
  rewrite (IH H), (N.eqb_sym a NL), Ha. reflexivity.
Qed.

Lemma lacks_no_paragraph : forall l pv,
  lacks NL l = true -> nowhere paragraph_at pv l = true.
Proof.
  induction l as [|a t IH]; intros pv H; [reflexivity|].
  apply lacks_cons in H as [Ha Ht]. cbn [nowhere].
  rewrite (IH _ Ht), andb_true_r.
  destruct t as [|b [|d t']]; try reflexivity. cbn [paragraph_at].
  rewrite (N.eqb_sym a NL), Ha. reflexivity.
Qed.

(** *** Tokens of the trimmed text *)

Lemma drop_while_split {A} (f : A -> bool) (l : list A) :
  exists pre, l = pre ++ drop_while f l.
Proof.
  induction l as [|a l [pre IH]]; [exists []; reflexivity|].
  simpl. destruct (f a).
  - exists (a :: pre). simpl. rewrite <- IH. reflexivity.
  - exists []. reflexivity.
Qed.

Lemma trim_split (s : jsstring) :
  exists tail, drop_while cls_s s = js_trim s ++ tail.
Proof.
  unfold js_trim, trim.
  change (fun a : N => cls_s ((fun c : N => c) a)) with cls_s.
  change (fun a : N => cls_s a) with cls_s.
  destruct (drop_while_split cls_s (rev (drop_while cls_s s))) as [pre E].
  exists (rev pre). rewrite <- rev_app_distr, <- E, rev_involutive.
  reflexivity.
Qed.

Lemma drop_while_idem {A} (f : A -> bool) (l : list A) :
  drop_while f (drop_while f l) = drop_while f l.
Proof.
  apply drop_while_stable. destruct (drop_while f l) eqn:E; [exact I|].
  exact (drop_while_head f l E).
Qed.

Lemma drop_while_app {A} (f : A -> bool) (x y : list A) c r :
  drop_while f x = c :: r -> drop_while f (x ++ y) = c :: r ++ y.
Proof.
  induction x as [|a x IH]; simpl; [discriminate|].
  destruct (f a); [exact IH|]. intros H. injection H as <- <-. reflexivity.
Qed.

Section Trimmed.

Variable f : option N -> jsstring -> bool.
(** A token stays a token when more text follows. *)
Hypothesis f_more : forall pv x y, f pv x = true -> f pv (x ++ y) = true.

Lemma nowhere_prefix : forall x pv y,
  nowhere f pv (x ++ y) = true -> nowhere f pv x = true.
Proof.
  induction x as [|a x IH]; intros pv y H.
  - simpl. rewrite andb_true_r. apply negb_true_iff.
    destruct (f pv []) eqn:E; [|reflexivity].
    apply (@f_more pv [] y) in E. simpl in E.
    destruct y; simpl in H; apply andb_prop in H as [H _];
      rewrite E in H; discriminate.
  - cbn [app nowhere] in *. apply andb_prop in H as [H1 H2].
    rewrite (IH _ _ H2), andb_true_r. apply negb_true_iff.
    apply negb_true_iff in H1.
    destruct (f pv (a :: x)) eqn:E; [|reflexivity].
    apply (@f_more pv (a :: x) y) in E. simpl in E. congruence.
Qed.

Lemma nowhere_drop_while : forall s pv,
  nowhere f pv s = true ->
  f None (drop_while cls_s s) = false ->
  nowhere f None (drop_while cls_s s) = true.
Proof.
  induction s as [|a t IH]; intros pv H H0.
  - simpl in *. rewrite H0. reflexivity.
  - cbn [drop_while] in *. cbn [nowhere] in H. apply andb_prop in H as [_ H].
    destruct (cls_s a); [exact (IH _ H H0)|].
    cbn [nowhere]. rewrite H0, H. reflexivity.
Qed.

Lemma nowhere_trim s :
  nowhere f None s = true ->
  f None (drop_while cls_s s) = false ->
  nowhere f None (js_trim s) = true.
Proof.
  intros H H0. destruct (trim_split s) as [tail E].
  apply (nowhere_prefix (js_trim s) None tail). rewrite <- E.
  apply (nowhere_drop_while s None H H0).
Qed.

End Trimmed.

Lemma heading_more pv x y :
  heading_at pv x = true -> heading_at pv (x ++ y) = true.
Proof.
  unfold heading_at. destruct x as [|c x]; [rewrite andb_false_r; discriminate|].
  auto.
Qed.

Lemma bullet_more pv x y :
  bullet_at pv x = true -> bullet_at pv (x ++ y) = true.
Proof.
  unfold bullet_at. intros H. apply andb_prop in H as [H1 H2]. rewrite H1.
  destruct (drop_while cls_s x) as [|c [|d r]] eqn:E; try discriminate.
  rewrite (drop_while_app cls_s x y E). exact H2.
Qed.

Lemma numbering_more pv x y :
  numbering_at pv x = true -> numbering_at pv (x ++ y) = true.
Proof.
  unfold numbering_at. intros H. apply andb_prop in H as [H1 H2]. rewrite H1.
  destruct (drop_while cls_s x) as [|d t] eqn:E; [discriminate|].
  rewrite (drop_while_app cls_s x y E).
  apply andb_prop in H2 as [H2 H3]. rewrite H2.
  destruct (drop_while cls_d t) as [|c [|w r]] eqn:E'; try discriminate.
  rewrite (drop_while_app cls_d t y E'). exact H3.
Qed.

Lemma nowhere_here f pv l : nowhere f pv l = true -> f pv l = false.
Proof.
  destruct l; simpl; intros H; apply andb_prop in H as [H _];
    apply negb_true_iff in H; exact H.
Qed.

Lemma bullet_trimmed s :
  nowhere bullet_at None s = true ->
  bullet_at None (drop_while cls_s s) = false.
Proof.
  intros H. apply nowhere_here in H. unfold bullet_at in *.
  rewrite drop_while_idem. exact H.
Qed.

Lemma numbering_trimmed s :
  nowhere numbering_at None s = true ->
  numbering_at None (drop_while cls_s s) = false.
Proof.
  intros H. apply nowhere_here in H. unfold numbering_at in *.
  rewrite drop_while_idem. exact H.
Qed.

Lemma markdown_free_trim s :
  markdown_free s = true -> starts_with_hash s = false ->
  markdown_free (js_trim s) = true.
Proof.
  unfold markdown_free, starts_with_hash. intros H Hh.
  repeat (apply andb_prop in H as [H ?]).
  repeat (apply andb_true_intro; split).
  - apply lacks_trim; assumption.
  - apply lacks_trim; assumption.
  - apply (@nowhere_trim heading_at heading_more); assumption.
  - apply (@nowhere_trim bullet_at bullet_more);
      [assumption | apply bullet_trimmed; assumption].
  - apply (@nowhere_trim numbering_at numbering_more);
      [assumption | apply numbering_trimmed; assumption].
Qed.

Lemma literal_text_plain s :
  needs_no_escaping s = true -> lacks NL s = true ->
  literal_text s = js_trim s.
Proof.
  unfold needs_no_escaping, literal_text. intros H Hn.
  repeat (apply andb_prop in H as [H ?]).
  rewrite escapeHtml_id by assumption. rewrite line_breaks_id by assumption.
  reflexivity.
Qed.

Lemma needs_no_escaping_trim s :
  needs_no_escaping s = true -> needs_no_escaping (js_trim s) = true.
Proof.
  unfold needs_no_escaping. intros H.
  repeat (apply andb_prop in H as [H ?]).
  repeat (apply andb_true_intro; split); apply lacks_trim; assumption.
Qed.

(* ================================================================= *)
(** ** The renderer on text without tokens *)

(** C3, as stated, fails: a text without any markdown token that holds a
    blank line gets a [<p>] element around what follows the blank line. *)
Lemma blank_line_gets_paragraph :
  markdown_free (str "a" ++ [NL; NL] ++ str "b") = true
  /\ advancedMarkdownToHtml (Str (str "a" ++ [NL; NL] ++ str "b"))
     = str "a<br><br><p>b</p>"
  /\ advancedMarkdownToHtml (Str (str "a" ++ [NL; NL] ++ str "b"))
     <> js_trim (line_breaks (escapeHtml (str "a" ++ [NL; NL] ++ str "b"))).
Proof.
  split; [reflexivity|]. split; [vm_compute; reflexivity|].
  vm_compute. discriminate.
Qed.

(** C3, amended: for every text without markdown tokens (no backtick, no
    asterisk, no line that begins with [#], with an unordered-list marker
    or with ordered-list numbering) and without a blank line followed by
    more text, the renderer gives the escaped text with each newline
    replaced by [<br>], trimmed; no other tag is introduced. *)
Theorem plain_text_renders_literally (s : jsstring) :
  markdown_free s = true ->
  nowhere paragraph_at None s = true ->
  advancedMarkdownToHtml (Str s) = js_trim (line_breaks (escapeHtml s)).
Proof.
  intros H Hp. apply render_literal; [apply markdown_free_weaken, H | exact Hp].
Qed.

Lemma plain_text_renders_literally_witness :
  advancedMarkdownToHtml
    (Str (str " if x < 3 & y > 4" ++ [NL] ++ str "then stop. "))
  = js_trim (line_breaks
               (escapeHtml (str " if x < 3 & y > 4" ++ [NL]
                              ++ str "then stop. "))).
Proof.
  apply (plain_text_renders_literally
           (str " if x < 3 & y > 4" ++ [NL] ++ str "then stop. "));
    reflexivity.
Defined.




(** C7, as stated, fails: the escaping step escapes the entities it has
    just produced; rendering [&] gives [&amp;], and rendering that gives
    [&amp;amp;]. *)
Lemma entity_is_escaped_again :
  advancedMarkdownToHtml (Str (str "&")) = str "&amp;"
  /\ advancedMarkdownToHtml (Str (advancedMarkdownToHtml (Str (str "&"))))
     = str "&amp;amp;"
  /\ advancedMarkdownToHtml (Str (advancedMarkdownToHtml (Str (str "&"))))
     <> advancedMarkdownToHtml (Str (str "&")).
Proof.
  split; [vm_compute; reflexivity|]. split; [vm_compute; reflexivity|].
  vm_compute. discriminate.
Qed.

(** C7, amended: on a text without markdown tokens that holds none of the
    characters the escaping step rewrites ([&], [<], [>], U+00A0) and no
    newline, and whose first character other than white space is not [#],
    rendering the output again changes nothing. *)
Theorem render_twice (s : jsstring) :
  markdown_free s = true ->
  needs_no_escaping s = true ->
  lacks NL s = true ->
  starts_with_hash s = false ->
  advancedMarkdownToHtml (Str (advancedMarkdownToHtml (Str s)))
  = advancedMarkdownToHtml (Str s).
Proof.
  intros Hm He Hn Hh.
  assert (R1 : advancedMarkdownToHtml (Str s) = js_trim s).
  { rewrite render_literal;
      [apply literal_text_plain; assumption
      | apply markdown_free_weaken, Hm
      | apply lacks_no_paragraph, Hn]. }
  rewrite R1.
  rewrite render_literal;
    [ | apply markdown_free_weaken, markdown_free_trim; assumption
      | apply lacks_no_paragraph, lacks_trim, Hn].
  rewrite literal_text_plain;
    [ | apply needs_no_escaping_trim, He | apply lacks_trim, Hn].
  apply trim_idempotent.
Qed.

Lemma render_twice_witness :
  advancedMarkdownToHtml
    (Str (advancedMarkdownToHtml (Str (str "  the answer is x = 4  "))))
  = advancedMarkdownToHtml (Str (str "  the answer is x = 4  ")).
Proof.
  apply (render_twice (str "  the answer is x = 4  ")); reflexivity.
Defined.

(** ** Edge cases *)

(** A line break of the first pass is escaped by the second. *)
Example line_break_is_escaped_again :
  advancedMarkdownToHtml (Str (str "a" ++ [NL] ++ str "b")) = str "a<br>b"
  /\ advancedMarkdownToHtml
       (Str (advancedMarkdownToHtml (Str (str "a" ++ [NL] ++ str "b"))))
     = str "a&lt;br&gt;b".
Proof. split; vm_compute; reflexivity. Qed.

(** An indented [#] is no heading, but the trimmed output begins with it. *)
Example trimmed_hash_becomes_heading :
  markdown_free (str " # x") = true
  /\ advancedMarkdownToHtml (Str (str " # x")) = str "# x"
  /\ advancedMarkdownToHtml (Str (str "# x")) = str "<h1>x</h1>".
Proof. repeat split; vm_compute; reflexivity. Qed.

(** An indented list marker makes a list item. *)
Example indented_bullet_is_a_list :
  nowhere bullet_at None (str "  - x") = false
  /\ advancedMarkdownToHtml (Str (str "  - x"))
     = str "<ul><ol><li>x</li></ul>".
Proof. split; vm_compute; reflexivity. Qed.

(** An opening fence that is never closed stays as it is. *)
Example unterminated_fence_is_literal :
  advancedMarkdownToHtml (Str (str "```python" ++ [NL] ++ str "print(1)"))
  = str "```python<br>print(1)".
Proof. vm_compute. reflexivity. Qed.

(** The empty text after a blank line is no paragraph. *)
Example trailing_blank_line_is_literal :
  nowhere paragraph_at None (str "a" ++ [NL; NL]) = true
  /\ advancedMarkdownToHtml (Str (str "a" ++ [NL; NL])) = str "a<br><br>".
Proof. split; vm_compute; reflexivity. Qed.

(* ================================================================= *)
(** * More of the client *)

(** ** One submission, from click to reply *)

Lemma nonempty_trim_nil : nonempty (js_trim []) = false.
Proof. reflexivity. Qed.

Lemma tail_fields st :
  messageInput (handleSubmit_tail st) = []
  /\ selectedImage (handleSubmit_tail st) = None
  /\ submitDisabled (handleSubmit_tail st) = true
  /\ loadingHidden (handleSubmit_tail st) = loadingHidden st
  /\ loadingText (handleSubmit_tail st) = loadingText st
  /\ toasts (handleSubmit_tail st) = toasts st.
Proof.
  unfold handleSubmit_tail. cbn [selectedImage set_messageInput].
  destruct (selectedImage st) eqn:E; simpl; rewrite ?E; repeat split.
Qed.

Lemma catch_fields msg st :
  messageInput (makeApiCall_catch msg st) = []
  /\ selectedImage (makeApiCall_catch msg st) = None
  /\ submitDisabled (makeApiCall_catch msg st) = true
  /\ loadingHidden (makeApiCall_catch msg st) = true.
Proof.
  unfold makeApiCall_catch.
  cbn [selectedImage set_messageInput showError hideLoading validateInput].
  destruct (selectedImage st) eqn:E; simpl; rewrite ?E; repeat split.
Qed.

Lemma then_loadingHidden fo st : loadingHidden (makeApiCall_then fo st) = true.
Proof.
  destruct fo as [msg | ok status text data]; unfold makeApiCall_then.
  - apply catch_fields.
  - destruct ok; cbn [negb]; [|apply catch_fields].
    destruct (truthy (error data)); reflexivity.
Qed.

Lemma then_cleared fo st :
  messageInput st = [] -> selectedImage st = None ->
  messageInput (makeApiCall_then fo st) = []
  /\ selectedImage (makeApiCall_then fo st) = None
  /\ submitDisabled (makeApiCall_then fo st) = true.
Proof.
  intros Hm Hi.
  destruct fo as [msg | ok status text data]; unfold makeApiCall_then.
  - destruct (catch_fields msg st) as (H1 & H2 & H3 & _). auto.
  - destruct ok; cbn [negb].
    + destruct (truthy (error data)); simpl; rewrite Hm, Hi; auto.
    + match goal with
      | |- context [makeApiCall_catch ?m st] =>
          destruct (catch_fields m st) as (H1 & H2 & H3 & _)
      end.
      auto.
Qed.

(** The text of the toast a reply that is no confirmed success leaves. *)
Lemma toasts_then fo st :
  match confirmed_success fo with
  | Some _ => toasts (makeApiCall_then fo st) = toasts st
  | None => exists msg, nonempty msg = true
                        /\ toasts (makeApiCall_then fo st) = toasts st ++ [msg]
  end.
Proof.
  assert (Hc : forall m, exists msg,
             nonempty msg = true
             /\ toasts (makeApiCall_catch m st) = toasts st ++ [msg]).
  { intros m. rewrite toasts_catch. eexists. split; [|reflexivity].
    destruct (nonempty m) eqn:E; [exact E | reflexivity]. }
  destruct fo as [msg | ok status text data];
    unfold makeApiCall_then, confirmed_success.
  - apply Hc.
  - destruct ok; cbn [negb]; [|apply Hc].
    destruct (truthy (error data)) eqn:E; [|reflexivity].
    eexists. split; [|reflexivity].
    destruct (error data) as [[|c e]|]; try discriminate. reflexivity.
Qed.

Lemma addUserMessage_fields text st :
  messageInput (addUserMessage text st) = messageInput st
  /\ selectedImage (addUserMessage text st) = selectedImage st
  /\ toasts (addUserMessage text st) = toasts st.
Proof.
  unfold addUserMessage. destruct (negb (nonempty (js_trim text))); auto.
Qed.

(** What [handleSubmit] is, case by case. *)
Lemma handleSubmit_cases st :
  let text := js_trim (messageInput st) in
  let st1 := showLoading (str "Thinking...") (addUserMessage text st) in
  let req := Request (if nonempty text then Some text else None) None in
  match selectedImage st with
  | Some f =>
      handleSubmit st
      = Read (handleSubmit_tail st1) f
          (fun o st' =>
             match o with
             | Loaded result =>
                 makeApiCall (Request (text_problem req) (split_comma_1 result))
                   st'
             | ReadFailed =>
                 Ret (hideLoading
                        (showError
                           (str "Failed to read the selected image file.") st'))
             end)
  | None =>
      if nonempty text then
        handleSubmit st
        = Fetch st1 req
            (fun o st' => Ret (handleSubmit_tail (makeApiCall_then o st')))
      else
        handleSubmit st
        = Ret (showError (str "Please enter a message or upload an image.") st)
  end.
Proof.
  intros text st1 req. unfold handleSubmit. fold text.
  assert (Hs : selectedImage st1 = selectedImage st).
  { unfold st1, addUserMessage.
    destruct (negb (nonempty (js_trim text))); reflexivity. }
  destruct (selectedImage st) as [f|] eqn:Hi.
  - rewrite andb_false_r. fold st1. rewrite Hs. reflexivity.
  - destruct (nonempty text) eqn:Ht; cbn [negb andb]; [|reflexivity].
    fold st1. rewrite Hs. reflexivity.
Qed.

(** X1: a submission makes at most one call to [/api/solve]: exactly one
    when it is accepted and the image, if there is one, could be read, and
    none otherwise. *)
Theorem one_call_per_submission (st : dom) (ro : read_outcome)
    (fo : fetch_outcome) :
  network_calls (handleSubmit st) ro fo
  = if accepted st && image_read st ro then 1 else 0.
Proof.
  pose proof (handleSubmit_cases st) as H. cbv zeta in H.
  unfold accepted, image_read, has_image.
  destruct (selectedImage st) as [f|].
  - rewrite H, orb_true_r. destruct ro; reflexivity.
  - destruct (nonempty (js_trim (messageInput st))); rewrite H; reflexivity.
Qed.

Lemma then_form fo p :
  if call_failed fo then form_reset (makeApiCall_then fo p)
  else form_as p (makeApiCall_then fo p).
Proof.
  destruct fo as [msg | ok status text data]; cbn [call_failed].
  - destruct (catch_fields msg p) as (H1 & H2 & H3 & _).
    repeat split; assumption.
  - destruct ok; cbn [negb call_failed makeApiCall_then].
    + unfold form_as, has_image.
      destruct (truthy (error data)); repeat split.
    + match goal with
      | |- context [makeApiCall_catch ?m p] =>
          destruct (catch_fields m p) as (H1 & H2 & H3 & _)
      end.
      repeat split; assumption.
Qed.



(** X3: what an accepted submission leaves of the form.  The loading
    indicator is hidden at the end, whatever the reader and the network
    answered and whatever happened to the page during the waits.  Without
    an image the form is reset at the end, whatever the page held when the
    answer arrived: the message box is empty, no image is selected and the
    submit button is disabled.  With an image the form is reset before the
    first wait and not again, unless the call fails: after a failed read
    and after a reply with a 2xx status the message box and the selection
    are left as the page has them then, with the button as [validateInput]
    sets it; after a call that throws or a reply with another status the
    form is reset.  So when nothing touches the page during the waits,
    every accepted submission ends with the form reset and the indicator
    hidden. *)
Theorem form_reset_after_submission (st : dom) :
  accepted st = true ->
  (forall ro fo,
     form_reset (run (handleSubmit st) ro fo)
     /\ loadingHidden (run (handleSubmit st) ro fo) = true)
  /\ (forall pages ro fo,
        loadingHidden (run_on pages (handleSubmit st) ro fo) = true)
  /\ match selectedImage st with
     | None =>
         forall pages ro fo, form_reset (run_on pages (handleSubmit st) ro fo)
     | Some _ =>
         (exists w, waiting (handleSubmit st) = Some w
                    /\ messageInput w = [] /\ selectedImage w = None)
         /\ (forall p ps fo,
               form_as p (run_on (p :: ps) (handleSubmit st) ReadFailed fo))
         /\ (forall p1 p2 ps result fo,
               if call_failed fo
               then form_reset (run_on (p1 :: p2 :: ps) (handleSubmit st)
                                  (Loaded result) fo)
               else form_as p2 (run_on (p1 :: p2 :: ps) (handleSubmit st)
                                  (Loaded result) fo))
     end.
Proof.
  intros Ha. pose proof (handleSubmit_cases st) as H. cbv zeta in H.
  unfold accepted, has_image in Ha.
  destruct (selectedImage st) as [f|].
  - rewrite H.
    match goal with
    | |- context [handleSubmit_tail ?s] =>
        destruct (tail_fields s) as (T1 & T2 & T3 & _);
        set (w := handleSubmit_tail s) in *
    end.
    split; [|split; [|split; [|split]]].
    + intros ro fo. cbn [run].
      destruct ro as [result|]; cbn [run makeApiCall].
      * destruct (then_cleared fo w T1 T2) as (H1 & H2 & H3).
        split; [repeat split; assumption | apply then_loadingHidden].
      * unfold form_reset.
        cbn [hideLoading showError validateInput messageInput selectedImage
               loadingHidden submitDisabled].
        rewrite T1, T2. auto.
    + intros pages ro fo.
      destruct ro as [result|], pages as [|p1 [|p2 ps]];
        cbn [run_on makeApiCall]; try apply then_loadingHidden; reflexivity.
    + exists w. auto.
    + intros p ps fo. cbn [run_on]. unfold form_as, has_image.
      repeat split.
    + intros p1 p2 ps result fo. cbn [run_on makeApiCall].
      apply then_form.
  - rewrite orb_false_r in Ha. rewrite Ha in H. rewrite H.
    split; [|split].
    + intros ro fo. cbn [run].
      match goal with
      | |- context [handleSubmit_tail ?s] =>
          destruct (tail_fields s) as (T1 & T2 & T3 & T4 & _)
      end.
      rewrite T4, then_loadingHidden. repeat split; assumption.
    + intros pages ro fo. destruct pages as [|p ps]; cbn [run_on];
        match goal with
        | |- context [handleSubmit_tail ?s] =>
            destruct (tail_fields s) as (_ & _ & _ & T4 & _)
        end;
        rewrite T4; apply then_loadingHidden.
    + intros pages ro fo. destruct pages as [|p ps]; cbn [run_on];
        match goal with
        | |- context [handleSubmit_tail ?s] =>
            destruct (tail_fields s) as (T1 & T2 & T3 & _)
        end;
        repeat split; assumption.
Qed.

Lemma form_reset_after_submission_witness :
  (forall ro fo,
     form_reset (run (handleSubmit image_only_page) ro fo)
     /\ loadingHidden (run (handleSubmit image_only_page) ro fo) = true)
  /\ (forall pages ro fo,
        loadingHidden (run_on pages (handleSubmit image_only_page) ro fo)
        = true)
  /\ match selectedImage image_only_page with
     | None =>
         forall pages ro fo,
           form_reset (run_on pages (handleSubmit image_only_page) ro fo)
     | Some _ =>
         (exists w, waiting (handleSubmit image_only_page) = Some w
                    /\ messageInput w = [] /\ selectedImage w = None)
         /\ (forall p ps fo,
               form_as p (run_on (p :: ps) (handleSubmit image_only_page)
                            ReadFailed fo))
         /\ (forall p1 p2 ps result fo,
               if call_failed fo
               then form_reset (run_on (p1 :: p2 :: ps)
                                  (handleSubmit image_only_page)
                                  (Loaded result) fo)
               else form_as p2 (run_on (p1 :: p2 :: ps)
                                  (handleSubmit image_only_page)
                                  (Loaded result) fo))
     end.
Proof. apply (form_reset_after_submission image_only_page). reflexivity. Defined.

(** A page typed into while the image of a submission was read and sent
    ends with what was typed in the box and the button enabled. *)
Example typed_during_the_wait :
  let r := run_on [typed_page; typed_page] (handleSubmit image_only_page)
             (Loaded (str "data:image/png;base64,AAAA"))
             (Parsed true 200 (str "OK")
                (Reply None None None (Some (str "x = 4")) None None None)) in
  messageInput r = str " 2x + 5 = 13 " /\ submitDisabled r = false.
Proof. split; reflexivity. Qed.

(** X4: an accepted submission ends in exactly one of two ways: the
    assistant message is appended and no toast is shown, or nothing is
    appended and exactly one toast, never an empty one, is shown. *)
Theorem reply_or_toast (st : dom) :
  accepted st = true ->
  exists w,
    waiting (handleSubmit st) = Some w
    /\ toasts w = toasts st
    /\ forall ro fo,
         (exists data,
            chatHistory (run (handleSubmit st) ro fo)
            = chatHistory w ++ [botElement data]
            /\ toasts (run (handleSubmit st) ro fo) = toasts st)
         \/ (exists msg,
               nonempty msg = true
               /\ chatHistory (run (handleSubmit st) ro fo) = chatHistory w
               /\ toasts (run (handleSubmit st) ro fo) = toasts st ++ [msg]).
Proof.
  intros Ha. pose proof (handleSubmit_cases st) as H. cbv zeta in H.
  unfold accepted, has_image in Ha.
  set (text := js_trim (messageInput st)) in *.
  destruct (addUserMessage_fields text st) as (_ & _ & Hu).
  assert (Hthen : forall w, toasts w = toasts st -> forall fo,
             (exists data,
                chatHistory (makeApiCall_then fo w)
                = chatHistory w ++ [botElement data]
                /\ toasts (makeApiCall_then fo w) = toasts st)
             \/ (exists msg,
                   nonempty msg = true
                   /\ chatHistory (makeApiCall_then fo w) = chatHistory w
                   /\ toasts (makeApiCall_then fo w) = toasts st ++ [msg])).
  { intros w Hw fo. pose proof (toasts_then fo w) as Ht.
    pose proof (chatHistory_then fo w) as Hc.
    destruct (confirmed_success fo) as [data|].
    - left. exists data. rewrite Hc, Ht. auto.
    - right. destruct Ht as (msg & Hn & Ht). exists msg.
      rewrite Hc, app_nil_r, Ht, Hw. auto. }
  destruct (selectedImage st) as [f|].
  - rewrite H. eexists. split; [reflexivity|].
    match goal with
    | |- context [handleSubmit_tail ?s] =>
        destruct (tail_fields s) as (_ & _ & _ & _ & _ & T6);
        set (w := handleSubmit_tail s) in *
    end.
    assert (Hw : toasts w = toasts st) by (rewrite T6; exact Hu).
    split; [exact Hw|]. intros ro fo.
    destruct ro as [result|]; cbn [run makeApiCall].
    + apply Hthen, Hw.
    + right. exists (str "Failed to read the selected image file.").
      split; [reflexivity|]. split; [reflexivity|].
      cbn [hideLoading showError validateInput toasts]. rewrite Hw.
      reflexivity.
  - rewrite orb_false_r in Ha. rewrite Ha in H. rewrite H.
    eexists. split; [reflexivity|]. split; [exact Hu|].
    intros ro fo. cbn [run].
    match goal with
    | |- context [handleSubmit_tail ?s] =>
        destruct (tail_fields s) as (_ & _ & _ & _ & _ & T6);
        rewrite (chatHistory_tail s), T6
    end.
    apply Hthen. exact Hu.
Qed.

Lemma reply_or_toast_witness :
  exists w,
    waiting (handleSubmit typed_page) = Some w
    /\ toasts w = toasts typed_page
    /\ forall ro fo,
         (exists data,
            chatHistory (run (handleSubmit typed_page) ro fo)
            = chatHistory w ++ [botElement data]
            /\ toasts (run (handleSubmit typed_page) ro fo)
               = toasts typed_page)
         \/ (exists msg,
               nonempty msg = true
               /\ chatHistory (run (handleSubmit typed_page) ro fo)
                  = chatHistory w
               /\ toasts (run (handleSubmit typed_page) ro fo)
                  = toasts typed_page ++ [msg]).
Proof. apply (reply_or_toast typed_page). reflexivity. Defined.

(** ** What is sent *)

Lemma upto_comma_all s : lacks 44 s = true -> upto_comma s = s.
Proof.
  induction s as [|c s IH]; intros H; [reflexivity|].
  apply lacks_cons in H as [Hc H]. simpl.
  rewrite (N.eqb_sym c 44), Hc, (IH H). reflexivity.
Qed.

Lemma split_comma_1_payload header payload :
  lacks 44 header = true -> lacks 44 payload = true ->
  split_comma_1 (header ++ 44%N :: payload) = Some payload.
Proof.
  intros Hh Hp. induction header as [|c h IH]; simpl.
  - rewrite upto_comma_all by exact Hp. reflexivity.
  - apply lacks_cons in Hh as [Hc Hh].
    rewrite (N.eqb_sym c 44), Hc. apply IH, Hh.
Qed.

(** X5: with an image attached, the request carries the trimmed text (null
    when it is empty) and, as image data, what follows the first comma of
    the data URL the reader produced: the header is cut off and a payload
    without commas arrives whole. *)
Theorem request_carries_payload (st : dom) (header payload : jsstring) :
  has_image st = true ->
  lacks 44 header = true ->
  lacks 44 payload = true ->
  first_request (handleSubmit st) (Loaded (header ++ 44%N :: payload))
  = Some (Request
            (if nonempty (js_trim (messageInput st))
             then Some (js_trim (messageInput st)) else None)
            (Some payload)).
Proof.
  intros Hi Hh Hp. pose proof (handleSubmit_cases st) as H. cbv zeta in H.
  unfold has_image in Hi. destruct (selectedImage st) as [f|]; [|discriminate].
  rewrite H. cbn [first_request makeApiCall text_problem].
  rewrite split_comma_1_payload by assumption. reflexivity.
Qed.

Lemma request_carries_payload_witness :
  first_request (handleSubmit image_only_page)
    (Loaded (str "data:image/png;base64" ++ 44%N :: str "iVBORw0KGgo="))
  = Some (Request
            (if nonempty (js_trim (messageInput image_only_page))
             then Some (js_trim (messageInput image_only_page)) else None)
            (Some (str "iVBORw0KGgo="))).
Proof.
  apply (request_carries_payload image_only_page
           (str "data:image/png;base64") (str "iVBORw0KGgo="));
    reflexivity.
Defined.

(** ** Escaping *)

(** X6: escaping loses nothing: two texts with the same escaped form are
    the same text. *)
Theorem escapeHtml_injective : forall s1 s2,
  escapeHtml s1 = escapeHtml s2 -> s1 = s2.
Proof.
  induction s1 as [|a t IH]; intros s2 E.
  - destruct s2 as [|b u]; [reflexivity|].
    destruct (escapeHtml_head b u) as [Eb | [_ (r & Eb)]];
      rewrite Eb in E; discriminate.
  - destruct s2 as [|b u].
    { destruct (escapeHtml_head a t) as [Ea | [_ (r & Ea)]];
        rewrite Ea in E; discriminate. }
    rewrite !escapeHtml_cons in E.
    destruct (escape_char_cases a) as [(Ea & Na & _) | (Ha & _)];
      destruct (escape_char_cases b) as [(Eb & Nb & _) | (Hb & wb & Eb & _)].
    + rewrite Ea, Eb in E. injection E as -> E. f_equal. apply IH, E.
    + rewrite Ea, Eb in E. injection E as -> _. discriminate Na.
    + destruct (escape_char_cases a)
        as [(_ & N1 & N2 & N3 & N4) | (_ & wa & Ea & _)];
        [destruct Ha as [-> | [-> | [-> | ->]]];
         first [discriminate N1 | discriminate N2 | discriminate N3
               | discriminate N4]|].
      rewrite Ea, Eb in E. injection E as <- _. discriminate Nb.
    + destruct Ha as [-> | [-> | [-> | ->]]];
        destruct Hb as [-> | [-> | [-> | ->]]];
        try discriminate E; injection E as E; f_equal; apply IH, E.
Qed.

Lemma escapeHtml_injective_witness : str "R&D <b>" = str "R&D <b>".
Proof.
  apply (escapeHtml_injective (str "R&D <b>") (str "R&D <b>")). reflexivity.
Defined.


(** X7: the bubble [addUserMessage] appends holds the message as text: its
    HTML is the wrapper [div] around a text that has no [<] and no [>],
    whatever the message is. *)
Theorem user_bubble_is_text (message : jsstring) (st : dom) :
  nonempty (js_trim message) = true ->
  exists body,
    chatHistory (addUserMessage message st)
    = chatHistory st
      ++ [Element "message user-message"
            (tpl "<div class='message-content'>" ++ body ++ tpl "</div>")]
    /\ Forall (fun c => c <> LT /\ c <> GT) body
    /\ (forall message', escapeHtml message' = body -> message' = message).
Proof.
  intros H. exists (escapeHtml message). unfold addUserMessage. rewrite H.
  split; [reflexivity|]. split; [apply escapeHtml_no_angle|].
  intros m' E. apply escapeHtml_injective, E.
Qed.

Lemma user_bubble_is_text_witness :
  exists body,
    chatHistory (addUserMessage (str "<img src=x onerror=alert(1)>") dom0)
    = chatHistory dom0
      ++ [Element "message user-message"
            (tpl "<div class='message-content'>" ++ body ++ tpl "</div>")]
    /\ Forall (fun c => c <> LT /\ c <> GT) body
    /\ (forall message',
          escapeHtml message' = body ->
          message' = str "<img src=x onerror=alert(1)>").
Proof.
  apply (user_bubble_is_text (str "<img src=x onerror=alert(1)>") dom0).
  reflexivity.
Defined.

(** ** The assistant bubble *)



(** ** The submit button *)

Lemma nonempty_drop_while s :
  nonempty (drop_while cls_s s) = existsb (fun c => negb (cls_s c)) s.
Proof.
  induction s as [|a s IH]; [reflexivity|]. simpl.
  destruct (cls_s a); [exact IH | reflexivity].
Qed.

Lemma nonempty_trim s :
  nonempty (js_trim s) = existsb (fun c => negb (cls_s c)) s.
Proof.
  rewrite <- nonempty_drop_while. unfold js_trim, trim.
  change (fun a : N => cls_s ((fun c : N => c) a)) with cls_s.
  change (fun a : N => cls_s a) with cls_s.
  destruct (drop_while cls_s s) as [|a u] eqn:E; [reflexivity|].
  pose proof (drop_while_head cls_s s E) as Ha.
  destruct (drop_while_keeps_last cls_s (rev u) a Ha) as [l' Hl'].
  cbn [rev]. rewrite Hl', rev_app_distr. reflexivity.
Qed.

(** X9: after [validateInput] the submit button is enabled exactly when
    the message holds a character that is not white space or an image is
    selected; and it is disabled exactly for the pages whose submission
    [handleSubmit] turns down with the validation message. *)
Theorem button_follows_the_guard (st : dom) :
  submitDisabled (validateInput st)
  = negb (existsb (fun c => negb (cls_s c)) (messageInput st) || has_image st)
  /\ (submitDisabled (validateInput st) = true
      <-> handleSubmit st
          = Ret (showError
                   (str "Please enter a message or upload an image.") st)).
Proof.
  split.
  - cbn [validateInput submitDisabled]. rewrite nonempty_trim. reflexivity.
  - pose proof (handleSubmit_cases st) as H. cbv zeta in H.
    cbn [validateInput submitDisabled].
    destruct (selectedImage st) as [f|].
    + rewrite orb_true_r. cbn [negb]. rewrite H.
      split; intros E; discriminate E.
    + rewrite orb_false_r.
      destruct (nonempty (js_trim (messageInput st))); cbn [negb]; rewrite H.
      * split; intros E; discriminate E.
      * split; reflexivity.
Qed.

(** ** Choosing and removing an image *)

Lemma handleSubmit_reads st f :
  selectedImage st = Some f -> exists w k, handleSubmit st = Read w f k.
Proof.
  intros Hi. pose proof (handleSubmit_cases st) as H. cbv zeta in H.
  rewrite Hi in H. rewrite H. eexists _, _. reflexivity.
Qed.

(** X10: choosing a file whose type does not begin with [image/] starts no
    read, shows the error toast and empties the file input, but leaves the
    selection as it was: an image selected before stays selected, and the
    next submission still reads and sends it. *)
Theorem rejected_file_keeps_selection (st : dom) (old bad : file) :
  selectedImage st = Some old ->
  prefix_of (str "image/") (file_type bad) = false ->
  snd (handleImageSelection (Some bad) st) = None
  /\ imageInput (fst (handleImageSelection (Some bad) st)) = []
  /\ toasts (fst (handleImageSelection (Some bad) st))
     = toasts st ++ [str "Please select an image file."]
  /\ selectedImage (fst (handleImageSelection (Some bad) st)) = Some old
  /\ exists w k,
       handleSubmit (fst (handleImageSelection (Some bad) st)) = Read w old k.
Proof.
  intros Hi Hb. unfold handleImageSelection. rewrite Hb. cbn [negb fst snd].
  repeat split; try assumption. apply handleSubmit_reads. exact Hi.
Qed.

Lemma rejected_file_keeps_selection_witness :
  snd (handleImageSelection (Some (File (str "application/pdf")))
         image_only_page) = None
  /\ imageInput (fst (handleImageSelection
                        (Some (File (str "application/pdf")))
                        image_only_page)) = []
  /\ toasts (fst (handleImageSelection (Some (File (str "application/pdf")))
                    image_only_page))
     = toasts image_only_page ++ [str "Please select an image file."]
  /\ selectedImage (fst (handleImageSelection
                           (Some (File (str "application/pdf")))
                           image_only_page))
     = Some (File (str "image/png"))
  /\ exists w k,
       handleSubmit (fst (handleImageSelection
                            (Some (File (str "application/pdf")))
                            image_only_page))
       = Read w (File (str "image/png")) k.
Proof.
  apply (@rejected_file_keeps_selection image_only_page
           (File (str "image/png")) (File (str "application/pdf")));
    reflexivity.
Defined.

(** X11: choosing an image file selects it, asks the reader for its
    preview and enables the submit button at once, whatever the message
    box holds; the next submission is accepted and reads that file. *)
Theorem chosen_image_can_be_sent (st : dom) (f : file) :
  prefix_of (str "image/") (file_type f) = true ->
  snd (handleImageSelection (Some f) st) = Some f
  /\ selectedImage (fst (handleImageSelection (Some f) st)) = Some f
  /\ submitDisabled (fst (handleImageSelection (Some f) st)) = false
  /\ exists w k,
       handleSubmit (fst (handleImageSelection (Some f) st)) = Read w f k.
Proof.
  intros Hf. unfold handleImageSelection. rewrite Hf. cbn [negb fst snd].
  split; [reflexivity|]. split; [reflexivity|]. split.
  - cbn [validateInput set_selectedImage submitDisabled selectedImage].
    rewrite orb_true_r. reflexivity.
  - apply handleSubmit_reads. reflexivity.
Qed.

Lemma chosen_image_can_be_sent_witness :
  snd (handleImageSelection (Some (File (str "image/jpeg"))) blank_page)
  = Some (File (str "image/jpeg"))
  /\ selectedImage (fst (handleImageSelection (Some (File (str "image/jpeg")))
                           blank_page))
     = Some (File (str "image/jpeg"))
  /\ submitDisabled (fst (handleImageSelection
                            (Some (File (str "image/jpeg"))) blank_page))
     = false
  /\ exists w k,
       handleSubmit (fst (handleImageSelection
                            (Some (File (str "image/jpeg"))) blank_page))
       = Read w (File (str "image/jpeg")) k.
Proof.
  apply (@chosen_image_can_be_sent blank_page (File (str "image/jpeg"))).
  reflexivity.
Defined.

(** X12: removing the image of a draft whose message is blank disables the
    submit button, and a submission made all the same is turned down
    without any call. *)
Theorem removed_image_blocks_blank_draft (st : dom) :
  js_trim (messageInput st) = [] ->
  selectedImage (removeImage st) = None
  /\ imageInput (removeImage st) = []
  /\ submitDisabled (removeImage st) = true
  /\ handleSubmit (removeImage st)
     = Ret (showError (str "Please enter a message or upload an image.")
              (removeImage st)).
Proof.
  intros Ht. pose proof (handleSubmit_cases (removeImage st)) as H.
  cbv zeta in H. cbn [removeImage validateInput selectedImage messageInput] in H.
  rewrite Ht in H. cbn [nonempty] in H.
  cbn [removeImage validateInput selectedImage imageInput submitDisabled
         messageInput].
  rewrite Ht. repeat split. exact H.
Qed.

Lemma removed_image_blocks_blank_draft_witness :
  selectedImage (removeImage image_only_page) = None
  /\ imageInput (removeImage image_only_page) = []
  /\ submitDisabled (removeImage image_only_page) = true
  /\ handleSubmit (removeImage image_only_page)
     = Ret (showError (str "Please enter a message or upload an image.")
              (removeImage image_only_page)).
Proof.
  apply (removed_image_blocks_blank_draft image_only_page). reflexivity.
Defined.

(** X22: the reader that loads the preview is not told when its image is
    removed.  When an image file is chosen and removed again before the
    reader has finished, the finished reader still shows the preview,
    although no image is selected any more; and a message submitted from
    that page goes out without any image, whatever the preview shows. *)
Theorem late_preview_of_removed_image (st : dom) (f : file)
    (result v : jsstring) (ro : read_outcome) :
  prefix_of (str "image/") (file_type f) = true ->
  nonempty (js_trim v) = true ->
  snd (handleImageSelection (Some f) st) = Some f
  /\ previewHidden
       (snd (imagePreview_onload result
               (removeImage (fst (handleImageSelection (Some f) st)))))
     = false
  /\ selectedImage
       (snd (imagePreview_onload result
               (removeImage (fst (handleImageSelection (Some f) st)))))
     = None
  /\ first_request
       (handleSubmit
          (set_messageInput v
             (snd (imagePreview_onload result
                     (removeImage (fst (handleImageSelection (Some f) st)))))))
       ro
     = Some (Request (Some (js_trim v)) None).
Proof.
  intros Hf Hv. unfold handleImageSelection. rewrite Hf. cbn [negb fst snd].
  repeat split.
  set (st' := set_messageInput v
                (snd (imagePreview_onload result
                        (removeImage
                           (validateInput (set_selectedImage (Some f) st)))))).
  pose proof (handleSubmit_cases st') as H. cbv zeta in H.
  change (selectedImage st') with (@None file) in H.
  change (messageInput st') with v in H. rewrite Hv in H.
  rewrite H. reflexivity.
Qed.

Lemma late_preview_of_removed_image_witness :
  snd (handleImageSelection (Some (File (str "image/png"))) blank_page)
  = Some (File (str "image/png"))
  /\ previewHidden
       (snd (imagePreview_onload (str "data:image/png;base64,iVBORw0KGgo=")
               (removeImage
                  (fst (handleImageSelection
                          (Some (File (str "image/png"))) blank_page)))))
     = false
  /\ selectedImage
       (snd (imagePreview_onload (str "data:image/png;base64,iVBORw0KGgo=")
               (removeImage
                  (fst (handleImageSelection
                          (Some (File (str "image/png"))) blank_page)))))
     = None
  /\ first_request
       (handleSubmit
          (set_messageInput (str " What is shown? ")
             (snd (imagePreview_onload
                     (str "data:image/png;base64,iVBORw0KGgo=")
                     (removeImage
                        (fst (handleImageSelection
                                (Some (File (str "image/png")))
                                blank_page)))))))
       ReadFailed
     = Some (Request (Some (js_trim (str " What is shown? "))) None).
Proof.
  apply (@late_preview_of_removed_image blank_page (File (str "image/png"))
           (str "data:image/png;base64,iVBORw0KGgo=")
           (str " What is shown? ") ReadFailed);
    reflexivity.
Defined.

(* ================================================================= *)
(** * More of the renderer *)

(** ** What every output looks like *)

Lemma lacks_line_breaks : forall s, lacks NL (line_breaks s) = true.
Proof.
  induction s as [|c s IH]; [reflexivity|].
  unfold line_breaks in *. cbn [flat_map].
  destruct (N.eqb_spec c NL) as [->|Hc].
  - unfold lacks in *. rewrite existsb_app. apply negb_true_iff in IH.
    rewrite IH. reflexivity.
  - unfold lacks in *. cbn [app existsb]. apply negb_true_iff in IH.
    rewrite IH, orb_false_r. apply negb_true_iff, N.eqb_neq. congruence.
Qed.

Lemma trim_last {A} (code : A -> N) (s : list A) a l :
  rev (trim code s) = a :: l -> cls_s (code a) = false.
Proof.
  unfold trim. rewrite rev_involutive.
  apply (drop_while_head (fun a => cls_s (code a))).
Qed.

(** X13: whatever it is given, the renderer returns a string that holds
    no newline character (U+000A) and that neither begins nor ends with
    white space (a character of the class [\s]). *)
Theorem output_is_one_trimmed_line (v : jsvalue) :
  lacks NL (advancedMarkdownToHtml v) = true
  /\ match advancedMarkdownToHtml v with
     | [] => True
     | c :: _ => cls_s c = false
     end
  /\ match rev (advancedMarkdownToHtml v) with
     | [] => True
     | c :: _ => cls_s c = false
     end.
Proof.
  destruct v as [| |text]; [repeat split | repeat split |].
  rewrite advancedMarkdownToHtml_Str. unfold markdown, substitute.
  rewrite replace_newline.
  match goal with |- context [line_breaks ?x] => set (X := x) end.
  split; [|split].
  - apply lacks_trim, lacks_line_breaks.
  - destruct (trim (fun c => c) (line_breaks X)) eqn:E; [exact I|].
    exact (trim_head (fun c => c) _ E).
  - destruct (rev (trim (fun c => c) (line_breaks X))) eqn:E; [exact I|].
    exact (trim_last (fun c => c) _ E).
Qed.

(** ** Strings the patterns leave alone *)

Ltac only_facts :=
  repeat match goal with
         | E : only _ _ = true |- _ => apply only_eq in E; subst
         end.

Lemma li_join_needs_block pv l pos z :
  m re_li_join accept pv l pos [] = Some z -> block_at pv l = true.
Proof. intros H. simpl in H. do 4 step H. only_facts. reflexivity. Qed.

Lemma li_close_needs_block pv l pos z :
  m re_li_close accept pv l pos [] = Some z -> block_at pv l = true.
Proof. intros H. simpl in H. do 6 step H. only_facts. reflexivity. Qed.

Lemma unwrap_needs_block pv l pos z :
  m re_unwrap accept pv l pos [] = Some z -> block_at pv l = true.
Proof. intros H. simpl in H. do 6 step H. only_facts. reflexivity. Qed.

Lemma ol_join_needs_block pv l pos z :
  m re_ol_join accept pv l pos [] = Some z -> block_at pv l = true.
Proof.
  intros H. simpl in H.
  assert (H' : match l with
               | [] => None
               | c :: t =>
                   if only (N_of_ascii "<") c then
                     match t with
                     | [] => None
                     | d :: _ => if only (N_of_ascii "l") d then Some z
                                 else None
                     end
                   else None
               end = Some z).
  { destruct pv as [c|]; [destruct (only NL c); [discriminate|]|];
      destruct l as [|c' [|d t]]; try discriminate;
      destruct (only (N_of_ascii "<") c'); try discriminate;
      destruct (only (N_of_ascii "l") d); try discriminate; reflexivity. }
  do 4 step H'. only_facts. reflexivity.
Qed.

Lemma lit_li_needs_block pv pv' l pos cs z :
  m (Lit "<li>") accept pv l pos cs = Some z -> block_at pv' l = true.
Proof. intros H. simpl in H. do 4 step H. only_facts. reflexivity. Qed.

Lemma li_open_needs_block pv l pos z :
  m re_li_open accept pv l pos [] = Some z ->
  block_at pv l = true
  \/ exists c t, l = c :: t /\ block_at (Some c) t = true.
Proof.
  intros H. unfold re_li_open in H. cbn [seqs m] in H.
  assert (Hr : match l with
               | [] => None
               | c :: t =>
                   if except LT c
                   then m (Lit "<li>") accept (Some c) t (S pos)
                          [(1, (pos, S pos))]
                   else None
               end = Some z ->
               exists c t, l = c :: t /\ block_at (Some c) t = true).
  { intros H'. destruct l as [|c t]; [discriminate|].
    destruct (except LT c); [|discriminate].
    exists c, t. split; [reflexivity|].
    exact (lit_li_needs_block _ (Some c) _ _ _ H'). }
  destruct pv as [c0|]; cbn [andb] in H.
  - right. apply Hr, H.
  - destruct (m (Lit "<li>") accept None l pos [(1, (pos, pos))])
      as [z'|] eqn:E0.
    + left. exact (lit_li_needs_block _ None _ _ _ E0).
    + right. apply Hr, H.
Qed.

Lemma unmatched_li_open l prev :
  nowhere block_at prev l = true -> unmatched re_li_open prev l.
Proof.
  intros H. apply nowhere_everywhere, everywhere_nested in H.
  revert H. apply everywhere_impl. intros pv l' Hf pos.
  destruct (m re_li_open accept pv l' pos []) as [z|] eqn:E; [|reflexivity].
  apply li_open_needs_block in E as [E | (c & t & -> & E)].
  - apply everywhere_here in Hf. congruence.
  - destruct Hf as [_ Hf]. apply everywhere_here in Hf. congruence.
Qed.

(** ** A pattern that matches the whole string *)

(** A greedy quantifier takes the longest run when what follows it is not
    of its class and the continuation accepts there. *)
Lemma rep_greedy_max p k : forall run min prev pos cs rest' z,
  forallb p run = true ->
  match rest' with [] => True | c :: _ => p c = false end ->
  min <= length run ->
  k (prev_after prev run) rest' (pos + length run) cs = Some z ->
  rep true p k min prev (run ++ rest') pos cs = Some z.
Proof.
  intros run; induction run as [|a run IH];
    intros min prev pos cs rest' z Hf Hr Hm Hk.
  - simpl in Hm. assert (min = 0) by lia. subst min.
    cbn [app prev_after length] in *. rewrite Nat.add_0_r in Hk.
    destruct rest' as [|c t]; simpl; [exact Hk|]. rewrite Hr. exact Hk.
  - simpl in Hf. apply andb_prop in Hf as [Ha Hf].
    cbn [app prev_after length] in *.
    replace (pos + S (length run)) with (S pos + length run) in Hk by lia.
    destruct min as [|n]; simpl; rewrite Ha.
    + rewrite (IH 0 (Some a) (S pos) cs rest' z); auto. lia.
    + apply IH; auto. lia.
Qed.

(** A lazy quantifier stops at the first place where the continuation
    accepts. *)
Lemma rep_lazy_first p k : forall run min prev pos cs rest' z,
  forallb p run = true ->
  (forall run1 c run2 pv ps,
     run = run1 ++ c :: run2 -> k pv (c :: run2 ++ rest') ps cs = None) ->
  min <= length run ->
  k (prev_after prev run) rest' (pos + length run) cs = Some z ->
  rep false p k min prev (run ++ rest') pos cs = Some z.
Proof.
  intros run; induction run as [|a run IH];
    intros min prev pos cs rest' z Hf Hn Hm Hk.
  - simpl in Hm. assert (min = 0) by lia. subst min.
    cbn [app prev_after length] in *. rewrite Nat.add_0_r in Hk.
    destruct rest' as [|c t]; simpl; [exact Hk|]. rewrite Hk. reflexivity.
  - simpl in Hf. apply andb_prop in Hf as [Ha Hf].
    cbn [app prev_after length] in *.
    replace (pos + S (length run)) with (S pos + length run) in Hk by lia.
    assert (Hn' : forall run1 c run2 pv ps,
               run = run1 ++ c :: run2 ->
               k pv (c :: run2 ++ rest') ps cs = None).
    { intros run1 c run2 pv ps E. apply (Hn (a :: run1)). rewrite E.
      reflexivity. }
    destruct min as [|n]; simpl; rewrite Ha.
    + rewrite (Hn [] a run prev pos eq_refl). apply IH; auto. lia.
    + apply IH; auto. lia.
Qed.

Lemma scan_skip re : forall rest prev pos,
  scan re prev rest pos (length rest)
  = scan re (prev_after prev rest) [] (pos + length rest) 0.
Proof.
  induction rest as [|c t IH]; intros prev pos.
  - cbn [length prev_after]. rewrite Nat.add_0_r. reflexivity.
  - cbn [length prev_after scan]. rewrite IH.
    replace (pos + S (length t)) with (S pos + length t) by lia.
    reflexivity.
Qed.

Lemma find_all_whole re c t cs :
  m re accept None (c :: t) 0 [] = Some (S (length t), cs) ->
  (forall pv pos, m re accept pv [] pos [] = None) ->
  find_all re (c :: t) = [Mtch 0 (S (length t)) cs].
Proof.
  intros H Hend. unfold find_all. cbn [scan]. rewrite H.
  replace (S (length t) - 0 - 1) with (length t) by lia.
  rewrite scan_skip. cbn [scan]. rewrite Hend. reflexivity.
Qed.

Lemma replace_whole re f c t cs :
  m re accept None (c :: t) 0 [] = Some (S (length t), cs) ->
  (forall pv pos, m re accept pv [] pos [] = None) ->
  replace (fun c => c) re f (c :: t) = f (c :: t) (Mtch 0 (S (length t)) cs).
Proof.
  intros H Hend. unfold replace. rewrite map_id.
  rewrite (@find_all_whole re c t cs H Hend). cbn [assemble start stop].
  unfold sub at 1. cbn [Nat.sub firstn app].
  change (S (length t)) with (length (c :: t)).
  rewrite skipn_all, app_nil_r. reflexivity.
Qed.

(** The middle of a string, by its indices. *)
Lemma sub_middle {A} (x y z : list A) :
  sub (x ++ y ++ z) (length x) (length x + length y) = y.
Proof.
  unfold sub. rewrite skipn_app, skipn_all, Nat.sub_diag. cbn [skipn app].
  replace (length x + length y - length x) with (length y + 0) by lia.
  rewrite firstn_app_2. cbn [firstn]. apply app_nil_r.
Qed.

(** ** Pieces of a string no pattern matches *)

Lemma lacks_app c x y : lacks c (x ++ y) = lacks c x && lacks c y.
Proof. unfold lacks. rewrite existsb_app, negb_orb. reflexivity. Qed.

Lemma lacks_forallb c s :
  lacks c s = true -> forallb (except c) s = true.
Proof.
  induction s as [|a s IH]; intros H; [reflexivity|].
  apply lacks_cons in H as [Ha H]. cbn [forallb]. unfold except at 1.
  rewrite Ha, (IH H). reflexivity.
Qed.

Lemma forallb_escape (q : N -> bool) s :
  (forall c, entity_char c = true -> q c = true) ->
  forallb q s = true -> forallb q (escapeHtml s) = true.
Proof.
  intros Hq. induction s as [|a s IH]; intros H; [reflexivity|].
  cbn [forallb] in H. apply andb_prop in H as [Ha H].
  rewrite escapeHtml_cons, forallb_app, (IH H), andb_true_r.
  destruct (escape_char_cases a) as [(Ea & _) | (_ & w & Ea & Hw)]; rewrite Ea.
  - cbn [forallb]. rewrite Ha. reflexivity.
  - change (AMP :: w ++ [59%N]) with ([AMP] ++ w ++ [59%N]).
    rewrite !forallb_app. cbn [forallb].
    rewrite (Hq AMP eq_refl), (Hq 59%N eq_refl). cbn [andb].
    rewrite andb_true_r. clear - Hq Hw.
    induction w as [|d w IHw]; [reflexivity|]. cbn [forallb] in *.
    apply andb_prop in Hw as [Hd Hw]. rewrite (IHw Hw), andb_true_r.
    apply Hq. unfold entity_char. rewrite Hd, orb_true_r. reflexivity.
Qed.

Lemma single_line_escape s :
  forallb cls_dot s = true -> forallb cls_dot (escapeHtml s) = true.
Proof. apply forallb_escape. intros c H. classes. Qed.

Lemma lacks_LT_escape s : lacks LT (escapeHtml s) = true.
Proof.
  apply lacks_In. intros Hin. pose proof (escapeHtml_no_angle s) as H.
  rewrite Forall_forall in H. destruct (H LT Hin) as [Hn _]. congruence.
Qed.

Lemma escapeHtml_app x y : escapeHtml (x ++ y) = escapeHtml x ++ escapeHtml y.
Proof. apply flat_map_app. Qed.

Lemma escapeHtml_nonempty s : s <> [] -> escapeHtml s <> [].
Proof.
  destruct s as [|a t]; [congruence|]. intros _.
  destruct (escapeHtml_head a t) as [E | [_ (r & E)]]; rewrite E; discriminate.
Qed.

(** On one line, a token that needs the start of a line can only be at
    the very start. *)
Lemma nowhere_inside_line f :
  (forall pv l, line_start pv = false -> f pv l = false) ->
  forall l pv,
    line_start pv = false -> forallb cls_dot l = true ->
    nowhere f pv l = true.
Proof.
  intros Hf. induction l as [|c t IH]; intros pv Hp Hl; cbn [nowhere].
  - rewrite (Hf _ _ Hp). reflexivity.
  - cbn [forallb] in Hl. apply andb_prop in Hl as [Hc Hl].
    rewrite (Hf _ _ Hp). cbn [negb andb]. apply IH; [|exact Hl].
    unfold cls_dot in Hc. apply negb_true_iff in Hc. exact Hc.
Qed.

Lemma nowhere_one_line f c t :
  (forall pv l, line_start pv = false -> f pv l = false) ->
  f None (c :: t) = false ->
  forallb cls_dot (c :: t) = true ->
  nowhere f None (c :: t) = true.
Proof.
  intros Hf H0 Hl. cbn [nowhere]. rewrite H0. cbn [negb andb].
  cbn [forallb] in Hl. apply andb_prop in Hl as [Hc Hl].
  apply (nowhere_inside_line f Hf); [|exact Hl].
  unfold cls_dot in Hc. apply negb_true_iff in Hc. exact Hc.
Qed.

Lemma bullet_needs_start pv l : line_start pv = false -> bullet_at pv l = false.
Proof. unfold bullet_at. intros ->. reflexivity. Qed.

Lemma numbering_needs_start pv l :
  line_start pv = false -> numbering_at pv l = false.
Proof. unfold numbering_at. intros ->. reflexivity. Qed.

Lemma heading_needs_start pv l :
  line_start pv = false -> heading_at pv l = false.
Proof. unfold heading_at. intros ->. reflexivity. Qed.

Lemma subheading_needs_start pv l :
  line_start pv = false -> subheading_at pv l = false.
Proof. unfold subheading_at. intros ->. reflexivity. Qed.

(** The tokens of a line that begins with [c], a character that starts
    none of them. *)
Lemma line_tokens c t :
  cls_s c = false -> cls_bullet c = false -> cls_d c = false ->
  (c =? HASH)%N = false ->
  forallb cls_dot (c :: t) = true ->
  nowhere bullet_at None (c :: t) = true
  /\ nowhere numbering_at None (c :: t) = true
  /\ nowhere heading_at None (c :: t) = true.
Proof.
  intros Hs Hb Hd Hh Hl. repeat split.
  - apply (nowhere_one_line bullet_at);
      [apply bullet_needs_start | | exact Hl].
    unfold bullet_at. cbn [drop_while line_start andb]. rewrite Hs.
    destruct t; rewrite ?Hb; reflexivity.
  - apply (nowhere_one_line numbering_at);
      [apply numbering_needs_start | | exact Hl].
    unfold numbering_at. cbn [drop_while line_start andb]. rewrite Hs, Hd.
    reflexivity.
  - apply (nowhere_one_line heading_at);
      [apply heading_needs_start | | exact Hl].
    unfold heading_at. cbn [line_start andb]. exact Hh.
Qed.

Lemma block_needs_lt pv c l : (c =? LT)%N = false -> block_at pv (c :: l) = false.
Proof.
  intros H. unfold block_at.
  change (str "<l") with [LT; 108%N]. change (str "</l") with [LT; 47; 108]%N.
  change (str "<p>") with [LT; 112; GT]%N.
  cbn [prefix_of]. rewrite (N.eqb_sym LT c), H. reflexivity.
Qed.

Lemma nowhere_block_app : forall x y pv,
  lacks LT x = true ->
  (forall pv', nowhere block_at pv' y = true) ->
  nowhere block_at pv (x ++ y) = true.
Proof.
  induction x as [|a x IH]; intros y pv Hx Hy; [apply Hy|].
  apply lacks_cons in Hx as [Ha Hx]. cbn [app nowhere].
  rewrite block_needs_lt by (rewrite N.eqb_sym; exact Ha).
  cbn [negb andb]. apply IH; assumption.
Qed.

Lemma nowhere_block_prev pv pv' l :
  nowhere block_at pv l = nowhere block_at pv' l.
Proof.
  destruct l as [|c t]; reflexivity.
Qed.

Lemma trim_stable a x b :
  cls_s a = false -> cls_s b = false ->
  js_trim (a :: x ++ [b]) = a :: x ++ [b].
Proof.
  intros Ha Hb. unfold js_trim, trim.
  change (fun a : N => cls_s ((fun c : N => c) a)) with cls_s.
  change (fun a : N => cls_s a) with cls_s.
  cbn [drop_while]. rewrite Ha.
  change (a :: x ++ [b]) with ((a :: x) ++ [b]).
  rewrite rev_app_distr. cbn [rev app drop_while]. rewrite Hb.
  change (b :: rev x ++ [a]) with ([b] ++ rev (a :: x)).
  rewrite rev_app_distr, rev_involutive. reflexivity.
Qed.

(** ** Pass by pass *)

Lemma fence_needs_pair pv l pos z :
  m re_fence accept pv l pos [] = Some z -> pair_at BT pv l = true.
Proof. intros H. simpl in H. do 4 step H. only_facts. reflexivity. Qed.

Lemma bold_needs_pair pv l pos z :
  m re_bold accept pv l pos [] = Some z -> pair_at STAR pv l = true.
Proof. intros H. simpl in H. do 4 step H. only_facts. reflexivity. Qed.

Lemma heading_needs_hashes hashes pv l pos z :
  hashes = "###"%string \/ hashes = "##"%string ->
  m (re_heading hashes) accept pv l pos [] = Some z ->
  subheading_at pv l = true.
Proof.
  intros [-> | ->] H; simpl in H; apply Bol_line_start in H as [Hl H];
    do 4 step H; only_facts; unfold subheading_at; rewrite Hl; reflexivity.
Qed.

Section Passes.

Variable x : jsstring.
Variable f : jsstring -> mtch -> jsstring.

Let pass re := replace (fun c : N => c) re f x.

Lemma pass_unmatched re : unmatched re None x -> pass re = x.
Proof. intros H. apply replace_unmatched. rewrite map_id. exact H. Qed.

Lemma pass_fence : nowhere (pair_at BT) None x = true -> pass re_fence = x.
Proof.
  intros H. apply pass_unmatched.
  exact (@unmatched_nowhere _ _ fence_needs_pair x None H).
Qed.

Lemma pass_inline : nowhere code_span_at None x = true -> pass re_inline = x.
Proof.
  intros H. apply pass_unmatched.
  exact (@unmatched_nowhere _ _ inline_needs_span x None H).
Qed.

Lemma pass_bold : nowhere (pair_at STAR) None x = true -> pass re_bold = x.
Proof.
  intros H. apply pass_unmatched.
  exact (@unmatched_nowhere _ _ bold_needs_pair x None H).
Qed.

Lemma pass_italic : lacks STAR x = true -> pass re_italic = x.
Proof.
  intros H. apply pass_unmatched.
  exact (@unmatched_lacks _ _ italic_needs_star x None H).
Qed.

Lemma pass_ul_item : nowhere bullet_at None x = true -> pass re_ul_item = x.
Proof.
  intros H. apply pass_unmatched.
  exact (@unmatched_nowhere _ _ ul_item_needs_bullet x None H).
Qed.

Lemma pass_ol_item :
  nowhere numbering_at None x = true -> pass re_ol_item = x.
Proof.
  intros H. apply pass_unmatched.
  exact (@unmatched_nowhere _ _ ol_item_needs_numbering x None H).
Qed.

Lemma pass_li_join : nowhere block_at None x = true -> pass re_li_join = x.
Proof.
  intros H. apply pass_unmatched.
  exact (@unmatched_nowhere _ _ li_join_needs_block x None H).
Qed.

Lemma pass_li_open : nowhere block_at None x = true -> pass re_li_open = x.
Proof. intros H. apply pass_unmatched, unmatched_li_open, H. Qed.

Lemma pass_li_close : nowhere block_at None x = true -> pass re_li_close = x.
Proof.
  intros H. apply pass_unmatched.
  exact (@unmatched_nowhere _ _ li_close_needs_block x None H).
Qed.

Lemma pass_ol_join : nowhere block_at None x = true -> pass re_ol_join = x.
Proof.
  intros H. apply pass_unmatched.
  exact (@unmatched_nowhere _ _ ol_join_needs_block x None H).
Qed.

Lemma pass_unwrap : nowhere block_at None x = true -> pass re_unwrap = x.
Proof.
  intros H. apply pass_unmatched.
  exact (@unmatched_nowhere _ _ unwrap_needs_block x None H).
Qed.

Lemma pass_h3 :
  nowhere subheading_at None x = true -> pass (re_heading "###") = x.
Proof.
  intros H. apply pass_unmatched.
  apply (@unmatched_nowhere (re_heading "###") subheading_at); [|exact H].
  intros pv l pos z. apply heading_needs_hashes. auto.
Qed.

Lemma pass_h2 :
  nowhere subheading_at None x = true -> pass (re_heading "##") = x.
Proof.
  intros H. apply pass_unmatched.
  apply (@unmatched_nowhere (re_heading "##") subheading_at); [|exact H].
  intros pv l pos z. apply heading_needs_hashes. auto.
Qed.

Lemma pass_h1 : nowhere heading_at None x = true -> pass (re_heading "#") = x.
Proof.
  intros H. apply pass_unmatched.
  apply (@unmatched_nowhere (re_heading "#") heading_at); [|exact H].
  intros pv l pos z. apply heading_needs_hash. auto.
Qed.

Lemma pass_para : nowhere paragraph_at None x = true -> pass re_para = x.
Proof.
  intros H. apply pass_unmatched.
  exact (@unmatched_nowhere _ _ para_needs_break x None H).
Qed.

End Passes.

(** Skips every pass that the facts at hand show to leave [x] alone. *)
Ltac skip_passes x :=
  repeat first
    [ rewrite (pass_fence x) by assumption
    | rewrite (pass_inline x) by assumption
    | rewrite (pass_bold x) by assumption
    | rewrite (pass_italic x) by assumption
    | rewrite (pass_ul_item x) by assumption
    | rewrite (pass_li_join x) by assumption
    | rewrite (pass_li_open x) by assumption
    | rewrite (pass_li_close x) by assumption
    | rewrite (pass_ol_item x) by assumption
    | rewrite (pass_ol_join x) by assumption
    | rewrite (pass_h3 x) by assumption
    | rewrite (pass_h2 x) by assumption
    | rewrite (pass_h1 x) by assumption
    | rewrite (pass_para x) by assumption
    | rewrite (pass_unwrap x) by assumption ].

Lemma nowhere_impl (f g : option N -> jsstring -> bool) :
  (forall pv l, g pv l = true -> f pv l = true) ->
  forall l pv, nowhere f pv l = true -> nowhere g pv l = true.
Proof.
  intros Hfg. induction l as [|c t IH]; intros pv H; cbn [nowhere] in *;
    apply andb_prop in H as [H1 H2]; apply negb_true_iff in H1;
    apply andb_true_intro; split; auto; apply negb_true_iff;
    destruct (g pv _) eqn:E; auto; apply Hfg in E; congruence.
Qed.

Lemma lacks_no_pair c : forall l pv,
  lacks c l = true -> nowhere (pair_at c) pv l = true.
Proof.
  induction l as [|a t IH]; intros pv H; [reflexivity|].
  apply lacks_cons in H as [Ha Ht]. cbn [nowhere].
  rewrite (IH _ Ht), andb_true_r.
  destruct t as [|d t']; [reflexivity|]. cbn [pair_at].
  rewrite (N.eqb_sym a c), Ha. reflexivity.
Qed.

Lemma heading_no_subheading l pv :
  nowhere heading_at pv l = true -> nowhere subheading_at pv l = true.
Proof.
  apply nowhere_impl. intros pv' l' H. unfold subheading_at, heading_at in *.
  apply andb_prop in H as [H1 H2]. rewrite H1.
  change (str "##") with [HASH; HASH] in H2.
  destruct l' as [|a t]; cbn [prefix_of] in H2; [discriminate H2|].
  apply andb_prop in H2 as [H2 _]. rewrite N.eqb_sym. exact H2.
Qed.

Lemma single_line_lacks_NL l : forallb cls_dot l = true -> lacks NL l = true.
Proof.
  intros H. apply lacks_In. intros Hin.
  rewrite forallb_forall in H. specialize (H NL Hin). discriminate.
Qed.

(** ** One element on one line *)

(** What holds of [o ++ e ++ c] when [o] and [c] are an opening and a
    closing tag and [e] is escaped text on one line without backtick or
    asterisk. *)
Lemma element_facts (o c e : jsstring) (a : N) (o' : jsstring) :
  o = a :: o' ->
  cls_s a = false -> cls_bullet a = false -> cls_d a = false ->
  (a =? HASH)%N = false ->
  (forall y pv, nowhere block_at pv (o ++ y) = nowhere block_at pv y) ->
  (forall pv, nowhere block_at pv c = true) ->
  lacks BT (o ++ c) = true -> lacks STAR (o ++ c) = true ->
  forallb cls_dot (o ++ c) = true ->
  lacks BT e = true -> lacks STAR e = true -> lacks LT e = true ->
  forallb cls_dot e = true ->
  nowhere (pair_at BT) None (o ++ e ++ c) = true
  /\ nowhere code_span_at None (o ++ e ++ c) = true
  /\ nowhere (pair_at STAR) None (o ++ e ++ c) = true
  /\ lacks STAR (o ++ e ++ c) = true
  /\ nowhere bullet_at None (o ++ e ++ c) = true
  /\ nowhere block_at None (o ++ e ++ c) = true
  /\ nowhere numbering_at None (o ++ e ++ c) = true
  /\ nowhere subheading_at None (o ++ e ++ c) = true
  /\ nowhere heading_at None (o ++ e ++ c) = true
  /\ nowhere paragraph_at None (o ++ e ++ c) = true
  /\ lacks NL (o ++ e ++ c) = true.
Proof.
  intros Ho Hs Hb Hd Hh Hbo Hbc Hbt Hst Hdot Ebt Est Elt Edot.
  rewrite lacks_app in Hbt, Hst. apply andb_prop in Hbt as [Obt Cbt].
  apply andb_prop in Hst as [Ost Cst].
  rewrite forallb_app in Hdot. apply andb_prop in Hdot as [Odot Cdot].
  assert (Rbt : lacks BT (o ++ e ++ c) = true)
    by (rewrite !lacks_app, Obt, Ebt, Cbt; reflexivity).
  assert (Rst : lacks STAR (o ++ e ++ c) = true)
    by (rewrite !lacks_app, Ost, Est, Cst; reflexivity).
  assert (Rdot : forallb cls_dot (o ++ e ++ c) = true)
    by (rewrite !forallb_app, Odot, Edot, Cdot; reflexivity).
  assert (Rnl : lacks NL (o ++ e ++ c) = true)
    by apply single_line_lacks_NL, Rdot.
  assert (Rtok : nowhere bullet_at None (o ++ e ++ c) = true
                 /\ nowhere numbering_at None (o ++ e ++ c) = true
                 /\ nowhere heading_at None (o ++ e ++ c) = true).
  { rewrite Ho in *. cbn [app] in *. apply line_tokens; assumption. }
  destruct Rtok as (Rbul & Rnum & Rhead).
  repeat split; auto using lacks_no_pair, lacks_no_span, lacks_no_paragraph,
    heading_no_subheading.
  rewrite Hbo. apply nowhere_block_app; [exact Elt | exact Hbc].
Qed.

Lemma trim_between (o c e : jsstring) :
  match o with [] => False | a :: _ => cls_s a = false end ->
  match rev c with [] => False | b :: _ => cls_s b = false end ->
  js_trim (o ++ e ++ c) = o ++ e ++ c.
Proof.
  destruct o as [|a o']; [contradiction|]. intros Ha.
  destruct (rev c) as [|b c'] eqn:Ec; [contradiction|]. intros Hb.
  assert (E : c = rev c' ++ [b]).
  { rewrite <- (rev_involutive c), Ec. reflexivity. }
  rewrite E. cbn [app]. rewrite !app_assoc. apply trim_stable; assumption.
Qed.

Lemma block_at_eq pv l :
  block_at pv l
  = prefix_of [60; 108]%N l || prefix_of [60; 47; 108]%N l
    || prefix_of [60; 112; 62]%N l.
Proof. reflexivity. Qed.

Ltac peel_tag :=
  intros;
  repeat match goal with
         | |- context [str ?s] =>
             let v := eval vm_compute in (str s) in change (str s) with v
         end;
  cbn [app nowhere]; rewrite !block_at_eq; cbn;
  try apply nowhere_block_prev; try reflexivity.

Lemma code_tag_open y pv :
  nowhere block_at pv (str "<code>" ++ y) = nowhere block_at pv y.
Proof. peel_tag. Qed.

Lemma code_tag_close pv : nowhere block_at pv (str "</code>") = true.
Proof. peel_tag. Qed.

(** ** Inline code, emphasis *)

Lemma nonempty_not_nil (s : jsstring) : nonempty s = true -> s <> [].
Proof. destruct s; [discriminate | discriminate]. Qed.

Lemma nonempty_length {A} (l : list A) : l <> [] -> 1 <= length l.
Proof. destruct l; [congruence | simpl; lia]. Qed.

Lemma no_pair_before c : forall l pv,
  lacks c l = true -> nowhere (pair_at c) pv (l ++ [c]) = true.
Proof.
  induction l as [|a e IH]; intros pv He; [reflexivity|].
  apply lacks_cons in He as [Ha He]. cbn [app nowhere].
  rewrite (IH _ He), andb_true_r.
  destruct (e ++ [c]); cbn [pair_at]; [reflexivity|].
  rewrite (N.eqb_sym a c), Ha. reflexivity.
Qed.

(** No two [c] in a row in [c :: e ++ [c]] when [e] is not empty and has
    no [c]. *)
Lemma no_pair_around c e pv :
  e <> [] -> lacks c e = true ->
  nowhere (pair_at c) pv (c :: e ++ [c]) = true.
Proof.
  intros Hne He. cbn [nowhere]. rewrite no_pair_before by exact He.
  rewrite andb_true_r.
  destruct e as [|a e]; [congruence|].
  apply lacks_cons in He as [Ha _]. cbn [app pair_at].
  rewrite (N.eqb_sym a c), Ha, andb_false_r. reflexivity.
Qed.

Lemma inline_matches e :
  e <> [] -> lacks BT e = true ->
  m re_inline accept None (BT :: e ++ [BT]) 0 []
  = Some (S (length (e ++ [BT])), [(1, (1, 1 + length e))]).
Proof.
  intros Hne Hbt. unfold re_inline. cbn [seqs m].
  change (only BT BT) with true. cbv iota.
  replace (S (length (e ++ [BT]))) with (S (1 + length e))
    by (rewrite length_app; simpl; lia).
  apply rep_greedy_max.
  - apply lacks_forallb, Hbt.
  - reflexivity.
  - apply nonempty_length, Hne.
  - reflexivity.
Qed.

Lemma subst_code s mt :
  subst (fun c : N => c) "<code>$1</code>" s mt
  = str "<code>" ++ group s mt 1 ++ str "</code>".
Proof. reflexivity. Qed.

(** X14: a text that is one inline code span, a backtick, a run of
    characters on one line without backtick or asterisk, and a backtick,
    renders to a [code] element around the escaped run. *)
Theorem inline_code_renders (c : jsstring) :
  nonempty c = true ->
  lacks BT c = true -> lacks STAR c = true -> forallb cls_dot c = true ->
  advancedMarkdownToHtml (Str (BT :: c ++ [BT]))
  = str "<code>" ++ escapeHtml c ++ str "</code>".
Proof.
  intros Hne Hbt Hst Hdot. apply nonempty_not_nil in Hne.
  rewrite advancedMarkdownToHtml_Str. unfold markdown.
  fold (escapeHtml (BT :: c ++ [BT])).
  assert (Eh : escapeHtml (BT :: c ++ [BT]) = BT :: escapeHtml c ++ [BT])
    by (rewrite escapeHtml_cons, escapeHtml_app; reflexivity).
  rewrite Eh. clear Eh.
  pose proof (escapeHtml_nonempty Hne) as Ene.
  pose proof (lacks_escape BT c eq_refl Hbt) as Ebt.
  pose proof (lacks_escape STAR c eq_refl Hst) as Est.
  pose proof (lacks_LT_escape c) as Elt.
  pose proof (single_line_escape c Hdot) as Edot.
  set (e := escapeHtml c) in *.
  pose proof (@no_pair_around BT e None Ene Ebt) as Hpair.
  unfold substitute. skip_passes (BT :: e ++ [BT]).
  rewrite (@replace_whole re_inline _ BT (e ++ [BT]) _
             (@inline_matches e Ene Ebt))
    by (intros; reflexivity).
  rewrite subst_code. unfold group. cbn [caps assoc Nat.eqb].
  change (BT :: e ++ [BT]) with ([BT] ++ e ++ [BT]).
  change (1 + length e) with (length [BT] + length e).
  change 1 with (length [BT]) at 1. rewrite sub_middle.
  destruct (@element_facts (str "<code>") (str "</code>") e LT (str "code>")
              eq_refl eq_refl eq_refl eq_refl eq_refl
              code_tag_open code_tag_close eq_refl eq_refl eq_refl
              Ebt Est Elt Edot)
    as (F1 & F2 & F3 & F4 & F5 & F6 & F7 & F8 & F9 & F10 & Fnl).
  skip_passes (str "<code>" ++ e ++ str "</code>").
  rewrite replace_newline, line_breaks_id by exact Fnl.
  apply trim_between; reflexivity.
Qed.

Lemma inline_code_renders_witness :
  advancedMarkdownToHtml (Str (BT :: str "a < b && c" ++ [BT]))
  = str "<code>" ++ escapeHtml (str "a < b && c") ++ str "</code>".
Proof.
  apply (@inline_code_renders (str "a < b && c"));
    reflexivity.
Defined.

Lemma strong_tag_open y pv :
  nowhere block_at pv (str "<strong>" ++ y) = nowhere block_at pv y.
Proof. peel_tag. Qed.

Lemma strong_tag_close pv : nowhere block_at pv (str "</strong>") = true.
Proof. peel_tag. Qed.

Lemma em_tag_open y pv :
  nowhere block_at pv (str "<em>" ++ y) = nowhere block_at pv y.
Proof. peel_tag. Qed.

Lemma em_tag_close pv : nowhere block_at pv (str "</em>") = true.
Proof. peel_tag. Qed.

Lemma bold_matches e :
  e <> [] -> lacks STAR e = true ->
  m re_bold accept None (STAR :: STAR :: e ++ [STAR; STAR]) 0 []
  = Some (S (length (STAR :: e ++ [STAR; STAR])), [(1, (2, 2 + length e))]).
Proof.
  intros Hne Hst. unfold re_bold. cbn [seqs m].
  change (only STAR STAR) with true. cbv iota.
  replace (S (length (STAR :: e ++ [STAR; STAR])))
    with (S (S (2 + length e)))
    by (cbn [length]; rewrite length_app; simpl; lia).
  apply rep_greedy_max.
  - apply lacks_forallb, Hst.
  - reflexivity.
  - apply nonempty_length, Hne.
  - reflexivity.
Qed.

Lemma italic_matches e :
  e <> [] -> lacks STAR e = true ->
  m re_italic accept None (STAR :: e ++ [STAR]) 0 []
  = Some (S (length (e ++ [STAR])), [(1, (1, 1 + length e))]).
Proof.
  intros Hne Hst. unfold re_italic. cbn [seqs m].
  change (only STAR STAR) with true. cbv iota.
  replace (S (length (e ++ [STAR]))) with (S (1 + length e))
    by (rewrite length_app; simpl; lia).
  apply rep_greedy_max.
  - apply lacks_forallb, Hst.
  - reflexivity.
  - apply nonempty_length, Hne.
  - reflexivity.
Qed.

Lemma subst_strong s mt :
  subst (fun c : N => c) "<strong>$1</strong>" s mt
  = str "<strong>" ++ group s mt 1 ++ str "</strong>".
Proof. reflexivity. Qed.

Lemma subst_em s mt :
  subst (fun c : N => c) "<em>$1</em>" s mt
  = str "<em>" ++ group s mt 1 ++ str "</em>".
Proof. reflexivity. Qed.

(** X15: a text that is one bold span, two asterisks, a run of characters
    on one line without asterisk or backtick, and two asterisks, renders
    to a [strong] element around the escaped run. *)
Theorem bold_renders (c : jsstring) :
  nonempty c = true ->
  lacks BT c = true -> lacks STAR c = true -> forallb cls_dot c = true ->
  advancedMarkdownToHtml (Str (STAR :: STAR :: c ++ [STAR; STAR]))
  = str "<strong>" ++ escapeHtml c ++ str "</strong>".
Proof.
  intros Hne Hbt Hst Hdot. apply nonempty_not_nil in Hne.
  rewrite advancedMarkdownToHtml_Str. unfold markdown.
  fold (escapeHtml (STAR :: STAR :: c ++ [STAR; STAR])).
  assert (Eh : escapeHtml (STAR :: STAR :: c ++ [STAR; STAR])
               = STAR :: STAR :: escapeHtml c ++ [STAR; STAR])
    by (rewrite !escapeHtml_cons, escapeHtml_app; reflexivity).
  rewrite Eh. clear Eh.
  pose proof (escapeHtml_nonempty Hne) as Ene.
  pose proof (lacks_escape BT c eq_refl Hbt) as Ebt.
  pose proof (lacks_escape STAR c eq_refl Hst) as Est.
  pose proof (lacks_LT_escape c) as Elt.
  pose proof (single_line_escape c Hdot) as Edot.
  set (e := escapeHtml c) in *.
  assert (Hbt' : lacks BT (STAR :: STAR :: e ++ [STAR; STAR]) = true).
  { change (STAR :: STAR :: e ++ [STAR; STAR])
      with ([STAR; STAR] ++ e ++ [STAR; STAR]).
    rewrite !lacks_app, Ebt. reflexivity. }
  pose proof (lacks_no_pair BT _ None Hbt') as Hpair.
  pose proof (lacks_no_span _ None Hbt') as Hspan.
  unfold substitute. skip_passes (STAR :: STAR :: e ++ [STAR; STAR]).
  rewrite (@replace_whole re_bold _ STAR (STAR :: e ++ [STAR; STAR]) _
             (@bold_matches e Ene Est))
    by (intros; reflexivity).
  rewrite subst_strong. unfold group. cbn [caps assoc Nat.eqb].
  change (STAR :: STAR :: e ++ [STAR; STAR])
    with ([STAR; STAR] ++ e ++ [STAR; STAR]).
  change (2 + length e) with (length [STAR; STAR] + length e).
  change 2 with (length [STAR; STAR]) at 1. rewrite sub_middle.
  destruct (@element_facts (str "<strong>") (str "</strong>") e LT
              (str "strong>")
              eq_refl eq_refl eq_refl eq_refl eq_refl
              strong_tag_open strong_tag_close eq_refl eq_refl eq_refl
              Ebt Est Elt Edot)
    as (F1 & F2 & F3 & F4 & F5 & F6 & F7 & F8 & F9 & F10 & Fnl).
  skip_passes (str "<strong>" ++ e ++ str "</strong>").
  rewrite replace_newline, line_breaks_id by exact Fnl.
  apply trim_between; reflexivity.
Qed.

Lemma bold_renders_witness :
  advancedMarkdownToHtml
    (Str (STAR :: STAR :: str "R&D > 0" ++ [STAR; STAR]))
  = str "<strong>" ++ escapeHtml (str "R&D > 0") ++ str "</strong>".
Proof.
  apply (@bold_renders (str "R&D > 0"));
    reflexivity.
Defined.

(** X16: a text that is one italic span, an asterisk, a run of characters
    on one line without asterisk or backtick, and an asterisk, renders to
    an [em] element around the escaped run, even when the run begins with
    white space as a list item would. *)
Theorem italic_renders (c : jsstring) :
  nonempty c = true ->
  lacks BT c = true -> lacks STAR c = true -> forallb cls_dot c = true ->
  advancedMarkdownToHtml (Str (STAR :: c ++ [STAR]))
  = str "<em>" ++ escapeHtml c ++ str "</em>".
Proof.
  intros Hne Hbt Hst Hdot. apply nonempty_not_nil in Hne.
  rewrite advancedMarkdownToHtml_Str. unfold markdown.
  fold (escapeHtml (STAR :: c ++ [STAR])).
  assert (Eh : escapeHtml (STAR :: c ++ [STAR])
               = STAR :: escapeHtml c ++ [STAR])
    by (rewrite !escapeHtml_cons, escapeHtml_app; reflexivity).
  rewrite Eh. clear Eh.
  pose proof (escapeHtml_nonempty Hne) as Ene.
  pose proof (lacks_escape BT c eq_refl Hbt) as Ebt.
  pose proof (lacks_escape STAR c eq_refl Hst) as Est.
  pose proof (lacks_LT_escape c) as Elt.
  pose proof (single_line_escape c Hdot) as Edot.
  set (e := escapeHtml c) in *.
  assert (Hbt' : lacks BT (STAR :: e ++ [STAR]) = true).
  { change (STAR :: e ++ [STAR]) with ([STAR] ++ e ++ [STAR]).
    rewrite !lacks_app, Ebt. reflexivity. }
  pose proof (lacks_no_pair BT _ None Hbt') as Hpair.
  pose proof (lacks_no_span _ None Hbt') as Hspan.
  pose proof (@no_pair_around STAR e None Ene Est) as Hstars.
  unfold substitute. skip_passes (STAR :: e ++ [STAR]).
  rewrite (@replace_whole re_italic _ STAR (e ++ [STAR]) _
             (@italic_matches e Ene Est))
    by (intros; reflexivity).
  rewrite subst_em. unfold group. cbn [caps assoc Nat.eqb].
  change (STAR :: e ++ [STAR]) with ([STAR] ++ e ++ [STAR]).
  change (1 + length e) with (length [STAR] + length e).
  change 1 with (length [STAR]) at 1. rewrite sub_middle.
  destruct (@element_facts (str "<em>") (str "</em>") e LT (str "em>")
              eq_refl eq_refl eq_refl eq_refl eq_refl
              em_tag_open em_tag_close eq_refl eq_refl eq_refl
              Ebt Est Elt Edot)
    as (F1 & F2 & F3 & F4 & F5 & F6 & F7 & F8 & F9 & F10 & Fnl).
  skip_passes (str "<em>" ++ e ++ str "</em>").
  rewrite replace_newline, line_breaks_id by exact Fnl.
  apply trim_between; reflexivity.
Qed.

Lemma italic_renders_witness :
  advancedMarkdownToHtml (Str (STAR :: str " item" ++ [STAR]))
  = str "<em>" ++ escapeHtml (str " item") ++ str "</em>".
Proof.
  apply (@italic_renders (str " item"));
    reflexivity.
Defined.

(** ** A heading on one line *)

Lemma sub_suffix {A} (x y : list A) :
  sub (x ++ y) (length x) (length x + length y) = y.
Proof.
  pose proof (sub_middle x y []) as H. rewrite app_nil_r in H. exact H.
Qed.

Lemma lacks_no_block l pv : lacks LT l = true -> nowhere block_at pv l = true.
Proof.
  intros H. rewrite <- (app_nil_r l). apply nowhere_block_app; [exact H|].
  intros pv'. reflexivity.
Qed.

(** A pattern anchored at the start of a line matches nowhere inside a
    line. *)
Lemma anchored_inside_line r : forall l pv,
  line_start pv = false -> forallb cls_dot l = true ->
  unmatched (Seq (Bol true) r) pv l.
Proof.
  induction l as [|c t IH]; intros pv Hp Hl.
  - split; [|exact I]. intros pos. destruct pv as [c0|]; [|discriminate Hp].
    cbn [m line_start andb] in *. rewrite Hp. reflexivity.
  - cbn [forallb] in Hl. apply andb_prop in Hl as [Hc Hl]. split.
    + intros pos. destruct pv as [c0|]; [|discriminate Hp].
      cbn [m line_start andb] in *. rewrite Hp. reflexivity.
    + apply IH; [|exact Hl]. unfold cls_dot in Hc.
      apply negb_true_iff in Hc. exact Hc.
Qed.

Lemma anchored_one_line r c t :
  (forall pos, m (Seq (Bol true) r) accept None (c :: t) pos [] = None) ->
  forallb cls_dot (c :: t) = true ->
  unmatched (Seq (Bol true) r) None (c :: t).
Proof.
  intros H0 Hl. split; [exact H0|].
  cbn [forallb] in Hl. apply andb_prop in Hl as [Hc Hl].
  apply anchored_inside_line; [|exact Hl].
  unfold cls_dot in Hc. apply negb_true_iff in Hc. exact Hc.
Qed.

(** A lazy [.*?] runs to the end of the line when what follows it accepts
    nowhere before. *)
Lemma rep_lazy_line k e : forall prev pos cs z,
  forallb cls_dot e = true ->
  (forall pv c t ps, cls_dot c = true -> k pv (c :: t) ps cs = None) ->
  k (prev_after prev e) [] (pos + length e) cs = Some z ->
  rep false cls_dot k 0 prev e pos cs = Some z.
Proof.
  intros prev pos cs z He Hk Hz.
  rewrite <- (app_nil_r e) at 1. apply rep_lazy_first; auto; [|lia].
  intros run1 c run2 pv ps E. apply Hk.
  rewrite forallb_forall in He. apply He. rewrite E.
  apply in_or_app. right. left. reflexivity.
Qed.

Lemma escapeHtml_starts s :
  match s with [] => True | a :: _ => cls_s a = false end ->
  match escapeHtml s with [] => True | a :: _ => cls_s a = false end.
Proof.
  destruct s as [|a t]; [auto|]. intros Ha.
  destruct (escapeHtml_head a t) as [E | [_ (r & E)]]; rewrite E;
    [exact Ha | reflexivity].
Qed.

(** White space, then the rest of the line as group [g], then [last],
    which accepts at the end of the line only. *)
Lemma line_rest_matches (last : regex) (k : cont) g e pos cs :
  forallb cls_dot e = true ->
  match e with [] => True | a :: _ => cls_s a = false end ->
  forall pv z,
  m last k (prev_after (Some 32%N) e) [] (S pos + length e)
    ((g, (S pos, S pos + length e)) :: cs) = Some z ->
  (forall pv' c t ps cs', cls_dot c = true ->
     m last k pv' (c :: t) ps cs' = None) ->
  m (seqs [Rep true 1 cls_s; Grp g (Rep false 0 cls_dot); last]) k
    pv (32%N :: e) pos cs = Some z.
Proof.
  intros Hdot Hhead pv z Hz Hk. cbn [seqs m].
  change (32%N :: e) with ([32%N] ++ e).
  apply rep_greedy_max; [reflexivity | exact Hhead | simpl; lia |].
  cbn [prev_after length]. rewrite Nat.add_1_r.
  apply rep_lazy_line; [exact Hdot | |].
  - intros pv' c t ps Hc. apply (Hk pv' c t ps _ Hc).
  - exact Hz.
Qed.

Lemma eol_inside_line (k : cont) pv c t ps cs :
  cls_dot c = true -> m (Eol true) k pv (c :: t) ps cs = None.
Proof.
  intros Hc. unfold cls_dot in Hc. apply negb_true_iff in Hc.
  cbn [m andb]. rewrite Hc. reflexivity.
Qed.

Lemma heading_not_empty hashes pv pos :
  hashes <> EmptyString ->
  m (re_heading hashes) accept pv [] pos [] = None.
Proof.
  intros Hh. destruct hashes as [|a [|b s]]; [congruence | |];
    (destruct pv as [c0|]; [cbn; destruct (line_terminator c0)|]; reflexivity).
Qed.

Section Heading.

Variable e : jsstring.
Hypothesis Hdot : forallb cls_dot e = true.
Hypothesis Hhead : match e with [] => True | a :: _ => cls_s a = false end.

Lemma h1_matches :
  m (re_heading "#") accept None (HASH :: 32%N :: e) 0 []
  = Some (S (length (32%N :: e)), [(1, (2, 2 + length e))]).
Proof.
  change (m (seqs [Rep true 1 cls_s; Grp 1 (Rep false 0 cls_dot); Eol true])
            accept (Some HASH) (32%N :: e) 1 []
          = Some (1 + 1 + length e, [(1, (1 + 1, 1 + 1 + length e))])).
  apply line_rest_matches;
    [exact Hdot | exact Hhead | reflexivity
    | intros; apply eol_inside_line; assumption].
Qed.

Lemma h2_matches :
  m (re_heading "##") accept None (HASH :: HASH :: 32%N :: e) 0 []
  = Some (S (length (HASH :: 32%N :: e)), [(1, (3, 3 + length e))]).
Proof.
  change (m (seqs [Rep true 1 cls_s; Grp 1 (Rep false 0 cls_dot); Eol true])
            accept (Some HASH) (32%N :: e) 2 []
          = Some (2 + 1 + length e, [(1, (2 + 1, 2 + 1 + length e))])).
  apply line_rest_matches;
    [exact Hdot | exact Hhead | reflexivity
    | intros; apply eol_inside_line; assumption].
Qed.

Lemma h3_matches :
  m (re_heading "###") accept None (HASH :: HASH :: HASH :: 32%N :: e) 0 []
  = Some (S (length (HASH :: HASH :: 32%N :: e)), [(1, (4, 4 + length e))]).
Proof.
  change (m (seqs [Rep true 1 cls_s; Grp 1 (Rep false 0 cls_dot); Eol true])
            accept (Some HASH) (32%N :: e) 3 []
          = Some (3 + 1 + length e, [(1, (3 + 1, 3 + 1 + length e))])).
  apply line_rest_matches;
    [exact Hdot | exact Hhead | reflexivity
    | intros; apply eol_inside_line; assumption].
Qed.

End Heading.

Lemma h1_tag_open y pv :
  nowhere block_at pv (str "<h1>" ++ y) = nowhere block_at pv y.
Proof. peel_tag. Qed.

Lemma h1_tag_close pv : nowhere block_at pv (str "</h1>") = true.
Proof. peel_tag. Qed.

Lemma h2_tag_open y pv :
  nowhere block_at pv (str "<h2>" ++ y) = nowhere block_at pv y.
Proof. peel_tag. Qed.

Lemma h2_tag_close pv : nowhere block_at pv (str "</h2>") = true.
Proof. peel_tag. Qed.

Lemma h3_tag_open y pv :
  nowhere block_at pv (str "<h3>" ++ y) = nowhere block_at pv y.
Proof. peel_tag. Qed.

Lemma h3_tag_close pv : nowhere block_at pv (str "</h3>") = true.
Proof. peel_tag. Qed.

Lemma subst_h1 s mt :
  subst (fun c : N => c) "<h1>$1</h1>" s mt
  = str "<h1>" ++ group s mt 1 ++ str "</h1>".
Proof. reflexivity. Qed.

Lemma subst_h2 s mt :
  subst (fun c : N => c) "<h2>$1</h2>" s mt
  = str "<h2>" ++ group s mt 1 ++ str "</h2>".
Proof. reflexivity. Qed.

Lemma subst_h3 s mt :
  subst (fun c : N => c) "<h3>$1</h3>" s mt
  = str "<h3>" ++ group s mt 1 ++ str "</h3>".
Proof. reflexivity. Qed.

(** What holds of a line [c :: t ++ e] that begins with a [#] and goes on
    with escaped text without backtick or asterisk. *)
Lemma hash_line_facts (t e : jsstring) :
  lacks BT t = true -> lacks STAR t = true -> lacks LT t = true ->
  forallb cls_dot t = true ->
  lacks BT e = true -> lacks STAR e = true -> lacks LT e = true ->
  forallb cls_dot e = true ->
  nowhere (pair_at BT) None (HASH :: t ++ e) = true
  /\ nowhere code_span_at None (HASH :: t ++ e) = true
  /\ nowhere (pair_at STAR) None (HASH :: t ++ e) = true
  /\ lacks STAR (HASH :: t ++ e) = true
  /\ nowhere bullet_at None (HASH :: t ++ e) = true
  /\ nowhere block_at None (HASH :: t ++ e) = true
  /\ nowhere numbering_at None (HASH :: t ++ e) = true
  /\ nowhere paragraph_at None (HASH :: t ++ e) = true
  /\ forallb cls_dot (HASH :: t ++ e) = true.
Proof.
  intros Tbt Tst Tlt Tdot Ebt Est Elt Edot.
  assert (Rbt : lacks BT (HASH :: t ++ e) = true)
    by (change (HASH :: t ++ e) with ([HASH] ++ t ++ e);
        rewrite !lacks_app, Tbt, Ebt; reflexivity).
  assert (Rst : lacks STAR (HASH :: t ++ e) = true)
    by (change (HASH :: t ++ e) with ([HASH] ++ t ++ e);
        rewrite !lacks_app, Tst, Est; reflexivity).
  assert (Rlt : lacks LT (HASH :: t ++ e) = true)
    by (change (HASH :: t ++ e) with ([HASH] ++ t ++ e);
        rewrite !lacks_app, Tlt, Elt; reflexivity).
  assert (Rdot : forallb cls_dot (HASH :: t ++ e) = true)
    by (change (HASH :: t ++ e) with ([HASH] ++ t ++ e);
        rewrite !forallb_app, Tdot, Edot; reflexivity).
  repeat split;
    auto using lacks_no_pair, lacks_no_span, lacks_no_paragraph,
      lacks_no_block.
  - apply (nowhere_one_line bullet_at);
      [apply bullet_needs_start | | exact Rdot].
    unfold bullet_at. cbn [drop_while line_start andb].
    change (cls_s HASH) with false. cbv iota.
    destruct (t ++ e); reflexivity.
  - apply (nowhere_one_line numbering_at);
      [apply numbering_needs_start | | exact Rdot].
    reflexivity.
  - apply lacks_no_paragraph, single_line_lacks_NL, Rdot.
Qed.

Section OneHeading.

Variable c : jsstring.
Hypothesis Hbt : lacks BT c = true.
Hypothesis Hst : lacks STAR c = true.
Hypothesis Hdot : forallb cls_dot c = true.
Hypothesis Hhead : match c with [] => True | a :: _ => cls_s a = false end.

Lemma h1_renders :
  advancedMarkdownToHtml (Str (str "# " ++ c))
  = str "<h1>" ++ escapeHtml c ++ str "</h1>".
Proof.
  rewrite advancedMarkdownToHtml_Str. unfold markdown.
  fold (escapeHtml (str "# " ++ c)).
  rewrite escapeHtml_app. change (escapeHtml (str "# ")) with [HASH; 32%N].
  pose proof (lacks_escape BT c eq_refl Hbt) as Ebt.
  pose proof (lacks_escape STAR c eq_refl Hst) as Est.
  pose proof (lacks_LT_escape c) as Elt.
  pose proof (single_line_escape c Hdot) as Edot.
  pose proof (escapeHtml_starts c Hhead) as Ehead.
  set (e := escapeHtml c) in *.
  destruct (@hash_line_facts [32%N] e eq_refl eq_refl eq_refl eq_refl
              Ebt Est Elt Edot)
    as (G1 & G2 & G3 & G4 & G5 & G6 & G7 & G8 & Gdot).
  change ([HASH; 32%N] ++ e) with (HASH :: [32%N] ++ e).
  assert (Hsub : nowhere subheading_at None (HASH :: [32%N] ++ e) = true).
  { apply (nowhere_one_line subheading_at);
      [apply subheading_needs_start | reflexivity | exact Gdot]. }
  unfold substitute. skip_passes (HASH :: [32%N] ++ e).
  change (HASH :: [32%N] ++ e) with (HASH :: 32%N :: e).
  rewrite (@replace_whole (re_heading "#") _ HASH (32%N :: e) _
             (@h1_matches e Edot Ehead))
    by (intros; apply heading_not_empty; discriminate).
  rewrite subst_h1. unfold group. cbn [caps assoc Nat.eqb].
  change (HASH :: 32%N :: e) with ([HASH; 32%N] ++ e).
  change (2 + length e) with (length [HASH; 32%N] + length e).
  change 2 with (length [HASH; 32%N]) at 1. rewrite sub_suffix.
  destruct (@element_facts (str "<h1>") (str "</h1>") e LT (str "h1>")
              eq_refl eq_refl eq_refl eq_refl eq_refl
              h1_tag_open h1_tag_close eq_refl eq_refl eq_refl
              Ebt Est Elt Edot)
    as (F1 & F2 & F3 & F4 & F5 & F6 & F7 & F8 & F9 & F10 & Fnl).
  skip_passes (str "<h1>" ++ e ++ str "</h1>").
  rewrite replace_newline, line_breaks_id by exact Fnl.
  apply trim_between; reflexivity.
Qed.

Lemma h2_renders :
  advancedMarkdownToHtml (Str (str "## " ++ c))
  = str "<h2>" ++ escapeHtml c ++ str "</h2>".
Proof.
  rewrite advancedMarkdownToHtml_Str. unfold markdown.
  fold (escapeHtml (str "## " ++ c)).
  rewrite escapeHtml_app.
  change (escapeHtml (str "## ")) with [HASH; HASH; 32%N].
  pose proof (lacks_escape BT c eq_refl Hbt) as Ebt.
  pose proof (lacks_escape STAR c eq_refl Hst) as Est.
  pose proof (lacks_LT_escape c) as Elt.
  pose proof (single_line_escape c Hdot) as Edot.
  pose proof (escapeHtml_starts c Hhead) as Ehead.
  set (e := escapeHtml c) in *.
  destruct (@hash_line_facts [HASH; 32%N] e eq_refl eq_refl eq_refl eq_refl
              Ebt Est Elt Edot)
    as (G1 & G2 & G3 & G4 & G5 & G6 & G7 & G8 & Gdot).
  change ([HASH; HASH; 32%N] ++ e) with (HASH :: [HASH; 32%N] ++ e).
  unfold substitute. skip_passes (HASH :: [HASH; 32%N] ++ e).
  rewrite (@pass_unmatched (HASH :: [HASH; 32%N] ++ e) _ (re_heading "###"))
    by (apply (@anchored_one_line
                 (seqs [Lit "###"; Rep true 1 cls_s;
                        Grp 1 (Rep false 0 cls_dot); Eol true]));
        [intros pos; reflexivity | exact Gdot]).
  change (HASH :: [HASH; 32%N] ++ e) with (HASH :: HASH :: 32%N :: e).
  rewrite (@replace_whole (re_heading "##") _ HASH (HASH :: 32%N :: e) _
             (@h2_matches e Edot Ehead))
    by (intros; apply heading_not_empty; discriminate).
  rewrite subst_h2. unfold group. cbn [caps assoc Nat.eqb].
  change (HASH :: HASH :: 32%N :: e) with ([HASH; HASH; 32%N] ++ e).
  change (3 + length e) with (length [HASH; HASH; 32%N] + length e).
  change 3 with (length [HASH; HASH; 32%N]) at 1. rewrite sub_suffix.
  destruct (@element_facts (str "<h2>") (str "</h2>") e LT (str "h2>")
              eq_refl eq_refl eq_refl eq_refl eq_refl
              h2_tag_open h2_tag_close eq_refl eq_refl eq_refl
              Ebt Est Elt Edot)
    as (F1 & F2 & F3 & F4 & F5 & F6 & F7 & F8 & F9 & F10 & Fnl).
  skip_passes (str "<h2>" ++ e ++ str "</h2>").
  rewrite replace_newline, line_breaks_id by exact Fnl.
  apply trim_between; reflexivity.
Qed.

Lemma h3_renders :
  advancedMarkdownToHtml (Str (str "### " ++ c))
  = str "<h3>" ++ escapeHtml c ++ str "</h3>".
Proof.
  rewrite advancedMarkdownToHtml_Str. unfold markdown.
  fold (escapeHtml (str "### " ++ c)).
  rewrite escapeHtml_app.
  change (escapeHtml (str "### ")) with [HASH; HASH; HASH; 32%N].
  pose proof (lacks_escape BT c eq_refl Hbt) as Ebt.
  pose proof (lacks_escape STAR c eq_refl Hst) as Est.
  pose proof (lacks_LT_escape c) as Elt.
  pose proof (single_line_escape c Hdot) as Edot.
  pose proof (escapeHtml_starts c Hhead) as Ehead.
  set (e := escapeHtml c) in *.
  destruct (@hash_line_facts [HASH; HASH; 32%N] e
              eq_refl eq_refl eq_refl eq_refl Ebt Est Elt Edot)
    as (G1 & G2 & G3 & G4 & G5 & G6 & G7 & G8 & Gdot).
  change ([HASH; HASH; HASH; 32%N] ++ e)
    with (HASH :: [HASH; HASH; 32%N] ++ e).
  unfold substitute. skip_passes (HASH :: [HASH; HASH; 32%N] ++ e).
  change (HASH :: [HASH; HASH; 32%N] ++ e)
    with (HASH :: HASH :: HASH :: 32%N :: e).
  rewrite (@replace_whole (re_heading "###") _ HASH
             (HASH :: HASH :: 32%N :: e) _ (@h3_matches e Edot Ehead))
    by (intros; apply heading_not_empty; discriminate).
  rewrite subst_h3. unfold group. cbn [caps assoc Nat.eqb].
  change (HASH :: HASH :: HASH :: 32%N :: e)
    with ([HASH; HASH; HASH; 32%N] ++ e).
  change (4 + length e) with (length [HASH; HASH; HASH; 32%N] + length e).
  change 4 with (length [HASH; HASH; HASH; 32%N]) at 1. rewrite sub_suffix.
  destruct (@element_facts (str "<h3>") (str "</h3>") e LT (str "h3>")
              eq_refl eq_refl eq_refl eq_refl eq_refl
              h3_tag_open h3_tag_close eq_refl eq_refl eq_refl
              Ebt Est Elt Edot)
    as (F1 & F2 & F3 & F4 & F5 & F6 & F7 & F8 & F9 & F10 & Fnl).
  skip_passes (str "<h3>" ++ e ++ str "</h3>").
  rewrite replace_newline, line_breaks_id by exact Fnl.
  apply trim_between; reflexivity.
Qed.

End OneHeading.

(** X17: a text that is one heading line, one to three [#], a space and a
    title on one line without backtick or asterisk that does not begin
    with white space, renders to the [h1], [h2] or [h3] element of that
    level around the escaped title. *)
Theorem heading_renders (c : jsstring) :
  lacks BT c = true -> lacks STAR c = true -> forallb cls_dot c = true ->
  match c with [] => True | a :: _ => cls_s a = false end ->
  advancedMarkdownToHtml (Str (str "# " ++ c))
  = str "<h1>" ++ escapeHtml c ++ str "</h1>"
  /\ advancedMarkdownToHtml (Str (str "## " ++ c))
     = str "<h2>" ++ escapeHtml c ++ str "</h2>"
  /\ advancedMarkdownToHtml (Str (str "### " ++ c))
     = str "<h3>" ++ escapeHtml c ++ str "</h3>".
Proof.
  intros Hbt Hst Hdot Hhead. repeat split.
  - apply h1_renders; assumption.
  - apply h2_renders; assumption.
  - apply h3_renders; assumption.
Qed.

Lemma heading_renders_witness :
  advancedMarkdownToHtml (Str (str "# " ++ str "Newton's 2nd law: F = ma"))
  = str "<h1>" ++ escapeHtml (str "Newton's 2nd law: F = ma") ++ str "</h1>"
  /\ advancedMarkdownToHtml
       (Str (str "## " ++ str "Newton's 2nd law: F = ma"))
     = str "<h2>" ++ escapeHtml (str "Newton's 2nd law: F = ma")
         ++ str "</h2>"
  /\ advancedMarkdownToHtml
       (Str (str "### " ++ str "Newton's 2nd law: F = ma"))
     = str "<h3>" ++ escapeHtml (str "Newton's 2nd law: F = ma")
         ++ str "</h3>".
Proof.
  apply (@heading_renders (str "Newton's 2nd law: F = ma"));
    reflexivity.
Defined.

(** ** A pattern that matches once *)

Lemma upto_app (P : option N -> jsstring -> Prop) : forall x1 x2 prev rest,
  upto P prev x1 (x2 ++ rest) -> upto P (prev_after prev x1) x2 rest ->
  upto P prev (x1 ++ x2) rest.
Proof.
  induction x1 as [|c t IH]; intros x2 prev rest H1 H2; [exact H2|].
  destruct H1 as [Hc H1]. cbn [app upto]. rewrite <- app_assoc.
  split; [exact Hc|]. apply IH; assumption.
Qed.

Lemma upto_heads (P : option N -> jsstring -> Prop) a :
  (forall pv c t, (a =? c)%N = false -> P pv (c :: t)) ->
  forall x prev rest, lacks a x = true -> upto P prev x rest.
Proof.
  intros HP. induction x as [|c t IH]; intros prev rest Hx; [exact I|].
  apply lacks_cons in Hx as [Hc Hx]. split; [apply HP, Hc | apply IH, Hx].
Qed.

Lemma upto_everywhere (P : option N -> jsstring -> Prop) : forall x prev rest,
  upto P prev x rest -> everywhere P (prev_after prev x) rest ->
  everywhere P prev (x ++ rest).
Proof.
  induction x as [|c t IH]; intros prev rest H1 H2; [exact H2|].
  destruct H1 as [Hc H1]. cbn [app everywhere]. split; [exact Hc|].
  apply IH; assumption.
Qed.

Lemma unmatched_parts re x rest :
  upto (fails re) None x rest ->
  unmatched re (prev_after None x) rest ->
  unmatched re None (x ++ rest).
Proof. apply upto_everywhere. Qed.

Lemma prev_after_app : forall x y prev,
  prev_after prev (x ++ y) = prev_after (prev_after prev x) y.
Proof. induction x as [|c t IH]; intros y prev; [reflexivity | apply IH]. Qed.

Lemma scan_upto re : forall x prev rest pos,
  upto (fails re) prev x rest ->
  scan re prev (x ++ rest) pos 0
  = scan re (prev_after prev x) rest (pos + length x) 0.
Proof.
  induction x as [|c t IH]; intros prev rest pos H.
  - cbn [app prev_after length]. rewrite Nat.add_0_r. reflexivity.
  - destruct H as [Hc H]. cbn [app scan prev_after length]. rewrite Hc.
    rewrite IH by exact H.
    replace (pos + S (length t)) with (S pos + length t) by lia.
    reflexivity.
Qed.

Lemma scan_skip_app re : forall y z prev pos,
  scan re prev (y ++ z) pos (length y)
  = scan re (prev_after prev y) z (pos + length y) 0.
Proof.
  induction y as [|c t IH]; intros z prev pos.
  - cbn [app length prev_after]. rewrite Nat.add_0_r. reflexivity.
  - cbn [app length prev_after scan]. rewrite IH.
    replace (pos + S (length t)) with (S pos + length t) by lia.
    reflexivity.
Qed.

Lemma scan_match re y z prev pos cs :
  y <> [] ->
  m re accept prev (y ++ z) pos [] = Some (pos + length y, cs) ->
  scan re prev (y ++ z) pos 0
  = Mtch pos (pos + length y) cs
    :: scan re (prev_after prev y) z (pos + length y) 0.
Proof.
  intros Hy H. destruct y as [|a y']; [congruence|].
  cbn [app scan]. cbn [app] in H. rewrite H. f_equal.
  cbn [length prev_after].
  replace (pos + S (length y') - pos - 1) with (length y') by lia.
  rewrite scan_skip_app.
  replace (pos + S (length y')) with (S pos + length y') by lia.
  reflexivity.
Qed.

(** The pattern matches [y] in [x ++ y ++ z] and nothing else. *)
Lemma replace_one re f x y z cs :
  y <> [] ->
  upto (fails re) None x (y ++ z) ->
  m re accept (prev_after None x) (y ++ z) (length x) []
  = Some (length x + length y, cs) ->
  unmatched re (prev_after None (x ++ y)) z ->
  replace (fun c => c) re f (x ++ y ++ z)
  = x ++ f (x ++ y ++ z) (Mtch (length x) (length x + length y) cs) ++ z.
Proof.
  intros Hy Hx Hm Hz. unfold replace, find_all. rewrite map_id.
  rewrite scan_upto by exact Hx. cbn [Nat.add].
  rewrite (@scan_match re y z _ _ cs Hy Hm).
  rewrite <- prev_after_app, scan_nil by exact Hz.
  cbn [assemble start stop]. unfold sub at 1.
  rewrite Nat.sub_0_r. cbn [skipn].
  rewrite firstn_app, firstn_all, Nat.sub_diag. cbn [firstn].
  rewrite app_nil_r. f_equal. f_equal.
  rewrite app_assoc, <- length_app. rewrite skipn_app, skipn_all.
  rewrite Nat.sub_diag. reflexivity.
Qed.

Lemma replace_all_of re f s cs :
  s <> [] ->
  m re accept None s 0 [] = Some (length s, cs) ->
  (forall pv pos, m re accept pv [] pos [] = None) ->
  replace (fun c => c) re f s = f s (Mtch 0 (length s) cs).
Proof.
  intros Hs Hm Hend. destruct s as [|c t]; [congruence|].
  apply replace_whole; assumption.
Qed.

(** Whatever a pattern matches, its continuation accepted at some later
    place of the text. *)
Lemma m_reaches r : forall k pv l pos cs z,
  m r k pv l pos cs = Some z ->
  exists x l' pv' pos' cs', l = x ++ l' /\ k pv' l' pos' cs' = Some z.
Proof.
  induction r as [p| |r1 IH1 r2 IH2|r1 IH1 r2 IH2|g n p|i r1 IH1|ml|ml
                  |r1 IH1|r1 IH1|p];
    intros k pv l pos cs z H; cbn [m] in H.
  - destruct l as [|c t]; [discriminate H|].
    destruct (p c); [|discriminate H].
    exists [c], t, (Some c), (S pos), cs. auto.
  - exists [], l, pv, pos, cs. auto.
  - apply IH1 in H as (x1 & l1 & pv1 & pos1 & cs1 & -> & H).
    apply IH2 in H as (x2 & l2 & pv2 & pos2 & cs2 & -> & H).
    exists (x1 ++ x2), l2, pv2, pos2, cs2. rewrite app_assoc. auto.
  - destruct (m r1 k pv l pos cs) as [z'|] eqn:E.
    + injection H as ->. apply IH1 in E. exact E.
    + apply IH2 in H. exact H.
  - apply rep_sound in H as (run & rest' & prev' & -> & _ & _ & H).
    exists run, rest', prev', (pos + length run), cs. auto.
  - apply IH1 in H as (x1 & l1 & pv1 & pos1 & cs1 & -> & H).
    exists x1, l1, pv1, pos1, ((i, (pos, pos1)) :: cs1). auto.
  - exists [], l, pv, pos, cs. split; [reflexivity|].
    destruct pv as [c|]; [|exact H].
    destruct (ml && line_terminator c); [exact H | discriminate H].
  - exists [], l, pv, pos, cs. split; [reflexivity|].
    destruct l as [|c t]; [exact H|].
    destruct (ml && line_terminator c); [exact H | discriminate H].
  - destruct (m r1 accept pv l pos cs) as [[e cs']|]; [|discriminate H].
    exists [], l, pv, pos, cs'. auto.
  - destruct (m r1 accept pv l pos cs); [discriminate H|].
    exists [], l, pv, pos, cs. auto.
  - exists [], l, pv, pos, cs. split; [reflexivity|].
    destruct pv as [c|]; [|exact H].
    destruct (p c); [discriminate H | exact H].
Qed.

Lemma seq_reaches r1 r2 k pv l pos cs z :
  m (Seq r1 r2) k pv l pos cs = Some z ->
  exists x l' pv' pos' cs', l = x ++ l' /\ m r2 k pv' l' pos' cs' = Some z.
Proof. intros H. cbn [m] in H. apply m_reaches in H. exact H. Qed.

Lemma lacks_middle c x t : lacks c (x ++ c :: t) = false.
Proof.
  rewrite lacks_app. unfold lacks at 2. cbn [existsb].
  rewrite N.eqb_refl. apply andb_false_r.
Qed.

Lemma li_join_needs_newline pv l pos z :
  m re_li_join accept pv l pos [] = Some z -> lacks NL l = false.
Proof.
  intros H. unfold re_li_join in H. cbn [seqs] in H.
  apply seq_reaches in H as (x & l' & pv' & pos' & cs' & -> & H).
  cbn [m] in H. do 2 step H. only_facts. apply lacks_middle.
Qed.

Lemma ol_join_needs_newline pv l pos z :
  m re_ol_join accept pv l pos [] = Some z -> lacks NL l = false.
Proof.
  intros H. unfold re_ol_join in H. cbn [seqs] in H.
  apply seq_reaches in H as (x1 & l1 & pv1 & pos1 & cs1 & -> & H).
  apply seq_reaches in H as (x2 & l2 & pv2 & pos2 & cs2 & -> & H).
  apply seq_reaches in H as (x3 & l3 & pv3 & pos3 & cs3 & -> & H).
  apply seq_reaches in H as (x4 & l4 & pv4 & pos4 & cs4 & -> & H).
  cbn [m] in H. do 2 step H. only_facts.
  rewrite !app_assoc. apply lacks_middle.
Qed.

(** ** One list item *)

Lemma look_inside_line (k : cont) pv c t ps cs :
  cls_dot c = true ->
  m (Look (Alt (Chr (only NL)) (Eol true))) k pv (c :: t) ps cs = None.
Proof.
  intros Hc. assert (Hn : only NL c = false).
  { unfold only. destruct (N.eqb_spec NL c) as [E|E]; [|reflexivity].
    rewrite <- E in Hc. discriminate Hc. }
  unfold cls_dot in Hc. apply negb_true_iff in Hc.
  cbn [m andb]. rewrite Hn, Hc. reflexivity.
Qed.

Lemma ul_item_matches b e :
  cls_bullet b = true ->
  forallb cls_dot e = true ->
  match e with [] => True | a :: _ => cls_s a = false end ->
  m re_ul_item accept None (b :: 32%N :: e) 0 []
  = Some (S (length (32%N :: e)), [(1, (2, 2 + length e))]).
Proof.
  intros Hb Hdot Hhead.
  change (rep true cls_s
            (m (seqs [Chr cls_bullet; Rep true 1 cls_s;
                      Grp 1 (Rep false 0 cls_dot);
                      Look (Alt (Chr (only NL)) (Eol true))]) accept)
            0 None ([] ++ b :: 32%N :: e) 0 []
          = Some (1 + 1 + length e, [(1, (1 + 1, 1 + 1 + length e))])).
  apply rep_greedy_max;
    [reflexivity | apply bullet_not_space, Hb | simpl; lia |].
  change ((if cls_bullet b
           then m (seqs [Rep true 1 cls_s; Grp 1 (Rep false 0 cls_dot);
                         Look (Alt (Chr (only NL)) (Eol true))])
                  accept (Some b) (32%N :: e) 1 []
           else None)
          = Some (1 + 1 + length e, [(1, (1 + 1, 1 + 1 + length e))])).
  rewrite Hb.
  apply line_rest_matches;
    [exact Hdot | exact Hhead | reflexivity
    | intros; apply look_inside_line; assumption].
Qed.

Lemma ol_item_matches ds e :
  ds <> [] -> forallb cls_d ds = true ->
  forallb cls_dot e = true ->
  match e with [] => True | a :: _ => cls_s a = false end ->
  m re_ol_item accept None (ds ++ DOT :: 32%N :: e) 0 []
  = Some (S (S (length ds)) + length e,
          [(2, (S (S (length ds)), S (S (length ds)) + length e));
           (1, (0, length ds))]).
Proof.
  intros Hne Hds Hdot Hhead.
  change (rep true cls_s
            (m (seqs [Grp 1 (Rep true 1 cls_d); Chr (only DOT);
                      Rep true 1 cls_s; Grp 2 (Rep false 0 cls_dot);
                      Look (Alt (Chr (only NL)) (Eol true))]) accept)
            0 None ([] ++ ds ++ DOT :: 32%N :: e) 0 []
          = Some (S (S (length ds)) + length e,
                  [(2, (S (S (length ds)), S (S (length ds)) + length e));
                   (1, (0, length ds))])).
  apply rep_greedy_max; [reflexivity | | simpl; lia |].
  { destruct ds as [|d ds']; [congruence|]. cbn [forallb] in Hds.
    apply andb_prop in Hds as [Hd _]. apply digit_not_space, Hd. }
  change (rep true cls_d
            (fun pv rs e' cs' =>
               m (seqs [Chr (only DOT); Rep true 1 cls_s;
                        Grp 2 (Rep false 0 cls_dot);
                        Look (Alt (Chr (only NL)) (Eol true))]) accept
                 pv rs e' ((1, (0, e')) :: cs'))
            1 None (ds ++ DOT :: 32%N :: e) 0 []
          = Some (S (S (length ds)) + length e,
                  [(2, (S (S (length ds)), S (S (length ds)) + length e));
                   (1, (0, length ds))])).
  apply rep_greedy_max; [exact Hds | reflexivity | |].
  { destruct ds; [congruence | simpl; lia]. }
  change (m (seqs [Rep true 1 cls_s; Grp 2 (Rep false 0 cls_dot);
                   Look (Alt (Chr (only NL)) (Eol true))]) accept
            (Some DOT) (32%N :: e) (S (length ds)) [(1, (0, length ds))]
          = Some (S (S (length ds)) + length e,
                  [(2, (S (S (length ds)), S (S (length ds)) + length e));
                   (1, (0, length ds))])).
  apply line_rest_matches;
    [exact Hdot | exact Hhead | reflexivity
    | intros; apply look_inside_line; assumption].
Qed.

Lemma item_not_empty pv pos :
  m re_ul_item accept pv [] pos [] = None
  /\ m re_ol_item accept pv [] pos [] = None.
Proof.
  destruct pv as [c0|]; [cbn; destruct (line_terminator c0)|]; split;
    reflexivity.
Qed.

(** *** Wrapping the item *)

Lemma lit_li_needs_item pv pv' l pos cs z :
  m (Lit "<li>") accept pv l pos cs = Some z -> item_at pv' l = true.
Proof. intros H. simpl in H. do 8 step H. only_facts. reflexivity. Qed.

Lemma li_open_needs_item pv l pos z :
  m re_li_open accept pv l pos [] = Some z ->
  item_at pv l = true
  \/ exists c t, l = c :: t /\ item_at (Some c) t = true.
Proof.
  intros H. unfold re_li_open in H. cbn [seqs m] in H.
  assert (Hr : match l with
               | [] => None
               | c :: t =>
                   if except LT c
                   then m (Lit "<li>") accept (Some c) t (S pos)
                          [(1, (pos, S pos))]
                   else None
               end = Some z ->
               exists c t, l = c :: t /\ item_at (Some c) t = true).
  { intros H'. destruct l as [|c t]; [discriminate|].
    destruct (except LT c); [|discriminate].
    exists c, t. split; [reflexivity|].
    exact (lit_li_needs_item _ (Some c) _ _ _ H'). }
  destruct pv as [c0|]; cbn [andb] in H.
  - right. apply Hr, H.
  - destruct (m (Lit "<li>") accept None l pos [(1, (pos, pos))])
      as [z'|] eqn:E0.
    + left. exact (lit_li_needs_item _ None _ _ _ E0).
    + right. apply Hr, H.
Qed.

Lemma unmatched_without_item l prev :
  nowhere item_at prev l = true -> unmatched re_li_open prev l.
Proof.
  intros H. apply nowhere_everywhere, everywhere_nested in H.
  revert H. apply everywhere_impl. intros pv l' Hf pos.
  destruct (m re_li_open accept pv l' pos []) as [z|] eqn:E; [|reflexivity].
  apply li_open_needs_item in E as [E | (c & t & -> & E)].
  - apply everywhere_here in Hf. congruence.
  - destruct Hf as [_ Hf]. apply everywhere_here in Hf. congruence.
Qed.

Lemma item_needs_lt pv c l : (c =? LT)%N = false -> item_at pv (c :: l) = false.
Proof.
  intros H. unfold item_at. change (str "<li>") with [LT; 108; 105; GT]%N.
  cbn [prefix_of]. rewrite (N.eqb_sym LT c), H. reflexivity.
Qed.

Lemma nowhere_item_app : forall x y pv,
  lacks LT x = true ->
  (forall pv', nowhere item_at pv' y = true) ->
  nowhere item_at pv (x ++ y) = true.
Proof.
  induction x as [|a x IH]; intros y pv Hx Hy; [apply Hy|].
  apply lacks_cons in Hx as [Ha Hx]. cbn [app nowhere].
  rewrite item_needs_lt by (rewrite N.eqb_sym; exact Ha).
  cbn [negb andb]. apply IH; assumption.
Qed.

(** The first [<li>] of a string is at its very start: it is given its
    opening list tag. *)
Lemma li_open_item f e c :
  lacks LT e = true ->
  (forall pv, nowhere item_at pv c = true) ->
  replace (fun c => c) re_li_open f (str "<li>" ++ e ++ c)
  = f (str "<li>" ++ e ++ c) (Mtch 0 4 [(1, (0, 0))]) ++ e ++ c.
Proof.
  intros He Hc.
  apply (@replace_one re_li_open f [] (str "<li>") (e ++ c) [(1, (0, 0))]).
  - discriminate.
  - exact I.
  - reflexivity.
  - apply unmatched_without_item, nowhere_item_app; assumption.
Qed.

(** A [<li>] right after the opening tag of an unordered list. *)
Lemma li_open_nested f e c :
  lacks LT e = true ->
  (forall pv, nowhere item_at pv c = true) ->
  replace (fun c => c) re_li_open f (str "<ul" ++ str "><li>" ++ e ++ c)
  = str "<ul"
      ++ f (str "<ul" ++ str "><li>" ++ e ++ c) (Mtch 3 8 [(1, (3, 4))])
      ++ e ++ c.
Proof.
  intros He Hc.
  apply (@replace_one re_li_open f (str "<ul") (str "><li>") (e ++ c)
           [(1, (3, 4))]).
  - discriminate.
  - repeat split; intros pos; reflexivity.
  - reflexivity.
  - apply unmatched_without_item, nowhere_item_app; assumption.
Qed.

Lemma li_close_head pv c t : (LT =? c)%N = false -> fails re_li_close pv (c :: t).
Proof.
  intros H pos. unfold re_li_close. cbn [seqs m].
  change (Lit "</li>")
    with (seqs [Chr (only LT); Chr (only 47%N); Chr (only 108%N);
                Chr (only 105%N); Chr (only GT)]).
  cbn [seqs m]. unfold only at 1. rewrite H. reflexivity.
Qed.

Lemma unwrap_head pv c t : (LT =? c)%N = false -> fails re_unwrap pv (c :: t).
Proof.
  intros H pos. unfold re_unwrap. cbn [seqs m].
  change (Lit "<p>")
    with (seqs [Chr (only LT); Chr (only 112%N); Chr (only GT)]).
  cbn [seqs m]. unfold only at 1. rewrite H. reflexivity.
Qed.

(** The [</li>] that ends the string is given its closing list tag. *)
Lemma li_close_item f o e :
  upto (fails re_li_close) None o (e ++ str "</li>") ->
  lacks LT e = true ->
  replace (fun c => c) re_li_close f (o ++ e ++ str "</li>")
  = o ++ e
      ++ f (o ++ e ++ str "</li>")
           (Mtch (length (o ++ e)) (5 + length (o ++ e))
              [(1, (5 + length (o ++ e), 5 + length (o ++ e)))]).
Proof.
  intros Ho He.
  pose proof (@replace_one re_li_close f (o ++ e) (str "</li>") []
                [(1, (5 + length (o ++ e), 5 + length (o ++ e)))]) as R.
  rewrite !app_nil_r in R. rewrite <- !app_assoc in R.
  replace (length (o ++ e) + length (str "</li>"))
    with (5 + length (o ++ e)) in R by (simpl; lia).
  apply R.
  - discriminate.
  - apply upto_app; [exact Ho|].
    apply (@upto_heads (fails re_li_close) LT); [|exact He].
    intros pv c t. apply li_close_head.
  - reflexivity.
  - split; [intros pos; reflexivity | exact I].
Qed.

Lemma unmatched_tagged re o e c :
  upto (fails re) None o (e ++ c) ->
  (forall pv ch t, (LT =? ch)%N = false -> fails re pv (ch :: t)) ->
  lacks LT e = true ->
  (forall pv, unmatched re pv c) ->
  unmatched re None (o ++ e ++ c).
Proof.
  intros Ho Hre He Hc. rewrite app_assoc. apply unmatched_parts; [|apply Hc].
  apply upto_app; [exact Ho|]. apply (@upto_heads (fails re) LT); assumption.
Qed.

(** What holds of [o ++ e ++ c] on one line, whatever tags [o] and [c]
    are made of. *)
Lemma tagged_line_facts (o c e : jsstring) (a : N) (o' : jsstring) :
  o = a :: o' ->
  cls_s a = false -> cls_bullet a = false -> cls_d a = false ->
  (a =? HASH)%N = false ->
  forallb cls_dot (o ++ c) = true ->
  forallb cls_dot e = true ->
  nowhere bullet_at None (o ++ e ++ c) = true
  /\ nowhere numbering_at None (o ++ e ++ c) = true
  /\ nowhere subheading_at None (o ++ e ++ c) = true
  /\ nowhere heading_at None (o ++ e ++ c) = true
  /\ nowhere paragraph_at None (o ++ e ++ c) = true
  /\ lacks NL (o ++ e ++ c) = true.
Proof.
  intros Ho Hs Hb Hd Hh Hdot Edot.
  rewrite forallb_app in Hdot. apply andb_prop in Hdot as [Odot Cdot].
  assert (Rdot : forallb cls_dot (o ++ e ++ c) = true)
    by (rewrite !forallb_app, Odot, Edot, Cdot; reflexivity).
  assert (Rnl : lacks NL (o ++ e ++ c) = true)
    by apply single_line_lacks_NL, Rdot.
  assert (Rtok : nowhere bullet_at None (o ++ e ++ c) = true
                 /\ nowhere numbering_at None (o ++ e ++ c) = true
                 /\ nowhere heading_at None (o ++ e ++ c) = true).
  { rewrite Ho in *. cbn [app] in *. apply line_tokens; assumption. }
  destruct Rtok as (Rbul & Rnum & Rhead).
  repeat split; auto using lacks_no_paragraph, heading_no_subheading.
Qed.

Lemma sub_at {A} (s x y : list A) a b :
  s = x ++ y -> a = length x -> b = length x + length y -> sub s a b = y.
Proof. intros -> -> ->. apply sub_suffix. Qed.

Lemma class_lacks (p : N -> bool) a : forall l,
  p a = false -> forallb p l = true -> lacks a l = true.
Proof.
  intros l Ha. induction l as [|d l IH]; intros H; [reflexivity|].
  cbn [forallb] in H. apply andb_prop in H as [Hd H].
  unfold lacks in *. cbn [existsb]. rewrite negb_orb, (IH H), andb_true_r.
  destruct (N.eqb_spec a d) as [->|]; [congruence | reflexivity].
Qed.

Lemma digits_lack a ds :
  cls_d a = false -> forallb cls_d ds = true -> lacks a ds = true.
Proof. apply class_lacks. Qed.

Lemma digits_one_line : forall ds,
  forallb cls_d ds = true -> forallb cls_dot ds = true.
Proof.
  induction ds as [|d ds IH]; intros H; [reflexivity|].
  cbn [forallb] in *. apply andb_prop in H as [Hd H]. rewrite (IH H).
  rewrite andb_true_r. revert Hd. classes.
Qed.

Lemma digit_not_bullet d : cls_d d = true -> cls_bullet d = false.
Proof. intros H. classes. Qed.

Lemma subst_item s mt :
  subst (fun c : N => c) "<li>$2</li>" s mt
  = str "<li>" ++ group s mt 2 ++ str "</li>".
Proof. reflexivity. Qed.

Lemma subst_bullet s mt :
  subst (fun c : N => c) "<li>$1</li>" s mt
  = str "<li>" ++ group s mt 1 ++ str "</li>".
Proof. reflexivity. Qed.

Lemma item_close pv : nowhere item_at pv (str "</li>") = true.
Proof. reflexivity. Qed.

Lemma list_close pv : nowhere item_at pv (str "</li></ul>") = true.
Proof. reflexivity. Qed.

(** X18: a text that is one numbered item, digits, a full stop, a space
    and a run of characters on one line without backtick or asterisk that
    does not begin with white space, renders to an ordered list of one
    item; the number itself is dropped. *)
Theorem numbered_item_renders (ds c : jsstring) :
  nonempty ds = true -> forallb cls_d ds = true ->
  lacks BT c = true -> lacks STAR c = true -> forallb cls_dot c = true ->
  match c with [] => True | a :: _ => cls_s a = false end ->
  advancedMarkdownToHtml (Str (ds ++ str ". " ++ c))
  = str "<ol><li>" ++ escapeHtml c ++ str "</li></ol>".
Proof.
  intros Hne Hds Hbt Hst Hdot Hhead. apply nonempty_not_nil in Hne.
  rewrite advancedMarkdownToHtml_Str. unfold markdown.
  fold (escapeHtml (ds ++ str ". " ++ c)).
  rewrite !escapeHtml_app.
  rewrite (escapeHtml_id ds) by (apply digits_lack; [reflexivity | exact Hds]).
  change (escapeHtml (str ". ")) with [DOT; 32%N].
  pose proof (lacks_escape BT c eq_refl Hbt) as Ebt.
  pose proof (lacks_escape STAR c eq_refl Hst) as Est.
  pose proof (lacks_LT_escape c) as Elt.
  pose proof (single_line_escape c Hdot) as Edot.
  pose proof (escapeHtml_starts c Hhead) as Ehead.
  set (e := escapeHtml c) in *.
  change (ds ++ [DOT; 32%N] ++ e) with (ds ++ DOT :: 32%N :: e).
  set (h := ds ++ DOT :: 32%N :: e).
  assert (Hbt' : lacks BT h = true).
  { unfold h. change (DOT :: 32%N :: e) with ([DOT; 32%N] ++ e).
    rewrite !lacks_app, Ebt, (digits_lack BT ds eq_refl Hds). reflexivity. }
  assert (Hst' : lacks STAR h = true).
  { unfold h. change (DOT :: 32%N :: e) with ([DOT; 32%N] ++ e).
    rewrite !lacks_app, Est, (digits_lack STAR ds eq_refl Hds). reflexivity. }
  assert (Hlt' : lacks LT h = true).
  { unfold h. change (DOT :: 32%N :: e) with ([DOT; 32%N] ++ e).
    rewrite !lacks_app, Elt, (digits_lack LT ds eq_refl Hds). reflexivity. }
  assert (Hdot' : forallb cls_dot h = true).
  { unfold h. change (DOT :: 32%N :: e) with ([DOT; 32%N] ++ e).
    rewrite !forallb_app, Edot, (digits_one_line ds Hds). reflexivity. }
  assert (Hbul : nowhere bullet_at None h = true).
  { unfold h in *. destruct ds as [|d ds']; [congruence|].
    cbn [forallb] in Hds. apply andb_prop in Hds as [Hd _].
    revert Hdot'.
    change ((d :: ds') ++ DOT :: 32%N :: e)
      with (d :: (ds' ++ DOT :: 32%N :: e)).
    generalize (ds' ++ DOT :: 32%N :: e). intros r Hr.
    apply (nowhere_one_line bullet_at);
      [apply bullet_needs_start | | exact Hr].
    unfold bullet_at. cbn [drop_while line_start andb].
    rewrite (digit_not_space d Hd), (digit_not_bullet d Hd).
    destruct r; reflexivity. }
  pose proof (lacks_no_pair BT h None Hbt') as G1.
  pose proof (lacks_no_span h None Hbt') as G2.
  pose proof (lacks_no_pair STAR h None Hst') as G3.
  pose proof (lacks_no_block h None Hlt') as G4.
  unfold substitute. skip_passes h.
  assert (Hlen : length h = S (S (length ds)) + length e)
    by (unfold h; rewrite length_app; simpl; lia).
  rewrite (@replace_all_of re_ol_item _ h
             [(2, (S (S (length ds)), S (S (length ds)) + length e));
              (1, (0, length ds))]);
    [ | unfold h; destruct ds; [congruence | discriminate]
      | rewrite Hlen; apply ol_item_matches; assumption
      | intros; apply item_not_empty ].
  rewrite subst_item. unfold group. cbn [caps assoc Nat.eqb].
  rewrite (@sub_at _ h (ds ++ [DOT; 32%N]) e)
    by (unfold h; rewrite <- ?app_assoc, ?length_app; simpl; try lia;
        reflexivity).
  clear G1 G2 G3 G4 Hbul Hbt' Hst' Hlt' Hdot' Hlen. clear h.
  destruct (@tagged_line_facts (str "<li>") (str "</li>") e LT (str "li>")
              eq_refl eq_refl eq_refl eq_refl eq_refl eq_refl Edot)
    as (_ & _ & _ & _ & _ & Fnl).
  rewrite (@pass_unmatched (str "<li>" ++ e ++ str "</li>") _ re_ol_join)
    by (apply (@unmatched_lacks _ NL ol_join_needs_newline), Fnl).
  rewrite li_open_item by (exact Elt || exact item_close).
  change (subst (fun c : N => c) "$1<ol><li>" (str "<li>" ++ e ++ str "</li>")
            (Mtch 0 4 [(1, (0, 0))]))
    with (str "<ol><li>").
  rewrite (@li_close_item _ (str "<ol><li>") e)
    by (exact Elt || (repeat split; intros pos; reflexivity)).
  change (subst (fun c : N => c) "</li></ol>" ?[s] ?[mt])
    with (str "</li></ol>").
  destruct (@tagged_line_facts (str "<ol><li>") (str "</li></ol>") e LT
              (str "ol><li>")
              eq_refl eq_refl eq_refl eq_refl eq_refl eq_refl Edot)
    as (_ & _ & F8 & F9 & F10 & Fnl').
  skip_passes (str "<ol><li>" ++ e ++ str "</li></ol>").
  rewrite (@pass_unmatched (str "<ol><li>" ++ e ++ str "</li></ol>") _
             re_unwrap)
    by (apply unmatched_tagged;
        [ repeat split; intros pos; reflexivity
        | intros pv ch t; apply unwrap_head
        | exact Elt
        | intros pv; repeat split; intros pos; reflexivity ]).
  rewrite replace_newline, line_breaks_id by exact Fnl'.
  apply trim_between; reflexivity.
Qed.

Lemma bullet_cases b :
  cls_bullet b = true -> (b =? STAR)%N = false -> b = 45%N \/ b = 43%N.
Proof.
  unfold cls_bullet. intros H Hs. change STAR with 42%N in Hs. rewrite Hs in H.
  rewrite orb_false_r in H. apply orb_prop in H as [H|H];
    apply N.eqb_eq in H; auto.
Qed.

(** X19: a text that is one bulleted item, a [-] or a [+], a space and a
    run of characters on one line without backtick or asterisk that does
    not begin with white space, renders to an unordered list whose item
    is opened by an ordered-list tag that is never closed: the second
    tidying of list items finds the [<li>] right after [<ul>]. *)
Theorem bullet_item_renders (b : N) (c : jsstring) :
  cls_bullet b = true -> (b =? STAR)%N = false ->
  lacks BT c = true -> lacks STAR c = true -> forallb cls_dot c = true ->
  match c with [] => True | a :: _ => cls_s a = false end ->
  advancedMarkdownToHtml (Str (b :: 32%N :: c))
  = str "<ul><ol><li>" ++ escapeHtml c ++ str "</li></ul>".
Proof.
  intros Hb Hbs Hbt Hst Hdot Hhead.
  rewrite advancedMarkdownToHtml_Str. unfold markdown.
  fold (escapeHtml (b :: 32%N :: c)).
  assert (Eh : escapeHtml (b :: 32%N :: c) = b :: 32%N :: escapeHtml c)
    by (destruct (bullet_cases b Hb Hbs) as [-> | ->]; reflexivity).
  rewrite Eh. clear Eh.
  pose proof (lacks_escape BT c eq_refl Hbt) as Ebt.
  pose proof (lacks_escape STAR c eq_refl Hst) as Est.
  pose proof (lacks_LT_escape c) as Elt.
  pose proof (single_line_escape c Hdot) as Edot.
  pose proof (escapeHtml_starts c Hhead) as Ehead.
  set (e := escapeHtml c) in *.
  set (h := b :: 32%N :: e).
  assert (Hbt' : lacks BT h = true).
  { unfold h. change (b :: 32%N :: e) with ([b; 32%N] ++ e).
    rewrite lacks_app, Ebt.
    destruct (bullet_cases b Hb Hbs) as [-> | ->]; reflexivity. }
  assert (Hst' : lacks STAR h = true).
  { unfold h. change (b :: 32%N :: e) with ([b; 32%N] ++ e).
    rewrite lacks_app, Est.
    destruct (bullet_cases b Hb Hbs) as [-> | ->]; reflexivity. }
  pose proof (lacks_no_pair BT h None Hbt') as G1.
  pose proof (lacks_no_span h None Hbt') as G2.
  pose proof (lacks_no_pair STAR h None Hst') as G3.
  unfold substitute. skip_passes h. unfold h.
  rewrite (@replace_whole re_ul_item _ b (32%N :: e) _
             (@ul_item_matches b e Hb Edot Ehead))
    by (intros; apply item_not_empty).
  rewrite subst_bullet. unfold group. cbn [caps assoc Nat.eqb].
  rewrite (@sub_at _ (b :: 32%N :: e) [b; 32%N] e) by reflexivity.
  clear G1 G2 G3 Hbt' Hst'. clear h.
  destruct (@tagged_line_facts (str "<li>") (str "</li>") e LT (str "li>")
              eq_refl eq_refl eq_refl eq_refl eq_refl eq_refl Edot)
    as (_ & _ & _ & _ & _ & Fnl).
  rewrite (@pass_unmatched (str "<li>" ++ e ++ str "</li>") _ re_li_join)
    by (apply (@unmatched_lacks _ NL li_join_needs_newline), Fnl).
  rewrite li_open_item by (exact Elt || exact item_close).
  change (subst (fun c : N => c) "$1<ul><li>" (str "<li>" ++ e ++ str "</li>")
            (Mtch 0 4 [(1, (0, 0))]))
    with (str "<ul><li>").
  rewrite (@li_close_item _ (str "<ul><li>") e)
    by (exact Elt || (repeat split; intros pos; reflexivity)).
  change (subst (fun c : N => c) "</li></ul>" ?[s] ?[mt])
    with (str "</li></ul>").
  destruct (@tagged_line_facts (str "<ul><li>") (str "</li></ul>") e LT
              (str "ul><li>")
              eq_refl eq_refl eq_refl eq_refl eq_refl eq_refl Edot)
    as (_ & F7 & _ & _ & _ & Fnl2).
  skip_passes (str "<ul><li>" ++ e ++ str "</li></ul>").
  rewrite (@pass_unmatched (str "<ul><li>" ++ e ++ str "</li></ul>") _
             re_ol_join)
    by (apply (@unmatched_lacks _ NL ol_join_needs_newline), Fnl2).
  change (str "<ul><li>" ++ e ++ str "</li></ul>")
    with (str "<ul" ++ str "><li>" ++ e ++ str "</li></ul>").
  rewrite li_open_nested by (exact Elt || exact list_close).
  change (str "<ul"
            ++ subst (fun c : N => c) "$1<ol><li>"
                 (str "<ul" ++ str "><li>" ++ e ++ str "</li></ul>")
                 (Mtch 3 8 [(1, (3, 4))])
            ++ e ++ str "</li></ul>")
    with (str "<ul><ol><li>" ++ e ++ str "</li></ul>").
  rewrite (@pass_unmatched (str "<ul><ol><li>" ++ e ++ str "</li></ul>") _
             re_li_close)
    by (apply unmatched_tagged;
        [ repeat split; intros pos; reflexivity
        | intros pv ch t; apply li_close_head
        | exact Elt
        | intros pv; repeat split; intros pos; reflexivity ]).
  destruct (@tagged_line_facts (str "<ul><ol><li>") (str "</li></ul>") e LT
              (str "ul><ol><li>")
              eq_refl eq_refl eq_refl eq_refl eq_refl eq_refl Edot)
    as (_ & _ & F8 & F9 & F10 & Fnl4).
  skip_passes (str "<ul><ol><li>" ++ e ++ str "</li></ul>").
  rewrite (@pass_unmatched (str "<ul><ol><li>" ++ e ++ str "</li></ul>") _
             re_unwrap)
    by (apply unmatched_tagged;
        [ repeat split; intros pos; reflexivity
        | intros pv ch t; apply unwrap_head
        | exact Elt
        | intros pv; repeat split; intros pos; reflexivity ]).
  rewrite replace_newline, line_breaks_id by exact Fnl4.
  apply trim_between; reflexivity.
Qed.

Lemma bullet_item_renders_witness :
  advancedMarkdownToHtml (Str (45%N :: 32%N :: str "mass > 0"))
  = str "<ul><ol><li>" ++ escapeHtml (str "mass > 0") ++ str "</li></ul>".
Proof.
  apply (@bullet_item_renders 45%N (str "mass > 0")); reflexivity.
Defined.

Lemma numbered_item_renders_witness :
  advancedMarkdownToHtml (Str (str "12" ++ str ". " ++ str "solve for x"))
  = str "<ol><li>" ++ escapeHtml (str "solve for x") ++ str "</li></ol>".
Proof.
  apply (@numbered_item_renders (str "12") (str "solve for x"));
    reflexivity.
Defined.

(** ** Two paragraphs *)

Lemma para_needs_newline pv c t :
  (NL =? c)%N = false -> fails re_para pv (c :: t).
Proof.
  intros H pos. unfold re_para. cbn [seqs m]. unfold only at 1.
  rewrite H. reflexivity.
Qed.

Lemma para_matches eb pv pos :
  eb <> [] -> lacks NL eb = true ->
  m re_para accept pv (NL :: NL :: eb) pos []
  = Some (S (S pos) + length eb, [(1, (S (S pos), S (S pos) + length eb))]).
Proof.
  intros Hne Hnl.
  change (rep false cls_any
            (fun pv' rs e' cs' =>
               m (Look (Alt (Seq (Chr (only NL)) (Chr (only NL))) (Eol false)))
                 accept pv' rs e' ((1, (S (S pos), e')) :: cs'))
            1 (Some NL) eb (S (S pos)) []
          = Some (S (S pos) + length eb,
                  [(1, (S (S pos), S (S pos) + length eb))])).
  rewrite <- (app_nil_r eb) at 1. apply rep_lazy_first.
  - clear. induction eb as [|a t IH]; [reflexivity | exact IH].
  - intros run1 c run2 pv' ps E.
    assert (Hc : only NL c = false).
    { rewrite E, lacks_app in Hnl. apply andb_prop in Hnl as [_ Hnl].
      apply lacks_cons in Hnl as [Hc _]. exact Hc. }
    cbn [m andb]. rewrite Hc. reflexivity.
  - destruct eb; [congruence | simpl; lia].
  - reflexivity.
Qed.

Lemma prefix_needs_head a p : forall s,
  lacks a s = true -> prefix_of (a :: p) s = false.
Proof.
  intros [|c t] H; [reflexivity|]. apply lacks_cons in H as [Hc _].
  cbn [prefix_of]. rewrite Hc. reflexivity.
Qed.

Lemma includes_needs_head a p : forall s,
  lacks a s = true -> includes (a :: p) s = false.
Proof.
  induction s as [|c t IH]; intros H; [reflexivity|].
  cbn [includes]. rewrite (@prefix_needs_head a p _ H).
  apply lacks_cons in H as [_ H]. rewrite (IH H). reflexivity.
Qed.

(** Text without [<] after a blank line is wrapped in a paragraph. *)
Lemma fn_para_wraps s mt content :
  group s mt 1 = content -> lacks LT content = true ->
  fn_para (fun c : N => c) (fun c : N => c) s mt
  = NL :: NL :: str "<p>" ++ content ++ str "</p>".
Proof.
  intros Hg Hlt. unfold fn_para. rewrite Hg, !map_id.
  change (str "<") with [LT]. change (str "</") with [LT; 47%N].
  change (str "<li>") with [LT; 108; 105; GT]%N.
  change (str "<code>") with [LT; 99; 111; 100; 101; GT]%N.
  fold (js_trim content).
  rewrite (@prefix_needs_head LT [] _ (lacks_trim LT content Hlt)).
  rewrite !includes_needs_head by exact Hlt.
  unfold lits. rewrite !map_id. reflexivity.
Qed.

Lemma unwrap_needs_tag pv c t :
  (LT =? c)%N = false -> fails re_unwrap pv (str "<p>" ++ c :: t).
Proof.
  intros H pos. unfold re_unwrap. cbn [seqs m].
  change (Lit "<p>")
    with (seqs [Chr (only LT); Chr (only 112%N); Chr (only GT)]).
  cbn [seqs m app str]. change (str "<p>") with [LT; 112; GT]%N.
  cbn [app]. change (only LT LT) with true. change (only 112%N 112%N) with true.
  change (only GT GT) with true. cbv iota. unfold only. rewrite H.
  reflexivity.
Qed.

Lemma line_breaks_app x y : line_breaks (x ++ y) = line_breaks x ++ line_breaks y.
Proof. apply flat_map_app. Qed.

(** X20: in a text without markdown tokens that is one line, a blank line
    and one more line that is not empty, only what follows the blank line
    becomes a paragraph element; the first line stays bare and the blank
    line becomes two line breaks. *)
Theorem second_paragraph_wrapped (a b : jsstring) :
  markdown_free (a ++ NL :: NL :: b) = true ->
  forallb cls_dot a = true -> forallb cls_dot b = true ->
  nonempty b = true ->
  advancedMarkdownToHtml (Str (a ++ NL :: NL :: b))
  = js_trim (escapeHtml a ++ str "<br><br><p>" ++ escapeHtml b ++ str "</p>").
Proof.
  unfold markdown_free. intros H Ha Hb Hne. apply nonempty_not_nil in Hne.
  repeat (apply andb_prop in H as [H ?]).
  rewrite advancedMarkdownToHtml_Str. unfold markdown.
  fold (escapeHtml (a ++ NL :: NL :: b)).
  pose proof (lacks_escape BT _ eq_refl H) as Hbt.
  pose proof (lacks_escape STAR _ eq_refl H3) as Hst.
  pose proof (@nowhere_escape heading_at heading_entity heading_back _
                None None (fun x => x) H2) as Hhead.
  pose proof (@nowhere_escape bullet_at bullet_entity bullet_back _
                None None (fun x => x) H1) as Hbul.
  pose proof (@nowhere_escape numbering_at numbering_entity numbering_back _
                None None (fun x => x) H0) as Hnum.
  pose proof (lacks_LT_escape (a ++ NL :: NL :: b)) as Hlt.
  pose proof (lacks_LT_escape a) as Alt.
  pose proof (lacks_LT_escape b) as Blt.
  pose proof (single_line_lacks_NL _ (single_line_escape a Ha)) as Anl.
  pose proof (single_line_lacks_NL _ (single_line_escape b Hb)) as Bnl.
  pose proof (escapeHtml_nonempty Hne) as Bne.
  revert Hbt Hst Hhead Hbul Hnum Hlt.
  rewrite escapeHtml_app.
  change (escapeHtml (NL :: NL :: b)) with (NL :: NL :: escapeHtml b).
  set (ea := escapeHtml a) in *. set (eb := escapeHtml b) in *.
  intros Hbt Hst Hhead Hbul Hnum Hlt.
  pose proof (lacks_no_pair BT _ None Hbt) as G1.
  pose proof (lacks_no_span _ None Hbt) as G2.
  pose proof (lacks_no_pair STAR _ None Hst) as G3.
  pose proof (lacks_no_block _ None Hlt) as G4.
  pose proof (heading_no_subheading _ None Hhead) as G5.
  unfold substitute. skip_passes (ea ++ NL :: NL :: eb).
  pose proof (@replace_one re_para (@fn_para N (fun c => c) (fun c => c))
                ea (NL :: NL :: eb) []
                [(1, (S (S (length ea)), S (S (length ea)) + length eb))])
    as R.
  rewrite !app_nil_r in R.
  replace (length ea + length (NL :: NL :: eb))
    with (S (S (length ea)) + length eb) in R by (simpl; lia).
  rewrite R; clear R.
  2: discriminate.
  2: { apply (@upto_heads (fails re_para) NL); [|exact Anl].
       intros pv c t. apply para_needs_newline. }
  2: { apply para_matches; assumption. }
  2: { split; [intros pos; reflexivity | exact I]. }
  rewrite (@fn_para_wraps _ _ eb) by
    (exact Blt ||
     (unfold group; cbn [caps assoc Nat.eqb];
      apply (@sub_at _ _ (ea ++ [NL; NL]) eb);
      [ rewrite <- app_assoc; reflexivity
      | rewrite length_app; simpl; lia
      | rewrite length_app; simpl; lia ])).
  rewrite (@pass_unmatched
             (ea ++ NL :: NL :: str "<p>" ++ eb ++ str "</p>") _ re_unwrap).
  2: { change (ea ++ NL :: NL :: str "<p>" ++ eb ++ str "</p>")
         with (ea ++ [NL; NL] ++ str "<p>" ++ eb ++ str "</p>").
       rewrite app_assoc. apply unmatched_parts.
       - apply (@upto_heads (fails re_unwrap) LT).
         + intros pv c t. apply unwrap_head.
         + rewrite lacks_app, Alt. reflexivity.
       - generalize (prev_after None (ea ++ [NL; NL])). intros pv.
         destruct eb as [|c0 t0] eqn:Eeb; [congruence|].
         apply lacks_cons in Blt as [Hc0 Ht0].
         change (str "<p>" ++ (c0 :: t0) ++ str "</p>")
           with ([LT] ++ [112%N; GT] ++ (c0 :: t0) ++ str "</p>").
         split; [apply (@unwrap_needs_tag pv c0 (t0 ++ str "</p>") Hc0)|].
         cbn [app]. split; [intros pos; reflexivity|].
         split; [intros pos; reflexivity|].
         change (everywhere (fails re_unwrap) (Some GT)
                   ((c0 :: t0) ++ str "</p>")).
         apply upto_everywhere.
         + apply (@upto_heads (fails re_unwrap) LT).
           * intros pv' c t. apply unwrap_head.
           * unfold lacks. cbn [existsb]. rewrite Hc0.
             exact Ht0.
         + repeat split; intros pos; reflexivity. }
  rewrite replace_newline.
  change (ea ++ NL :: NL :: str "<p>" ++ eb ++ str "</p>")
    with (ea ++ [NL; NL] ++ str "<p>" ++ eb ++ str "</p>").
  rewrite !line_breaks_app, (line_breaks_id ea Anl), (line_breaks_id eb Bnl).
  reflexivity.
Qed.

Lemma second_paragraph_wrapped_witness :
  advancedMarkdownToHtml
    (Str (str "Given: v = 3 m/s" ++ NL :: NL :: str "Find the distance."))
  = js_trim (escapeHtml (str "Given: v = 3 m/s") ++ str "<br><br><p>"
               ++ escapeHtml (str "Find the distance.") ++ str "</p>").
Proof.
  apply (@second_paragraph_wrapped (str "Given: v = 3 m/s")
           (str "Find the distance."));
    reflexivity.
Defined.

(** ** A fenced code block *)

Lemma fence_matches lang eb :
  forallb cls_lower lang = true -> lacks BT eb = true ->
  m re_fence accept None (str "```" ++ lang ++ NL :: eb ++ NL :: str "```") 0 []
  = Some (S (S (S (S (S (3 + length lang) + length eb)))),
          [(2, (S (3 + length lang), S (3 + length lang) + length eb));
           (1, (3, 3 + length lang))]).
Proof.
  intros Hl Hbt.
  change (rep true cls_lower
            (fun pv rs e' cs' =>
               m (seqs [Chr (only NL); Grp 2 (Rep false 0 cls_any);
                        Chr (only NL); Lit "```"]) accept
                 pv rs e' ((1, (3, e')) :: cs'))
            0 (Some BT) (lang ++ NL :: eb ++ NL :: str "```") 3 []
          = Some (S (S (S (S (S (3 + length lang) + length eb)))),
                  [(2, (S (3 + length lang), S (3 + length lang) + length eb));
                   (1, (3, 3 + length lang))])).
  apply rep_greedy_max; [exact Hl | reflexivity | lia |].
  change (rep false cls_any
            (fun pv rs e' cs' =>
               m (Seq (Chr (only NL)) (Lit "```")) accept
                 pv rs e' ((2, (S (3 + length lang), e')) :: cs'))
            0 (Some NL) (eb ++ NL :: str "```") (S (3 + length lang))
            [(1, (3, 3 + length lang))]
          = Some (S (S (S (S (S (3 + length lang) + length eb)))),
                  [(2, (S (3 + length lang), S (3 + length lang) + length eb));
                   (1, (3, 3 + length lang))])).
  apply rep_lazy_first.
  - clear. induction eb as [|a t IH]; [reflexivity | exact IH].
  - intros run1 c run2 pv ps E.
    rewrite E, lacks_app in Hbt. apply andb_prop in Hbt as [_ Hbt].
    apply lacks_cons in Hbt as [_ Hbt].
    cbn [m]. destruct (only NL c); [|reflexivity].
    change (Lit "```")
      with (seqs [Chr (only BT); Chr (only BT); Chr (only BT)]).
    cbn [seqs m]. destruct run2 as [|d r]; [reflexivity|].
    apply lacks_cons in Hbt as [Hd _]. cbn [app]. unfold only at 1.
    rewrite Hd. reflexivity.
  - lia.
  - reflexivity.
Qed.

Lemma fence_not_empty pv pos : m re_fence accept pv [] pos [] = None.
Proof. reflexivity. Qed.

Lemma fn_fence_tags s mt language code :
  group s mt 1 = language -> group s mt 2 = code ->
  fn_fence (fun c : N => c) (fun c : N => c) s mt
  = str "<pre><code" ++ language_class language ++ str ">" ++ js_trim code
      ++ str "</code></pre>".
Proof.
  intros H1 H2. unfold fn_fence, language_class, lits. rewrite H1, H2.
  rewrite !map_id. destruct language; reflexivity.
Qed.

Lemma class_one_line (p : N -> bool) :
  (forall c, p c = true -> cls_dot c = true) ->
  forall l, forallb p l = true -> forallb cls_dot l = true.
Proof.
  intros Hp. induction l as [|a l IH]; intros H; [reflexivity|].
  cbn [forallb] in *. apply andb_prop in H as [Ha H].
  rewrite (Hp a Ha), (IH H). reflexivity.
Qed.

Lemma lower_one_line c : cls_lower c = true -> cls_dot c = true.
Proof. intros H. classes. Qed.

Lemma language_class_facts language :
  forallb cls_lower language = true ->
  lacks BT (language_class language) = true
  /\ lacks STAR (language_class language) = true
  /\ lacks LT (language_class language) = true
  /\ lacks NL (language_class language) = true.
Proof.
  intros H. unfold language_class. destruct language as [|a l]; [auto|].
  set (lang := a :: l) in *.
  repeat split; rewrite !lacks_app.
  - rewrite (@class_lacks cls_lower BT lang eq_refl H). reflexivity.
  - rewrite (@class_lacks cls_lower STAR lang eq_refl H). reflexivity.
  - rewrite (@class_lacks cls_lower LT lang eq_refl H). reflexivity.
  - rewrite (@class_lacks cls_lower NL lang eq_refl H). reflexivity.
Qed.

(** *** Tokens of a text that goes on with a tag *)

Lemma drop_while_all {A} (f : A -> bool) (x y : list A) :
  drop_while f x = [] -> drop_while f (x ++ y) = drop_while f y.
Proof.
  induction x as [|a x IH]; simpl; [reflexivity|].
  destruct (f a); [exact IH | discriminate].
Qed.

Lemma heading_less pv l t :
  heading_at pv (l ++ LT :: t) = true -> heading_at pv l = true.
Proof.
  unfold heading_at. destruct l as [|c l]; [|auto].
  cbn [app]. change (LT =? HASH)%N with false. rewrite andb_false_r.
  discriminate.
Qed.

Lemma bullet_less pv l t :
  bullet_at pv (l ++ LT :: t) = true -> bullet_at pv l = true.
Proof.
  unfold bullet_at. intros H. apply andb_prop in H as [H1 H2]. rewrite H1.
  cbn [andb]. destruct (drop_while cls_s l) as [|c [|d r]] eqn:E.
  - rewrite (drop_while_all cls_s l (LT :: t) E) in H2.
    change (drop_while cls_s (LT :: t)) with (LT :: t) in H2.
    destruct t; [discriminate H2|].
    change (cls_bullet LT) with false in H2. discriminate H2.
  - rewrite (drop_while_app cls_s l (LT :: t) E) in H2.
    cbn [app] in H2. change (cls_s LT) with false in H2.
    rewrite andb_false_r in H2. discriminate H2.
  - rewrite (drop_while_app cls_s l (LT :: t) E) in H2. exact H2.
Qed.

Lemma numbering_less pv l t :
  numbering_at pv (l ++ LT :: t) = true -> numbering_at pv l = true.
Proof.
  unfold numbering_at. intros H. apply andb_prop in H as [H1 H2]. rewrite H1.
  cbn [andb]. destruct (drop_while cls_s l) as [|d u] eqn:E.
  - rewrite (drop_while_all cls_s l (LT :: t) E) in H2.
    change (drop_while cls_s (LT :: t)) with (LT :: t) in H2.
    change (cls_d LT) with false in H2. discriminate H2.
  - rewrite (drop_while_app cls_s l (LT :: t) E) in H2.
    apply andb_prop in H2 as [H2 H3]. rewrite H2. cbn [andb].
    destruct (drop_while cls_d u) as [|c [|w r]] eqn:E'.
    + rewrite (drop_while_all cls_d u (LT :: t) E') in H3.
      change (drop_while cls_d (LT :: t)) with (LT :: t) in H3.
      destruct t; [discriminate H3|].
      change (LT =? DOT)%N with false in H3. discriminate H3.
    + rewrite (drop_while_app cls_d u (LT :: t) E') in H3.
      cbn [app] in H3. change (cls_s LT) with false in H3.
      rewrite andb_false_r in H3. discriminate H3.
    + rewrite (drop_while_app cls_d u (LT :: t) E') in H3. exact H3.
Qed.

Lemma pair_less c pv l t :
  (LT =? c)%N = false ->
  pair_at c pv (l ++ LT :: t) = true -> pair_at c pv l = true.
Proof.
  intros Hc. destruct l as [|a [|b l]]; cbn [app pair_at]; [| |auto].
  - destruct t as [|b t]; cbn [pair_at]; [discriminate|].
    rewrite Hc. discriminate.
  - rewrite Hc, andb_false_r. discriminate.
Qed.

Section Tagged.

Variable f : option N -> jsstring -> bool.
Hypothesis f_less : forall pv l t, f pv (l ++ LT :: t) = true -> f pv l = true.

Lemma nowhere_app_tag t : forall l pv,
  nowhere f pv l = true ->
  (forall pv', nowhere f pv' (LT :: t) = true) ->
  nowhere f pv (l ++ LT :: t) = true.
Proof.
  induction l as [|a l IH]; intros pv H Ht; [apply Ht|].
  cbn [nowhere] in H. apply andb_prop in H as [H1 H2].
  apply negb_true_iff in H1. cbn [app nowhere].
  rewrite (IH _ H2 Ht), andb_true_r. apply negb_true_iff.
  destruct (f pv (a :: l ++ LT :: t)) eqn:E; [|reflexivity].
  apply (@f_less pv (a :: l) t) in E. congruence.
Qed.

End Tagged.

Section TrimmedAt.

Variable f : option N -> jsstring -> bool.
Hypothesis f_more : forall pv x y, f pv x = true -> f pv (x ++ y) = true.

Lemma nowhere_drop_while_at pv' : forall s pv,
  nowhere f pv s = true ->
  f pv' (drop_while cls_s s) = false ->
  nowhere f pv' (drop_while cls_s s) = true.
Proof.
  induction s as [|a t IH]; intros pv H H0.
  - simpl in *. rewrite H0. reflexivity.
  - cbn [drop_while] in *. cbn [nowhere] in H. apply andb_prop in H as [_ H].
    destruct (cls_s a); [exact (IH _ H H0)|].
    cbn [nowhere]. rewrite H0, H. reflexivity.
Qed.

Lemma nowhere_trim_at s pv pv' :
  nowhere f pv s = true ->
  f pv' (drop_while cls_s s) = false ->
  nowhere f pv' (js_trim s) = true.
Proof.
  intros H H0. destruct (trim_split s) as [tail E].
  apply (@nowhere_prefix f f_more (js_trim s) pv' tail). rewrite <- E.
  apply (@nowhere_drop_while_at pv' s pv H H0).
Qed.

End TrimmedAt.

Lemma pair_more c pv x y :
  pair_at c pv x = true -> pair_at c pv (x ++ y) = true.
Proof. destruct x as [|a [|b x]]; try discriminate. auto. Qed.

Lemma pair_entity pv c l :
  entity_char c = true -> pair_at NL pv (c :: l) = false.
Proof.
  intros H. destruct (entity_facts c H) as (_ & _ & Hn & _).
  destruct l as [|b l]; [reflexivity|]. cbn [pair_at]. rewrite Hn. reflexivity.
Qed.

Lemma pair_back pv pv' l :
  (line_start pv' = true -> line_start pv = true) ->
  pair_at NL pv' (escapeHtml l) = true -> pair_at NL pv l = true.
Proof.
  intros _ H. destruct l as [|a t]; [discriminate|].
  destruct (escapeHtml_head a t) as [Ea | [_ (r & Ea)]]; rewrite Ea in H.
  2:{ rewrite pair_entity in H by reflexivity. discriminate. }
  destruct t as [|b t']; [discriminate|].
  destruct (escapeHtml_head b t') as [Eb | [_ (r & Eb)]]; rewrite Eb in H.
  - exact H.
  - cbn [pair_at] in H. change (AMP =? NL)%N with false in H.
    rewrite andb_false_r in H. discriminate.
Qed.

Lemma pair_no_paragraph l pv :
  nowhere (pair_at NL) pv l = true -> nowhere paragraph_at pv l = true.
Proof.
  apply nowhere_impl. intros pv' l' H.
  destruct l' as [|a [|b [|d t]]]; try discriminate. exact H.
Qed.

Lemma nowhere_pair_prefix : forall o rest pv pv',
  lacks NL o = true ->
  nowhere (pair_at NL) pv' rest = true ->
  nowhere (pair_at NL) pv (o ++ rest) = true.
Proof.
  induction o as [|a o IH]; intros rest pv pv' Ho H.
  - destruct rest; exact H.
  - apply lacks_cons in Ho as [Ha Ho]. cbn [app nowhere].
    rewrite (IH rest (Some a) pv' Ho H), andb_true_r.
    destruct (o ++ rest); [reflexivity|]. cbn [pair_at].
    rewrite (N.eqb_sym a NL), Ha. reflexivity.
Qed.

(** A token that needs the start of a line, in a text that begins with a
    line [o] without it. *)
Lemma nowhere_line_prefix f a o rest :
  (forall pv l, line_start pv = false -> f pv l = false) ->
  f None ((a :: o) ++ rest) = false ->
  forallb cls_dot (a :: o) = true ->
  nowhere f (prev_after None (a :: o)) rest = true ->
  nowhere f None ((a :: o) ++ rest) = true.
Proof.
  intros Hf H0 Hdot Hrest. cbn [app nowhere]. cbn [app] in H0. rewrite H0.
  cbn [negb andb prev_after] in *. cbn [forallb] in Hdot.
  apply andb_prop in Hdot as [Ha Hdot]. clear H0.
  revert a Ha Hrest. induction o as [|b o IH]; intros a Ha Hrest.
  - exact Hrest.
  - cbn [forallb] in Hdot. apply andb_prop in Hdot as [Hb Hdot].
    cbn [app nowhere]. rewrite Hf.
    + cbn [negb andb]. apply IH; assumption.
    + unfold cls_dot in Ha. apply negb_true_iff in Ha. exact Ha.
Qed.

Lemma sub_mid_at {A} (s x y z : list A) a b :
  s = x ++ y ++ z -> a = length x -> b = length x + length y -> sub s a b = y.
Proof. intros -> -> ->. apply sub_middle. Qed.

Lemma pre_tag_open y pv :
  nowhere block_at pv (str "<pre><code" ++ y) = nowhere block_at pv y.
Proof. peel_tag. Qed.

Lemma pre_tag_close pv : nowhere block_at pv (str "</code></pre>") = true.
Proof. peel_tag. Qed.

Lemma pre_close_tokens pv :
  nowhere bullet_at pv (LT :: str "/code></pre>") = true
  /\ nowhere numbering_at pv (LT :: str "/code></pre>") = true
  /\ nowhere heading_at pv (LT :: str "/code></pre>") = true
  /\ nowhere (pair_at NL) pv (LT :: str "/code></pre>") = true.
Proof.
  repeat split.
  - change (negb (bullet_at pv (LT :: str "/code></pre>")) && true = true).
    unfold bullet_at. destruct (line_start pv); reflexivity.
  - change (negb (numbering_at pv (LT :: str "/code></pre>")) && true = true).
    unfold numbering_at. destruct (line_start pv); reflexivity.
  - change (negb (heading_at pv (LT :: str "/code></pre>")) && true = true).
    unfold heading_at. destruct (line_start pv); reflexivity.
Qed.

Lemma pair_trimmed s pv : pair_at NL pv (drop_while cls_s s) = false.
Proof.
  destruct (drop_while cls_s s) as [|a [|b t]] eqn:E; try reflexivity.
  apply drop_while_head in E. cbn [pair_at].
  destruct (N.eqb_spec a NL) as [->|]; [discriminate E | reflexivity].
Qed.

Lemma language_class_one_line language :
  forallb cls_lower language = true ->
  forallb cls_dot (language_class language) = true.
Proof.
  intros H. unfold language_class. destruct language as [|a l]; [auto|].
  rewrite !forallb_app, (class_one_line cls_lower lower_one_line _ H).
  reflexivity.
Qed.

(** Tokens that need the start of a line, in a block whose first line is
    a tag and whose last is [c], a closing tag. *)
Lemma block_line_tokens f o a o' c' :
  (forall pv l, line_start pv = false -> f pv l = false) ->
  (forall pv x y, f pv x = true -> f pv (x ++ y) = true) ->
  (forall pv l u, f pv (l ++ LT :: u) = true -> f pv l = true) ->
  o = a :: o' ->
  (forall rest, f None (o ++ rest) = false) ->
  forallb cls_dot o = true ->
  line_start (prev_after None o) = false ->
  (forall pv, nowhere f pv (LT :: c') = true) ->
  forall s, nowhere f None s = true ->
  nowhere f None (o ++ js_trim s ++ LT :: c') = true.
Proof.
  intros Hstart Hmore Hless Ho H0 Hdot Hprev Hc s Hs. subst o.
  apply nowhere_line_prefix; auto.
  apply nowhere_app_tag; auto.
  apply (@nowhere_trim_at f Hmore s None); auto.
Qed.

(** X21: a fenced code block, three backticks, a language of lower-case
    letters (or none), a newline, a body without markdown tokens or blank
    lines, a newline and three backticks, renders to a [pre] and [code]
    element.  The [code] element carries the class [language-] followed
    by the language when one is named; the body is escaped and trimmed,
    and its newlines become [<br>] as anywhere else. *)
Theorem fenced_block_renders (lang body : jsstring) :
  forallb cls_lower lang = true ->
  markdown_free body = true ->
  nowhere (pair_at NL) None body = true ->
  advancedMarkdownToHtml
    (Str (str "```" ++ lang ++ NL :: body ++ NL :: str "```"))
  = str "<pre><code" ++ language_class lang ++ str ">"
      ++ line_breaks (js_trim (escapeHtml body)) ++ str "</code></pre>".
Proof.
  unfold markdown_free. intros Hl H Hpair.
  repeat (apply andb_prop in H as [H ?]).
  rewrite advancedMarkdownToHtml_Str. unfold markdown.
  fold (escapeHtml (str "```" ++ lang ++ NL :: body ++ NL :: str "```")).
  assert (Eh : escapeHtml (str "```" ++ lang ++ NL :: body ++ NL :: str "```")
               = str "```" ++ lang ++ NL :: escapeHtml body
                   ++ NL :: str "```").
  { rewrite !escapeHtml_app.
    rewrite (escapeHtml_id lang)
      by (apply (@class_lacks cls_lower); [reflexivity | exact Hl]).
    rewrite escapeHtml_cons, escapeHtml_app. reflexivity. }
  rewrite Eh. clear Eh.
  pose proof (lacks_escape BT _ eq_refl H) as Ebt.
  pose proof (lacks_escape STAR _ eq_refl H3) as Est.
  pose proof (@nowhere_escape heading_at heading_entity heading_back _
                None None (fun x => x) H2) as Ehead.
  pose proof (@nowhere_escape bullet_at bullet_entity bullet_back _
                None None (fun x => x) H1) as Ebul.
  pose proof (@nowhere_escape numbering_at numbering_entity numbering_back _
                None None (fun x => x) H0) as Enum.
  pose proof (@nowhere_escape (pair_at NL) pair_entity pair_back _
                None None (fun x => x) Hpair) as Epair.
  pose proof (lacks_LT_escape body) as Elt.
  set (eb := escapeHtml body) in *.
  destruct (language_class_facts lang Hl) as (Abt & Ast & Alt & Anl).
  pose proof (language_class_one_line lang Hl) as Adot.
  (* the fence *)
  unfold substitute.
  set (h := str "```" ++ lang ++ NL :: eb ++ NL :: str "```").
  assert (Hlen : length h = S (S (S (S (S (3 + length lang) + length eb)))))
    by (unfold h; rewrite !length_app; simpl; rewrite length_app; simpl; lia).
  rewrite (@replace_all_of re_fence _ h
             [(2, (S (3 + length lang), S (3 + length lang) + length eb));
              (1, (3, 3 + length lang))]);
    [ | discriminate
      | rewrite Hlen; apply fence_matches; assumption
      | intros; apply fence_not_empty ].
  rewrite (@fn_fence_tags h _ lang eb).
  2: { unfold group. cbn [caps assoc Nat.eqb].
       apply (@sub_mid_at _ h (str "```") lang (NL :: eb ++ NL :: str "```"));
         reflexivity. }
  2: { unfold group. cbn [caps assoc Nat.eqb].
       apply (@sub_mid_at _ h (str "```" ++ lang ++ [NL]) eb
                (NL :: str "```")).
       - unfold h. rewrite <- !app_assoc. reflexivity.
       - rewrite !length_app. simpl. lia.
       - rewrite !length_app. simpl. lia. }
  clear Hlen. clear h.
  (* the block is settled *)
  set (o := str "<pre><code" ++ language_class lang ++ str ">").
  assert (ER : str "<pre><code" ++ language_class lang ++ str ">"
                 ++ js_trim eb ++ str "</code></pre>"
               = o ++ js_trim eb ++ LT :: str "/code></pre>")
    by (unfold o; rewrite <- !app_assoc; reflexivity).
  rewrite ER.
  assert (Obt : lacks BT o = true)
    by (unfold o; rewrite !lacks_app, Abt; reflexivity).
  assert (Ost : lacks STAR o = true)
    by (unfold o; rewrite !lacks_app, Ast; reflexivity).
  assert (Onl : lacks NL o = true)
    by (unfold o; rewrite !lacks_app, Anl; reflexivity).
  assert (Odot : forallb cls_dot o = true)
    by (unfold o; rewrite !forallb_app, Adot; reflexivity).
  assert (Oprev : prev_after None o = Some GT)
    by (unfold o; rewrite !prev_after_app; reflexivity).
  assert (Ocons : o = LT :: str "pre><code" ++ language_class lang ++ str ">")
    by reflexivity.
  set (t := js_trim eb) in *.
  pose proof (lacks_trim BT eb Ebt : lacks BT t = true) as Tbt.
  pose proof (lacks_trim STAR eb Est : lacks STAR t = true) as Tst.
  pose proof (lacks_trim LT eb Elt : lacks LT t = true) as Tlt.
  set (R := o ++ t ++ LT :: str "/code></pre>").
  assert (Rbt : lacks BT R = true)
    by (unfold R; rewrite !lacks_app, Obt, Tbt; reflexivity).
  assert (Rst : lacks STAR R = true)
    by (unfold R; rewrite !lacks_app, Ost, Tst; reflexivity).
  pose proof (lacks_no_pair BT R None Rbt) as F1.
  pose proof (lacks_no_span R None Rbt) as F2.
  pose proof (lacks_no_pair STAR R None Rst) as F3.
  assert (F5 : nowhere bullet_at None R = true).
  { unfold R, t.
    apply (@block_line_tokens bullet_at o LT _ _ bullet_needs_start
             bullet_more bullet_less Ocons);
      [ intros rest; reflexivity | exact Odot | rewrite Oprev; reflexivity
      | intros pv; apply pre_close_tokens | exact Ebul ]. }
  assert (F7 : nowhere numbering_at None R = true).
  { unfold R, t.
    apply (@block_line_tokens numbering_at o LT _ _ numbering_needs_start
             numbering_more numbering_less Ocons);
      [ intros rest; reflexivity | exact Odot | rewrite Oprev; reflexivity
      | intros pv; apply pre_close_tokens | exact Enum ]. }
  assert (F9 : nowhere heading_at None R = true).
  { unfold R, t.
    apply (@block_line_tokens heading_at o LT _ _ heading_needs_start
             heading_more heading_less Ocons);
      [ intros rest; reflexivity | exact Odot | rewrite Oprev; reflexivity
      | intros pv; apply pre_close_tokens | exact Ehead ]. }
  pose proof (heading_no_subheading R None F9) as F8.
  assert (F6 : nowhere block_at None R = true).
  { unfold R, o. rewrite <- !app_assoc, pre_tag_open.
    change (language_class lang ++ str ">" ++ t ++ LT :: str "/code></pre>")
      with (language_class lang ++ str ">" ++ t ++ str "</code></pre>").
    rewrite !app_assoc. apply nowhere_block_app; [|apply pre_tag_close].
    rewrite !lacks_app, Alt, Tlt. reflexivity. }
  assert (F10 : nowhere paragraph_at None R = true).
  { apply pair_no_paragraph. unfold R.
    apply (@nowhere_pair_prefix o _ None (Some GT) Onl).
    apply (@nowhere_app_tag (pair_at NL)).
    - intros pv l u. apply pair_less. reflexivity.
    - apply (@nowhere_trim_at (pair_at NL) (pair_more NL) eb None);
        [exact Epair | apply pair_trimmed].
    - intros pv. apply pre_close_tokens. }
  skip_passes R.
  rewrite replace_newline. unfold R, o.
  rewrite !line_breaks_app.
  rewrite (line_breaks_id (language_class lang) Anl).
  change (line_breaks (str "<pre><code")) with (str "<pre><code").
  change (line_breaks (str ">")) with (str ">").
  change (line_breaks (LT :: str "/code></pre>")) with (str "</code></pre>").
  rewrite <- !app_assoc.
  rewrite (app_assoc (language_class lang)),
    (app_assoc (language_class lang ++ str ">")).
  rewrite trim_between by reflexivity.
  rewrite <- !app_assoc. reflexivity.
Qed.

Lemma fenced_block_renders_witness :
  advancedMarkdownToHtml
    (Str (str "```" ++ str "python"
            ++ NL :: (str "if a < b:" ++ NL :: str "    print(a)")
            ++ NL :: str "```"))
  = str "<pre><code" ++ language_class (str "python") ++ str ">"
      ++ line_breaks
           (js_trim (escapeHtml (str "if a < b:" ++ NL :: str "    print(a)")))
      ++ str "</code></pre>".
Proof.
  apply (@fenced_block_renders (str "python")
           (str "if a < b:" ++ NL :: str "    print(a)"));
    reflexivity.
Defined.

(* ================================================================= *)
(** * The tags of the output *)

Unset Implicit Arguments.

#[local] Arguments tag_char : simpl never.

Lemma tags_app : forall x y q,
  tags q (x ++ y)
  = match tags q x with Some q' => tags q' y | None => None end.
Proof.
  induction x as [|a x IH]; intros y q; [reflexivity|].
  cbn [app tags]. destruct q as [|b].
  - destruct (fst a =? LT)%N; [destruct (snd a); [reflexivity | apply IH]|].
    destruct (fst a =? GT)%N; [reflexivity | apply IH].
  - destruct (fst a =? GT)%N.
    + destruct (snd a); [reflexivity|]. destruct (valid_tag b); [apply IH|].
      reflexivity.
    + destruct (fst a =? LT)%N; [reflexivity | apply IH].
Qed.

Lemma tags_app_inv x y q r :
  tags q (x ++ y) = Some r ->
  exists q', tags q x = Some q' /\ tags q' y = Some r.
Proof.
  rewrite tags_app. destruct (tags q x) as [q'|]; [|discriminate].
  intros H. exists q'. auto.
Qed.

Lemma tags_app_intro x y q q' r :
  tags q x = Some q' -> tags q' y = Some r -> tags q (x ++ y) = Some r.
Proof. intros H1 H2. rewrite tags_app, H1. exact H2. Qed.

Lemma tags_text : forall l, Forall no_angle l -> tags InText l = Some InText.
Proof.
  induction l as [|a l IH]; intros H; [reflexivity|].
  inversion H as [|? ? [H1 H2] Hl]; subst. cbn [tags].
  apply N.eqb_neq in H1, H2. rewrite H1, H2. apply IH, Hl.
Qed.

Lemma codes_eqb_eq : forall x y, codes_eqb x y = true -> x = y.
Proof.
  induction x as [|a x IH]; intros [|b y] H; try discriminate; [reflexivity|].
  cbn [codes_eqb] in H. apply andb_prop in H as [H1 H2].
  apply N.eqb_eq in H1. subst. f_equal. apply IH, H2.
Qed.

Lemma renderer_tags_chars :
  forallb (fun t => forallb tag_char (str t)) renderer_tags = true.
Proof. vm_compute. reflexivity. Qed.

Lemma forallb_map {A B} (f : A -> B) (p : B -> bool) (l : list A) :
  forallb p (map f l) = forallb (fun a => p (f a)) l.
Proof. induction l as [|a l IH]; simpl; [reflexivity|]. rewrite IH. reflexivity. Qed.

Lemma valid_tag_chars b :
  valid_tag b = true -> forallb (fun a => tag_char (fst a)) b = true.
Proof.
  unfold valid_tag. intros H. apply orb_prop in H as [H|H].
  - unfold plain_tag in H. apply andb_prop in H as [_ H].
    apply existsb_exists in H as (t & Hin & Ht). apply codes_eqb_eq in Ht.
    pose proof renderer_tags_chars as Hall. rewrite forallb_forall in Hall.
    specialize (Hall t Hin). rewrite <- Ht, (@forallb_map (N * bool) N fst tag_char) in Hall.
    exact Hall.
  - unfold language_tag in H. cbv zeta in H.
    apply andb_prop in H as [H Hv]. apply andb_prop in H as [_ Hh].
    apply codes_eqb_eq in Hh.
    set (n := length (str "code class=" ++ [QUOT] ++ str "language-")) in *.
    transitivity (forallb (fun a => tag_char (fst a))
                    (firstn n b ++ skipn n b));
      [f_equal; symmetry; apply firstn_skipn|].
    rewrite forallb_app. apply andb_true_intro. split.
    + rewrite <- (@forallb_map (N * bool) N fst tag_char), Hh. vm_compute. reflexivity.
    + destruct (rev (skipn n b)) as [|q l] eqn:E; [discriminate|].
      apply (f_equal (@rev traced)) in E. rewrite rev_involutive in E.
      rewrite E. cbn [rev]. rewrite forallb_app.
      apply andb_prop in Hv as [Hv Hl]. apply andb_prop in Hv as [Hv _].
      apply andb_prop in Hv as [_ Hq]. apply N.eqb_eq in Hq.
      apply andb_true_intro. split.
      * rewrite forallb_forall in *. intros a Ha. apply in_rev in Ha.
        specialize (Hl a Ha). unfold tag_char. rewrite Hl. reflexivity.
      * cbn [forallb]. rewrite Hq. reflexivity.
Qed.

(** Inside a tag the text goes on to a [>] that closes a valid tag. *)
Lemma in_tag_closes : forall l b,
  tags (InTag b) l = Some InText ->
  exists body g z,
    l = body ++ g :: z /\ fst g = GT /\ valid_tag (b ++ body) = true.
Proof.
  induction l as [|a l IH]; intros b H; [discriminate|].
  cbn [tags] in H. destruct (fst a =? GT)%N eqn:Eg.
  - destruct (snd a); [discriminate|].
    destruct (valid_tag b) eqn:Ev; [|discriminate].
    exists [], a, l. rewrite app_nil_r. apply N.eqb_eq in Eg. auto.
  - destruct (fst a =? LT)%N; [discriminate|].
    apply IH in H as (body & g & z & -> & Hg & Hv).
    exists (a :: body), g, z. rewrite <- app_assoc in Hv. auto.
Qed.

(** A character that no tag holds is read in text. *)
Lemma plain_in_text q a l :
  tags q (a :: l) = Some InText ->
  tag_char (fst a) = false -> fst a <> GT ->
  q = InText.
Proof.
  intros H Ha Hg. destruct q as [|b]; [reflexivity|]. exfalso.
  apply in_tag_closes in H as (body & g & z & E & Eg & Hv).
  destruct body as [|a' body]; cbn [app] in E; injection E as -> ->.
  - contradiction.
  - apply valid_tag_chars in Hv. rewrite forallb_app in Hv.
    apply andb_prop in Hv as [_ Hv]. cbn [forallb] in Hv.
    apply andb_prop in Hv as [Hv _]. congruence.
Qed.

Lemma open_in_text q a l r :
  tags q (a :: l) = Some r -> fst a = LT -> q = InText.
Proof.
  intros H Ha. destruct q as [|b]; [reflexivity|]. cbn [tags] in H.
  rewrite Ha in H. cbn in H. discriminate.
Qed.

(** After a [>] the reader is in text. *)
Lemma after_close q a l r :
  tags q (a :: l) = Some r -> fst a = GT -> tags InText l = Some r.
Proof.
  intros H Ha. destruct q as [|b]; cbn [tags] in H; rewrite Ha in H;
    cbn in H; [discriminate|].
  destruct (snd a); [discriminate|]. destruct (valid_tag b); [exact H|].
  discriminate.
Qed.

(** A character of text is stepped over. *)
Lemma step_text a l :
  fst a <> LT -> fst a <> GT -> tags InText (a :: l) = tags InText l.
Proof.
  intros H1 H2. apply N.eqb_neq in H1, H2. cbn [tags]. rewrite H1, H2.
  reflexivity.
Qed.

Lemma after_plain q a l :
  tags q (a :: l) = Some InText ->
  tag_char (fst a) = false -> fst a <> LT -> fst a <> GT ->
  q = InText /\ tags InText l = Some InText.
Proof.
  intros H Ha Hl Hg. pose proof (plain_in_text _ _ _ H Ha Hg) as ->.
  split; [reflexivity|]. rewrite step_text in H; assumption.
Qed.

(** The end of the string is in text. *)
Lemma tags_end q : tags q [] = Some InText -> q = InText.
Proof. intros H. injection H as ->. reflexivity. Qed.

(** A run without [<] and [>], read in text. *)
Lemma tags_run : forall l q r,
  tags q l = Some r -> Forall no_angle l -> q = InText -> r = InText.
Proof.
  intros l q r H Hl ->. rewrite (tags_text l Hl) in H. injection H as <-.
  reflexivity.
Qed.

(** ** The matcher, with the place it reaches *)

Lemma rep_run g p k : forall rest n prev pos cs z,
  rep g p k n prev rest pos cs = Some z ->
  exists run rest',
    rest = run ++ rest' /\ forallb p run = true /\ n <= length run
    /\ k (prev_after prev run) rest' (pos + length run) cs = Some z.
Proof.
  induction rest as [|c t IH]; intros n prev pos cs z H.
  - destruct n; simpl in H; [|discriminate].
    exists [], []. rewrite Nat.add_0_r. auto.
  - assert (Hstop : k prev (c :: t) pos cs = Some z ->
                    exists run rest',
                      c :: t = run ++ rest' /\ forallb p run = true
                      /\ 0 <= length run
                      /\ k (prev_after prev run) rest' (pos + length run) cs
                         = Some z).
    { intros Hk. exists [], (c :: t). rewrite Nat.add_0_r.
      repeat split; auto. }
    assert (Hmore : forall n',
               n <= S n' ->
               (if p c then rep g p k n' (Some c) t (S pos) cs else None)
               = Some z ->
               exists run rest',
                 c :: t = run ++ rest' /\ forallb p run = true
                 /\ n <= length run
                 /\ k (prev_after prev run) rest' (pos + length run) cs
                    = Some z).
    { intros n' Hn Hr. destruct (p c) eqn:Ep; [|discriminate].
      apply IH in Hr as (run & rest' & -> & Hf & Hl & Hk).
      exists (c :: run), rest'. simpl. rewrite Ep, Hf.
      repeat split; [lia|].
      replace (pos + S (length run)) with (S pos + length run) by lia.
      exact Hk. }
    destruct n as [|n]; simpl in H.
    + destruct g.
      * destruct (if p c then rep true p k 0 (Some c) t (S pos) cs else None)
          as [z'|] eqn:E.
        -- injection H as ->. apply (Hmore 0); [lia | exact E].
        -- apply Hstop, H.
      * destruct (k prev (c :: t) pos cs) as [z'|] eqn:E.
        -- injection H as ->. apply Hstop. reflexivity.
        -- apply (Hmore 0); [lia | exact H].
    + apply (Hmore n); [lia | exact H].
Qed.

Lemma m_run r : forall k pv l pos cs z,
  m r k pv l pos cs = Some z ->
  exists x l' cs',
    l = x ++ l' /\ k (prev_after pv x) l' (pos + length x) cs' = Some z.
Proof.
  induction r as [p| |r1 IH1 r2 IH2|r1 IH1 r2 IH2|g n p|i r1 IH1|ml|ml
                  |r1 IH1|r1 IH1|p];
    intros k pv l pos cs z H; cbn [m] in H.
  - destruct l as [|c t]; [discriminate H|].
    destruct (p c); [|discriminate H].
    exists [c], t, cs. cbn [prev_after length app]. rewrite Nat.add_1_r. auto.
  - exists [], l, cs. rewrite Nat.add_0_r. auto.
  - apply IH1 in H as (x1 & l1 & cs1 & -> & H).
    apply IH2 in H as (x2 & l2 & cs2 & -> & H).
    exists (x1 ++ x2), l2, cs2. rewrite app_assoc, prev_after_app, length_app.
    rewrite Nat.add_assoc. auto.
  - destruct (m r1 k pv l pos cs) as [z'|] eqn:E.
    + injection H as ->. apply IH1 in E. exact E.
    + apply IH2 in H. exact H.
  - apply rep_run in H as (run & rest' & -> & _ & _ & H).
    exists run, rest', cs. auto.
  - apply IH1 in H as (x1 & l1 & cs1 & -> & H).
    exists x1, l1, ((i, (pos, pos + length x1)) :: cs1). auto.
  - exists [], l, cs. rewrite Nat.add_0_r. split; [reflexivity|].
    destruct pv as [c|]; [|exact H].
    destruct (ml && line_terminator c); [exact H | discriminate H].
  - exists [], l, cs. rewrite Nat.add_0_r. split; [reflexivity|].
    destruct l as [|c t]; [exact H|].
    destruct (ml && line_terminator c); [exact H | discriminate H].
  - destruct (m r1 accept pv l pos cs) as [[e cs']|]; [|discriminate H].
    exists [], l, cs'. rewrite Nat.add_0_r. auto.
  - destruct (m r1 accept pv l pos cs); [discriminate H|].
    exists [], l, cs. rewrite Nat.add_0_r. auto.
  - exists [], l, cs. rewrite Nat.add_0_r. split; [reflexivity|].
    destruct pv as [c|]; [|exact H].
    destruct (p c); [discriminate H | exact H].
Qed.

(** A match ends between where it begins and the end of the text. *)
Lemma m_bounds re pv l pos cs e cs' :
  m re accept pv l pos cs = Some (e, cs') ->
  pos <= e <= pos + length l.
Proof.
  intros H. apply m_run in H as (x & l' & cs2 & -> & H).
  injection H as <- _. rewrite length_app. lia.
Qed.

(** ** Replacing, in a string of text and tags *)

Lemma prev_after_snoc x c pv : prev_after pv (x ++ [c]) = Some c.
Proof. rewrite prev_after_app. reflexivity. Qed.

Lemma firstn_sub {A} (s : list A) a b :
  a <= b -> firstn b s = firstn a s ++ sub s a b.
Proof.
  intros H. unfold sub. rewrite <- (firstn_skipn a s) at 1.
  rewrite firstn_app. rewrite length_firstn.
  destruct (Nat.le_gt_cases a (length s)) as [Hl|Hl].
  - rewrite Nat.min_l by exact Hl. rewrite firstn_firstn.
    replace (Nat.min b a) with a by lia. reflexivity.
  - rewrite Nat.min_r by lia. rewrite firstn_firstn.
    replace (Nat.min b a) with a by lia.
    rewrite (skipn_all2 s) by lia. rewrite !firstn_nil. reflexivity.
Qed.

Lemma skipn_sub {A} (s : list A) a b :
  a <= b -> skipn a s = sub s a b ++ skipn b s.
Proof.
  intros H. unfold sub.
  replace b with ((b - a) + a) at 2 by lia.
  rewrite <- skipn_skipn. symmetry. apply firstn_skipn.
Qed.

Section Replacing.

Variable re : regex.
Variable f : list traced -> mtch -> list traced.
Hypothesis Hf : keeps_tags re f.
Variable s : list traced.

Lemma assemble_tags : forall rest x cur skip qc,
  s = x ++ rest ->
  cur <= length x + skip -> skip <= length rest ->
  (0 < skip -> cur = length x + skip) ->
  tags InText (firstn cur s) = Some qc ->
  tags qc (skipn cur s) = Some InText ->
  tags qc (assemble f s cur
             (scan re (prev_after None (map fst x)) (map fst rest)
                (length x) skip))
  = Some InText.
Proof.
  induction rest as [|c t IH]; intros x cur skip qc Hs Hc Hk Hp H1 H2.
  - cbn [length] in Hk. assert (skip = 0) by (unfold traced in *; lia). subst skip.
    cbn [map scan].
    destruct (m re accept (prev_after None (map fst x)) [] (length x) [])
      as [[e cs]|] eqn:E; cbn [assemble]; [|exact H2].
    pose proof (m_bounds _ _ _ _ _ _ _ E) as Hb. cbn [length] in Hb.
    assert (e = length x) by (unfold traced in *; lia). subst e. cbn [start stop].
    rewrite app_nil_r in Hs. subst x.
    assert (Hq : tags InText s = Some InText).
    { rewrite <- (firstn_skipn cur s). eapply tags_app_intro; eassumption. }
    rewrite skipn_all, app_nil_r. unfold sub.
    rewrite firstn_all2 by (rewrite length_skipn; lia).
    eapply tags_app_intro; [exact H2|].
    pose proof (Hf s [] (length s) cs InText Hq E eq_refl) as Hf'.
    rewrite app_nil_r in Hf'. rewrite Hf', firstn_nil. reflexivity.
  - cbn [map scan]. destruct skip as [|n].
    + destruct (m re accept (prev_after None (map fst x))
                  (fst c :: map fst t) (length x) [])
        as [[e cs]|] eqn:E.
      * pose proof (m_bounds _ _ _ _ _ _ _ E) as Hb. cbn [length] in Hb.
        rewrite length_map in Hb. cbn [assemble start stop].
        rewrite (skipn_sub s cur (length x)) in H2 by (unfold traced in *; lia).
        apply tags_app_inv in H2 as (q & Hq1 & Hq2).
        assert (Hx : tags InText x = Some q).
        { replace x with (firstn (length x) s)
            by (rewrite Hs, firstn_app, firstn_all, Nat.sub_diag;
                cbn [firstn]; apply app_nil_r).
          rewrite (firstn_sub s cur (length x)) by (unfold traced in *; lia).
          eapply tags_app_intro; eassumption. }
        assert (Hr : skipn (length x) s = c :: t).
        { rewrite Hs, skipn_app, skipn_all, Nat.sub_diag. reflexivity. }
        rewrite Hr in Hq2.
        pose proof (Hf x (c :: t) e cs q Hx E Hq2) as Hf'.
        rewrite <- Hs in Hf'.
        rewrite <- (firstn_skipn (e - length x) (c :: t)) in Hq2.
        apply tags_app_inv in Hq2 as (q2 & Hw & Hz).
        eapply tags_app_intro; [exact Hq1|].
        eapply tags_app_intro; [rewrite Hf'; exact Hw|].
        replace (Some (fst c)) with (prev_after None (map fst (x ++ [c])))
          by (rewrite map_app; apply prev_after_snoc).
        replace (S (length x)) with (length (x ++ [c]))
          by (rewrite length_app; simpl; unfold traced in *; lia).
        apply IH.
        -- rewrite Hs, <- app_assoc. reflexivity.
        -- rewrite length_app. simpl. (unfold traced in *; lia).
        -- (unfold traced in *; lia).
        -- rewrite length_app. simpl. (unfold traced in *; lia).
        -- rewrite Hs, firstn_app, (firstn_all2 x) by (unfold traced in *; lia).
           eapply tags_app_intro; eassumption.
        -- rewrite Hs, skipn_app, (skipn_all2 x) by (unfold traced in *; lia). exact Hz.
      * replace (Some (fst c)) with (prev_after None (map fst (x ++ [c])))
          by (rewrite map_app; apply prev_after_snoc).
        replace (S (length x)) with (length (x ++ [c]))
          by (rewrite length_app; simpl; unfold traced in *; lia).
        apply IH; auto.
        -- rewrite Hs, <- app_assoc. reflexivity.
        -- rewrite length_app. simpl. (unfold traced in *; lia).
        -- (unfold traced in *; lia).
        -- (unfold traced in *; lia).
    + replace (Some (fst c)) with (prev_after None (map fst (x ++ [c])))
        by (rewrite map_app; apply prev_after_snoc).
      replace (S (length x)) with (length (x ++ [c]))
        by (rewrite length_app; simpl; unfold traced in *; lia).
      cbn [length] in Hk. apply IH; auto.
      * rewrite Hs, <- app_assoc. reflexivity.
      * rewrite length_app. simpl. (unfold traced in *; lia).
      * (unfold traced in *; lia).
      * rewrite length_app. simpl. (unfold traced in *; lia).
Qed.

Lemma replace_keeps_tags :
  tags InText s = Some InText ->
  tags InText (replace fst re f s) = Some InText.
Proof.
  intros H. unfold replace, find_all.
  apply (assemble_tags s [] 0 0 InText); auto; cbn [length]; try lia.
Qed.

End Replacing.

(** ** What a pattern has matched *)

Lemma m_seqs_cons r rs k pv l pos cs :
  m (seqs (r :: rs)) k pv l pos cs = m r (m (seqs rs) k) pv l pos cs.
Proof. destruct rs; reflexivity. Qed.

(** A literal. *)
Lemma m_chars : forall (w : jsstring) k pv l pos cs z,
  m (seqs (map (fun c => Chr (only c)) w)) k pv l pos cs = Some z ->
  exists l', l = w ++ l'
             /\ k (prev_after pv w) l' (pos + length w) cs = Some z.
Proof.
  induction w as [|c w IH]; intros k pv l pos cs z H.
  - exists l. rewrite Nat.add_0_r. auto.
  - cbn [map] in H. rewrite m_seqs_cons in H. cbn [m] in H.
    do 2 step H. apply only_eq in E. subst.
    apply IH in H as (l' & -> & H). exists l'. split; [reflexivity|].
    cbn [prev_after length]. rewrite Nat.add_succ_r. exact H.
Qed.

Lemma m_lit s k pv l pos cs z :
  m (Lit s) k pv l pos cs = Some z ->
  exists l', l = str s ++ l'
             /\ k (prev_after pv (str s)) l' (pos + length (str s)) cs
                = Some z.
Proof. apply m_chars. Qed.

(** A pattern without groups leaves the captures as they are. *)
Lemma m_simple r : forall ok k pv l pos cs z,
  simple ok r ->
  m r k pv l pos cs = Some z ->
  exists x l',
    l = x ++ l' /\ forallb ok x = true
    /\ k (prev_after pv x) l' (pos + length x) cs = Some z.
Proof.
  induction r as [p| |r1 IH1 r2 IH2|r1 IH1 r2 IH2|g n p|i r1 IH1|ml|ml
                  |r1 IH1|r1 IH1|p];
    intros ok k pv l pos cs z Hs H; cbn [m simple] in *.
  - destruct l as [|c t]; [discriminate H|].
    destruct (p c) eqn:Ep; [|discriminate H].
    exists [c], t. cbn [prev_after length app forallb].
    rewrite (Hs c Ep), Nat.add_1_r. auto.
  - exists [], l. rewrite Nat.add_0_r. auto.
  - destruct Hs as [Hs1 Hs2].
    apply (IH1 ok) in H as (x1 & l1 & -> & Hx1 & H); [|exact Hs1].
    apply (IH2 ok) in H as (x2 & l2 & -> & Hx2 & H); [|exact Hs2].
    exists (x1 ++ x2), l2.
    rewrite app_assoc, prev_after_app, length_app, forallb_app, Hx1, Hx2.
    rewrite Nat.add_assoc. auto.
  - destruct Hs as [Hs1 Hs2].
    destruct (m r1 k pv l pos cs) as [z'|] eqn:E.
    + injection H as ->. apply (IH1 ok) in E; assumption.
    + apply (IH2 ok) in H; assumption.
  - apply rep_run in H as (run & rest' & -> & Hr & _ & H).
    exists run, rest'. repeat split; [|exact H].
    clear - Hs Hr. induction run as [|c run IH]; [reflexivity|].
    cbn [forallb] in *. apply andb_prop in Hr as [Hc Hr].
    rewrite (Hs c Hc), (IH Hr). reflexivity.
  - contradiction.
  - exists [], l. rewrite Nat.add_0_r. repeat split.
    destruct pv as [c|]; [|exact H].
    destruct (ml && line_terminator c); [exact H | discriminate H].
  - exists [], l. rewrite Nat.add_0_r. repeat split.
    destruct l as [|c t]; [exact H|].
    destruct (ml && line_terminator c); [exact H | discriminate H].
  - destruct (m r1 accept pv l pos cs) as [[e cs']|] eqn:E; [|discriminate H].
    apply (IH1 (fun _ => true)) in E as (x1 & l1 & _ & _ & E); [|exact Hs].
    injection E as _ <-.
    exists [], l. rewrite Nat.add_0_r. auto.
  - destruct (m r1 accept pv l pos cs); [discriminate H|].
    exists [], l. rewrite Nat.add_0_r. auto.
  - exists [], l. rewrite Nat.add_0_r. repeat split.
    destruct pv as [c|]; [|exact H].
    destruct (p c); [discriminate H | exact H].
Qed.

(** ** Reading tags around what a pattern matched *)

Lemma plain_no_angle a : plain a -> no_angle a.
Proof. intros (_ & H1 & H2). split; assumption. Qed.

Lemma tags_in_tag_run : forall l b,
  Forall no_angle l -> tags (InTag b) l = Some (InTag (b ++ l)).
Proof.
  induction l as [|a l IH]; intros b H.
  - rewrite app_nil_r. reflexivity.
  - inversion H as [|? ? [H1 H2] Hl]; subst. cbn [tags].
    apply N.eqb_neq in H1, H2. rewrite H1, H2, (IH _ Hl), <- app_assoc.
    reflexivity.
Qed.

(** A run of text that ends in text began in text. *)
Lemma run_back l q :
  Forall no_angle l -> tags q l = Some InText -> q = InText.
Proof.
  intros Hl H. destruct q as [|b]; [reflexivity|].
  rewrite (tags_in_tag_run l b Hl) in H. discriminate.
Qed.

(** Plain characters, then [G], then plain characters: [G] is read from
    text to text. *)
Lemma between_plain q D1 G D2 Z :
  tags q (D1 ++ G ++ D2 ++ Z) = Some InText ->
  D1 <> [] -> D2 <> [] -> Forall plain D1 -> Forall plain D2 ->
  q = InText /\ tags InText G = Some InText /\ tags InText Z = Some InText.
Proof.
  intros H N1 N2 P1 P2.
  destruct D1 as [|a1 D1]; [congruence|]. destruct D2 as [|a2 D2]; [congruence|].
  inversion P1 as [|? ? (T1 & L1 & G1) P1']; subst.
  inversion P2 as [|? ? (T2 & L2 & G2) P2']; subst.
  cbn [app] in H. pose proof (plain_in_text _ _ _ H T1 G1) as ->.
  split; [reflexivity|].
  change (a1 :: D1 ++ G ++ a2 :: D2 ++ Z)
    with ((a1 :: D1) ++ G ++ (a2 :: D2) ++ Z) in H.
  rewrite tags_app, (tags_text _ (Forall_impl _ plain_no_angle P1)) in H.
  apply tags_app_inv in H as (qg & Hg & H).
  cbn [app] in H. pose proof (plain_in_text _ _ _ H T2 G2) as ->.
  split; [exact Hg|].
  change (a2 :: D2 ++ Z) with ((a2 :: D2) ++ Z) in H.
  rewrite tags_app, (tags_text _ (Forall_impl _ plain_no_angle P2)) in H.
  exact H.
Qed.

Lemma plain_code a c :
  fst a = c -> tag_char c = false -> c <> LT -> c <> GT -> plain a.
Proof. intros <- H1 H2 H3. repeat split; assumption. Qed.

Lemma lits_tags s :
  tags InText (lits from_renderer s) = Some InText ->
  forall q G r, q = InText -> tags InText G = Some r ->
  tags q (lits from_renderer s ++ G) = Some r.
Proof. intros H q G r -> HG. rewrite tags_app, H. exact HG. Qed.

(** A position in [x ++ rest], seen from [rest]. *)
Lemma sub_rest {A} (x rest u y z : list A) a b :
  rest = u ++ y ++ z ->
  a = length x + length u -> b = length x + length u + length y ->
  sub (x ++ rest) a b = y.
Proof.
  intros -> -> ->. rewrite app_assoc, <- length_app. apply sub_middle.
Qed.

Lemma firstn_rest {A} (w z : list A) n :
  n = length w -> firstn n (w ++ z) = w.
Proof.
  intros ->. rewrite firstn_app, firstn_all, Nat.sub_diag. cbn [firstn].
  apply app_nil_r.
Qed.

(** ** Pass by pass, the tags stay whole *)

(** Arithmetic on the lengths of the pieces. *)
Ltac lengths :=
  rewrite ?length_app; cbn [length app]; rewrite ?length_app;
  cbn [length]; unfold traced in *; lia.

Lemma wrap_tags o c G :
  tags InText (lits from_renderer o) = Some InText ->
  tags InText (lits from_renderer c) = Some InText ->
  tags InText G = Some InText ->
  tags InText (lits from_renderer o ++ G ++ lits from_renderer c)
  = Some InText.
Proof. intros Ho Hc HG. rewrite tags_app, Ho, tags_app, HG. exact Hc. Qed.

Lemma delimited_keeps q D1 G D2 Z o c :
  tags q (D1 ++ G ++ D2 ++ Z) = Some InText ->
  D1 <> [] -> D2 <> [] -> Forall plain D1 -> Forall plain D2 ->
  tags InText (lits from_renderer o) = Some InText ->
  tags InText (lits from_renderer c) = Some InText ->
  tags q (lits from_renderer o ++ G ++ lits from_renderer c)
  = tags q (D1 ++ G ++ D2).
Proof.
  intros H N1 N2 P1 P2 Ho Hc.
  destruct (between_plain _ _ _ _ _ H N1 N2 P1 P2) as (-> & HG & _).
  rewrite (wrap_tags _ _ _ Ho Hc HG).
  rewrite tags_app, (tags_text _ (Forall_impl _ plain_no_angle P1)).
  rewrite tags_app, HG.
  rewrite (tags_text _ (Forall_impl _ plain_no_angle P2)). reflexivity.
Qed.

Lemma map_length_eq (G : list traced) g : map fst G = g -> length g = length G.
Proof. intros <-. apply length_map. Qed.

Lemma backtick_plain a : fst a = BT -> plain a.
Proof. intros H. apply (plain_code _ _ H); [reflexivity | discriminate..]. Qed.

Lemma star_plain a : fst a = STAR -> plain a.
Proof. intros H. apply (plain_code _ _ H); [reflexivity | discriminate..]. Qed.

Lemma newline_plain a : fst a = NL -> plain a.
Proof. intros H. apply (plain_code _ _ H); [reflexivity | discriminate..]. Qed.

Lemma tsubst_code s mt :
  subst from_renderer "<code>$1</code>" s mt
  = lits from_renderer "<code>" ++ group s mt 1 ++ lits from_renderer "</code>".
Proof. reflexivity. Qed.

Lemma tsubst_strong s mt :
  subst from_renderer "<strong>$1</strong>" s mt
  = lits from_renderer "<strong>" ++ group s mt 1
      ++ lits from_renderer "</strong>".
Proof. reflexivity. Qed.

Lemma tsubst_em s mt :
  subst from_renderer "<em>$1</em>" s mt
  = lits from_renderer "<em>" ++ group s mt 1 ++ lits from_renderer "</em>".
Proof. reflexivity. Qed.

Lemma keeps_inline :
  keeps_tags re_inline (subst from_renderer "<code>$1</code>").
Proof.
  intros x rest e cs q Hx Hm Hq.
  remember (map fst rest) as l eqn:El.
  unfold re_inline in Hm. cbn [seqs m] in Hm. do 2 step Hm.
  apply rep_run in Hm as (g & l' & -> & _ & _ & Hm). do 2 step Hm.
  injection Hm as <- <-. only_facts. symmetry in El.
  apply map_eq_cons in El as (a1 & R1 & -> & Ha1 & El).
  apply map_eq_app in El as (G & R2 & -> & HG & El).
  apply map_eq_cons in El as (a2 & Z & -> & Ha2 & _).
  apply map_length_eq in HG. rewrite HG.
  rewrite tsubst_code. unfold group. cbn [caps assoc Nat.eqb].
  rewrite (sub_rest x (a1 :: G ++ a2 :: Z) [a1] G (a2 :: Z))
    by (reflexivity || lengths).
  replace (a1 :: G ++ a2 :: Z) with (([a1] ++ G ++ [a2]) ++ Z)
    by (cbn [app]; rewrite <- app_assoc; reflexivity).
  rewrite (firstn_rest ([a1] ++ G ++ [a2]) Z)
    by lengths.
  apply (delimited_keeps q [a1] G [a2] Z); try discriminate;
    try reflexivity; auto using backtick_plain.
Qed.

Lemma keeps_bold :
  keeps_tags re_bold (subst from_renderer "<strong>$1</strong>").
Proof.
  intros x rest e cs q Hx Hm Hq.
  remember (map fst rest) as l eqn:El.
  unfold re_bold in Hm. cbn [seqs m] in Hm. do 4 step Hm.
  apply rep_run in Hm as (g & l' & -> & _ & _ & Hm). do 4 step Hm.
  injection Hm as <- <-. only_facts. symmetry in El.
  apply map_eq_cons in El as (a1 & R1 & -> & Ha1 & El).
  apply map_eq_cons in El as (a2 & R2 & -> & Ha2 & El).
  apply map_eq_app in El as (G & R3 & -> & HG & El).
  apply map_eq_cons in El as (a3 & R4 & -> & Ha3 & El).
  apply map_eq_cons in El as (a4 & Z & -> & Ha4 & _).
  apply map_length_eq in HG. rewrite HG.
  rewrite tsubst_strong. unfold group. cbn [caps assoc Nat.eqb].
  rewrite (sub_rest x (a1 :: a2 :: G ++ a3 :: a4 :: Z) [a1; a2] G
             (a3 :: a4 :: Z))
    by (reflexivity || lengths).
  replace (a1 :: a2 :: G ++ a3 :: a4 :: Z)
    with (([a1; a2] ++ G ++ [a3; a4]) ++ Z)
    by (cbn [app]; rewrite <- app_assoc; reflexivity).
  rewrite (firstn_rest ([a1; a2] ++ G ++ [a3; a4]) Z) by lengths.
  apply (delimited_keeps q [a1; a2] G [a3; a4] Z); try discriminate;
    try reflexivity; auto using star_plain.
Qed.

Lemma keeps_italic :
  keeps_tags re_italic (subst from_renderer "<em>$1</em>").
Proof.
  intros x rest e cs q Hx Hm Hq.
  remember (map fst rest) as l eqn:El.
  unfold re_italic in Hm. cbn [seqs m] in Hm. do 2 step Hm.
  apply rep_run in Hm as (g & l' & -> & _ & _ & Hm). do 2 step Hm.
  injection Hm as <- <-. only_facts. symmetry in El.
  apply map_eq_cons in El as (a1 & R1 & -> & Ha1 & El).
  apply map_eq_app in El as (G & R2 & -> & HG & El).
  apply map_eq_cons in El as (a2 & Z & -> & Ha2 & _).
  apply map_length_eq in HG. rewrite HG.
  rewrite tsubst_em. unfold group. cbn [caps assoc Nat.eqb].
  rewrite (sub_rest x (a1 :: G ++ a2 :: Z) [a1] G (a2 :: Z))
    by (reflexivity || lengths).
  replace (a1 :: G ++ a2 :: Z) with (([a1] ++ G ++ [a2]) ++ Z)
    by (cbn [app]; rewrite <- app_assoc; reflexivity).
  rewrite (firstn_rest ([a1] ++ G ++ [a2]) Z) by lengths.
  apply (delimited_keeps q [a1] G [a2] Z); try discriminate;
    try reflexivity; auto using star_plain.
Qed.

(** *** One step of the matcher, inverted *)

Lemma m_seq a b k pv l pos cs :
  m (Seq a b) k pv l pos cs = m a (m b k) pv l pos cs.
Proof. reflexivity. Qed.

Lemma m_grp i r k pv l pos cs :
  m (Grp i r) k pv l pos cs
  = m r (fun pv' rs e cs' => k pv' rs e ((i, (pos, e)) :: cs')) pv l pos cs.
Proof. reflexivity. Qed.

Lemma m_chr p k pv l pos cs z :
  m (Chr p) k pv l pos cs = Some z ->
  exists c t, l = c :: t /\ p c = true /\ k (Some c) t (S pos) cs = Some z.
Proof.
  cbn [m]. intros H. do 2 step H. exists c, t. auto.
Qed.

Lemma m_alt r1 r2 k pv l pos cs z :
  m (Alt r1 r2) k pv l pos cs = Some z ->
  m r1 k pv l pos cs = Some z \/ m r2 k pv l pos cs = Some z.
Proof.
  cbn [m]. destruct (m r1 k pv l pos cs); intros H; [left | right]; exact H.
Qed.

Lemma m_bol_true k pv l pos cs z :
  m (Bol true) k pv l pos cs = Some z ->
  line_start pv = true /\ k pv l pos cs = Some z.
Proof.
  cbn [m]. destruct pv as [c|]; cbn [line_start andb]; [|auto].
  destruct (line_terminator c); [auto | discriminate].
Qed.

Lemma m_bol_false k pv l pos cs z :
  m (Bol false) k pv l pos cs = Some z -> pv = None /\ k pv l pos cs = Some z.
Proof. cbn [m]. destruct pv as [c|]; cbn [andb]; [discriminate | auto]. Qed.

Lemma m_eol_true k pv l pos cs z :
  m (Eol true) k pv l pos cs = Some z ->
  (l = [] \/ exists c t, l = c :: t /\ line_terminator c = true)
  /\ k pv l pos cs = Some z.
Proof.
  cbn [m]. destruct l as [|c t]; cbn [andb]; [auto|].
  destruct (line_terminator c) eqn:E; [|discriminate].
  intros H. split; [right; exists c, t; auto | exact H].
Qed.

Lemma m_eol_false k pv l pos cs z :
  m (Eol false) k pv l pos cs = Some z -> l = [] /\ k pv l pos cs = Some z.
Proof. cbn [m]. destruct l as [|c t]; cbn [andb]; [auto | discriminate]. Qed.

Lemma m_look r k pv l pos cs z :
  m (Look r) k pv l pos cs = Some z ->
  exists e cs', m r accept pv l pos cs = Some (e, cs')
                /\ k pv l pos cs' = Some z.
Proof.
  cbn [m]. destruct (m r accept pv l pos cs) as [[e cs']|]; [|discriminate].
  intros H. exists e, cs'. auto.
Qed.

Lemma m_nlook r k pv l pos cs z :
  m (NLook r) k pv l pos cs = Some z -> k pv l pos cs = Some z.
Proof. cbn [m]. destruct (m r accept pv l pos cs); [discriminate | auto]. Qed.

Lemma m_nbehind p k pv l pos cs z :
  m (NBehind p) k pv l pos cs = Some z -> k pv l pos cs = Some z.
Proof.
  cbn [m]. destruct pv as [c|]; [|auto]. destruct (p c); [discriminate | auto].
Qed.

Lemma accept_eq pv l pos cs e cs' :
  accept pv l pos cs = Some (e, cs') -> e = pos /\ cs' = cs.
Proof. unfold accept. intros H. injection H as <- <-. auto. Qed.

Lemma simple_chars ok : forall w,
  (forall c, In c w -> ok c = true) ->
  simple ok (seqs (map (fun c => Chr (only c)) w)).
Proof.
  induction w as [|c w IH]; intros H; [exact I|].
  assert (Hc : simple ok (Chr (only c))).
  { intros c' E. apply only_eq in E. subst. apply H. left. reflexivity. }
  assert (Hw : simple ok (seqs (map (fun c => Chr (only c)) w)))
    by (apply IH; intros c' Hin; apply H; right; exact Hin).
  destruct w as [|d w]; [exact Hc|]. split; [exact Hc | exact Hw].
Qed.

Lemma simple_lit s : simple (fun _ => true) (Lit s).
Proof. apply simple_chars. reflexivity. Qed.

(** The end of a line, as the list patterns look for it. *)
Lemma line_end_ahead pv l pos cs e cs' :
  m (Alt (Chr (only NL)) (Eol true)) accept pv l pos cs = Some (e, cs') ->
  cs' = cs
  /\ (l = [] \/ exists c t, l = c :: t /\ line_terminator c = true).
Proof.
  intros H. apply m_alt in H as [H|H].
  - apply m_chr in H as (c & t & -> & Hc & H). apply accept_eq in H as [_ ->].
    split; [reflexivity|]. right. exists c, t. split; [reflexivity|].
    apply only_eq in Hc. subst. reflexivity.
  - apply m_eol_true in H as [Hl H]. apply accept_eq in H as [_ ->]. auto.
Qed.

(** *** Tags and lines *)

Lemma close_ends q y g r :
  tags q (y ++ [g]) = Some r -> fst g = GT -> r = InText.
Proof.
  intros H Hg. apply tags_app_inv in H as (q' & _ & H).
  apply (after_close _ _ _ _ H) in Hg. injection Hg as <-. reflexivity.
Qed.

Lemma terminator_plain a : line_terminator (fst a) = true -> plain a.
Proof.
  intros H. repeat split.
  - revert H. generalize (fst a). intros c H. unfold tag_char, QUOT. classes.
  - intros E. rewrite E in H. discriminate.
  - intros E. rewrite E in H. discriminate.
Qed.

(** At the start of a line the reader is in text. *)
Lemma line_start_in_text x q rest :
  tags InText x = Some q -> tags q rest = Some InText ->
  line_start (prev_after None (map fst x)) = true -> q = InText.
Proof.
  intros Hx Hq Hl. destruct x as [|a0 x0] using rev_ind.
  - injection Hx as <-. reflexivity.
  - clear IHx0. rewrite map_app in Hl. cbn [map] in Hl.
    rewrite prev_after_snoc in Hl. cbn [line_start] in Hl.
    apply terminator_plain in Hl. destruct Hl as (T & L & G).
    apply tags_app_inv in Hx as (q' & Hx & Ha).
    assert (H : tags q' (a0 :: rest) = Some InText)
      by (apply (tags_app_intro [a0] rest q' q InText Ha Hq)).
    pose proof (plain_in_text _ _ _ H T G) as ->.
    rewrite step_text in Ha by assumption. injection Ha as <-. reflexivity.
Qed.

(** Before the end of a line, too. *)
Lemma line_end_in_text q Z :
  tags q Z = Some InText ->
  (Z = [] \/ exists a Z', Z = a :: Z' /\ line_terminator (fst a) = true) ->
  q = InText.
Proof.
  intros H [-> | (a & Z' & -> & Ha)].
  - injection H as ->. reflexivity.
  - apply terminator_plain in Ha. destruct Ha as (T & _ & G).
    exact (plain_in_text _ _ _ H T G).
Qed.

Lemma line_end_traced (Z : list traced) :
  (map fst Z = [] \/ exists c t, map fst Z = c :: t /\ line_terminator c = true)
  -> Z = [] \/ exists a Z', Z = a :: Z' /\ line_terminator (fst a) = true.
Proof.
  intros [H | (c & t & H & Hc)].
  - left. destruct Z; [reflexivity | discriminate].
  - right. destruct Z as [|a Z']; [discriminate|]. injection H as <- _.
    exists a, Z'. auto.
Qed.

(** A marker at the start of a line, then [G] to the end of the line. *)
Lemma line_keeps x q M G Z o c :
  tags InText x = Some q ->
  line_start (prev_after None (map fst x)) = true ->
  tags q (M ++ G ++ Z) = Some InText ->
  Forall no_angle M ->
  (Z = [] \/ exists a Z', Z = a :: Z' /\ line_terminator (fst a) = true) ->
  tags InText (lits from_renderer o) = Some InText ->
  tags InText (lits from_renderer c) = Some InText ->
  tags q (lits from_renderer o ++ G ++ lits from_renderer c)
  = tags q (M ++ G).
Proof.
  intros Hx Hl Hq HM HZ Ho Hc.
  pose proof (line_start_in_text _ _ _ Hx Hq Hl) as ->.
  rewrite tags_app, (tags_text _ HM) in Hq.
  apply tags_app_inv in Hq as (qg & HG & Hq).
  pose proof (line_end_in_text _ _ Hq HZ) as ->.
  rewrite (wrap_tags _ _ _ Ho Hc HG), tags_app, (tags_text _ HM). auto.
Qed.

Lemma codes_no_angle (M : list traced) :
  forallb code_no_angle (map fst M) = true -> Forall no_angle M.
Proof.
  induction M as [|a M IH]; intros H; [constructor|].
  cbn [map forallb] in H. apply andb_prop in H as [Ha H].
  constructor; [|apply IH, H]. unfold code_no_angle in Ha.
  apply andb_prop in Ha as [H1 H2]. apply negb_true_iff in H1, H2.
  apply N.eqb_neq in H1, H2. split; assumption.
Qed.

Lemma space_no_angle c : cls_s c = true -> code_no_angle c = true.
Proof. intros H. unfold code_no_angle. classes. Qed.

Lemma bullet_no_angle c : cls_bullet c = true -> code_no_angle c = true.
Proof. intros H. unfold code_no_angle. classes. Qed.

Lemma digit_no_angle c : cls_d c = true -> code_no_angle c = true.
Proof. intros H. unfold code_no_angle. classes. Qed.

Lemma lower_no_angle c : cls_lower c = true -> code_no_angle c = true.
Proof. intros H. unfold code_no_angle. classes. Qed.

Lemma tsubst_li1 s mt :
  subst from_renderer "<li>$1</li>" s mt
  = lits from_renderer "<li>" ++ group s mt 1 ++ lits from_renderer "</li>".
Proof. reflexivity. Qed.

Lemma tsubst_li2 s mt :
  subst from_renderer "<li>$2</li>" s mt
  = lits from_renderer "<li>" ++ group s mt 2 ++ lits from_renderer "</li>".
Proof. reflexivity. Qed.

Lemma simple_rep ok g n p :
  (forall c, p c = true -> ok c = true) -> simple ok (Rep g n p).
Proof. intros H. exact H. Qed.

Lemma keeps_ul_item :
  keeps_tags re_ul_item (subst from_renderer "<li>$1</li>").
Proof.
  intros x rest e cs q Hx Hm Hq.
  remember (map fst rest) as l eqn:El.
  unfold re_ul_item in Hm. cbn [seqs] in Hm.
  rewrite m_seq in Hm. apply m_bol_true in Hm as [Hl Hm].
  rewrite m_seq in Hm.
  apply (m_simple _ code_no_angle) in Hm as (x1 & l1 & -> & H1 & Hm);
    [|exact space_no_angle].
  rewrite m_seq in Hm.
  apply (m_simple _ code_no_angle) in Hm as (x2 & l2 & -> & H2 & Hm);
    [|exact bullet_no_angle].
  rewrite m_seq in Hm.
  apply (m_simple _ code_no_angle) in Hm as (x3 & l3 & -> & H3 & Hm);
    [|exact space_no_angle].
  rewrite m_seq, m_grp in Hm.
  apply (m_simple _ (fun _ => true)) in Hm as (g & l4 & -> & _ & Hm);
    [|intros c _; reflexivity].
  apply m_look in Hm as (e' & cs' & Ha & Hm).
  apply line_end_ahead in Ha as [-> Hend].
  apply accept_eq in Hm as [-> ->]. symmetry in El.
  apply map_eq_app in El as (X1 & R1 & -> & E1 & El).
  apply map_eq_app in El as (X2 & R2 & -> & E2 & El).
  apply map_eq_app in El as (X3 & R3 & -> & E3 & El).
  apply map_eq_app in El as (G & Z & -> & EG & EZ).
  subst x1 x2 x3 g. rewrite <- EZ in Hend. apply line_end_traced in Hend.
  rewrite !length_map. rewrite tsubst_li1. unfold group.
  cbn [caps assoc Nat.eqb].
  rewrite (sub_rest x (X1 ++ X2 ++ X3 ++ G ++ Z) (X1 ++ X2 ++ X3) G Z)
    by ((rewrite <- !app_assoc; reflexivity) || lengths).
  replace (X1 ++ X2 ++ X3 ++ G ++ Z) with (((X1 ++ X2 ++ X3) ++ G) ++ Z)
    by (rewrite <- !app_assoc; reflexivity).
  rewrite (firstn_rest ((X1 ++ X2 ++ X3) ++ G) Z) by lengths.
  apply (line_keeps x q (X1 ++ X2 ++ X3) G Z); auto.
  - rewrite <- Hq, <- !app_assoc. reflexivity.
  - apply codes_no_angle. rewrite !map_app, !forallb_app, H1, H2, H3.
    reflexivity.
Qed.

Lemma keeps_ol_item :
  keeps_tags re_ol_item (subst from_renderer "<li>$2</li>").
Proof.
  intros x rest e cs q Hx Hm Hq.
  remember (map fst rest) as l eqn:El.
  unfold re_ol_item in Hm. cbn [seqs] in Hm.
  rewrite m_seq in Hm. apply m_bol_true in Hm as [Hl Hm].
  rewrite m_seq in Hm.
  apply (m_simple _ code_no_angle) in Hm as (x1 & l1 & -> & H1 & Hm);
    [|exact space_no_angle].
  rewrite m_seq, m_grp in Hm.
  apply (m_simple _ code_no_angle) in Hm as (x2 & l2 & -> & H2 & Hm);
    [|exact digit_no_angle].
  rewrite m_seq in Hm.
  apply (m_simple _ code_no_angle) in Hm as (xd & ld & -> & Hd & Hm);
    [|intros c Hc; apply only_eq in Hc; subst; reflexivity].
  rewrite m_seq in Hm.
  apply (m_simple _ code_no_angle) in Hm as (x3 & l3 & -> & H3 & Hm);
    [|exact space_no_angle].
  rewrite m_seq, m_grp in Hm.
  apply (m_simple _ (fun _ => true)) in Hm as (g & l4 & -> & _ & Hm);
    [|intros c _; reflexivity].
  apply m_look in Hm as (e' & cs' & Ha & Hm).
  apply line_end_ahead in Ha as [-> Hend].
  apply accept_eq in Hm as [-> ->]. symmetry in El.
  apply map_eq_app in El as (X1 & R1 & -> & E1 & El).
  apply map_eq_app in El as (X2 & R2 & -> & E2 & El).
  apply map_eq_app in El as (Xd & Rd & -> & Ed & El).
  apply map_eq_app in El as (X3 & R3 & -> & E3 & El).
  apply map_eq_app in El as (G & Z & -> & EG & EZ).
  subst x1 x2 xd x3 g. rewrite <- EZ in Hend. apply line_end_traced in Hend.
  rewrite !length_map. rewrite tsubst_li2. unfold group.
  cbn [caps assoc Nat.eqb].
  rewrite (sub_rest x (X1 ++ X2 ++ Xd ++ X3 ++ G ++ Z)
             (X1 ++ X2 ++ Xd ++ X3) G Z)
    by ((rewrite <- !app_assoc; reflexivity) || lengths).
  replace (X1 ++ X2 ++ Xd ++ X3 ++ G ++ Z)
    with (((X1 ++ X2 ++ Xd ++ X3) ++ G) ++ Z)
    by (rewrite <- !app_assoc; reflexivity).
  rewrite (firstn_rest ((X1 ++ X2 ++ Xd ++ X3) ++ G) Z) by lengths.
  apply (line_keeps x q (X1 ++ X2 ++ Xd ++ X3) G Z); auto.
  - rewrite <- Hq, <- !app_assoc. reflexivity.
  - apply codes_no_angle. rewrite !map_app, !forallb_app, H1, H2, Hd, H3.
    reflexivity.
Qed.

Lemma keeps_heading hashes t o c :
  forallb code_no_angle (str hashes) = true ->
  (forall s mt, subst from_renderer t s mt
                = lits from_renderer o ++ group s mt 1 ++ lits from_renderer c) ->
  tags InText (lits from_renderer o) = Some InText ->
  tags InText (lits from_renderer c) = Some InText ->
  keeps_tags (re_heading hashes) (subst from_renderer t).
Proof.
  intros Hh Ht Ho Hc x rest e cs q Hx Hm Hq.
  remember (map fst rest) as l eqn:El.
  unfold re_heading in Hm. cbn [seqs] in Hm.
  rewrite m_seq in Hm. apply m_bol_true in Hm as [Hl Hm].
  rewrite m_seq in Hm. apply m_lit in Hm as (l1 & -> & Hm).
  rewrite m_seq in Hm.
  apply (m_simple _ code_no_angle) in Hm as (x3 & l3 & -> & H3 & Hm);
    [|exact space_no_angle].
  rewrite m_seq, m_grp in Hm.
  apply (m_simple _ (fun _ => true)) in Hm as (g & l4 & -> & _ & Hm);
    [|intros c' _; reflexivity].
  apply m_eol_true in Hm as [Hend Hm].
  apply accept_eq in Hm as [-> ->]. symmetry in El.
  apply map_eq_app in El as (X1 & R1 & -> & E1 & El).
  apply map_eq_app in El as (X3 & R3 & -> & E3 & El).
  apply map_eq_app in El as (G & Z & -> & EG & EZ).
  subst x3 g. rewrite <- EZ in Hend. apply line_end_traced in Hend.
  rewrite <- E1, !length_map. rewrite Ht. unfold group.
  cbn [caps assoc Nat.eqb].
  rewrite (sub_rest x (X1 ++ X3 ++ G ++ Z) (X1 ++ X3) G Z)
    by ((rewrite <- !app_assoc; reflexivity) || lengths).
  replace (X1 ++ X3 ++ G ++ Z) with (((X1 ++ X3) ++ G) ++ Z)
    by (rewrite <- !app_assoc; reflexivity).
  rewrite (firstn_rest ((X1 ++ X3) ++ G) Z) by lengths.
  apply (line_keeps x q (X1 ++ X3) G Z); auto.
  - rewrite <- Hq, <- !app_assoc. reflexivity.
  - apply codes_no_angle. rewrite !map_app, !forallb_app, E1, Hh, H3.
    reflexivity.
Qed.

Lemma keeps_h3 : keeps_tags (re_heading "###") (subst from_renderer "<h3>$1</h3>").
Proof. apply (keeps_heading "###" "<h3>$1</h3>" "<h3>" "</h3>"); reflexivity. Qed.

Lemma keeps_h2 : keeps_tags (re_heading "##") (subst from_renderer "<h2>$1</h2>").
Proof. apply (keeps_heading "##" "<h2>$1</h2>" "<h2>" "</h2>"); reflexivity. Qed.

Lemma keeps_h1 : keeps_tags (re_heading "#") (subst from_renderer "<h1>$1</h1>").
Proof. apply (keeps_heading "#" "<h1>$1</h1>" "<h1>" "</h1>"); reflexivity. Qed.

(** *** Line breaks *)

Lemma keeps_newline : keeps_tags re_newline (subst from_renderer "<br>").
Proof.
  intros x rest e cs q Hx Hm Hq.
  unfold re_newline in Hm. apply m_chr in Hm as (c & t & El & Hc & Hm).
  apply accept_eq in Hm as [-> ->]. apply only_eq in Hc. subst c.
  destruct rest as [|a Z]; [discriminate|]. cbn [map] in El.
  assert (Ha : fst a = NL) by congruence.
  destruct (newline_plain a Ha) as (T & L & G).
  pose proof (plain_in_text _ _ _ Hq T G) as ->.
  replace (S (length x) - length x) with 1 by lia.
  cbn [firstn]. rewrite (step_text a []) by assumption. reflexivity.
Qed.

(** *** Segments that begin or end a tag *)

Lemma ends_gt_codes (L : list traced) w :
  map fst L = w ++ [GT] -> ends_gt L.
Proof.
  intros H. apply map_eq_app in H as (Y & R & -> & _ & H).
  apply map_eq_cons in H as (g & R' & -> & Hg & H).
  apply map_eq_nil in H. subst R'. exists Y, g. auto.
Qed.

Lemma ends_gt_app L1 L2 : ends_gt L2 -> ends_gt (L1 ++ L2).
Proof.
  intros (Y & g & -> & Hg). exists (L1 ++ Y), g.
  rewrite app_assoc. auto.
Qed.

Lemma seg_closed q L Z r :
  ends_gt L -> tags q (L ++ Z) = Some r ->
  tags q L = Some InText /\ tags InText Z = Some r.
Proof.
  intros (Y & g & -> & Hg) H. apply tags_app_inv in H as (q' & HL & HZ).
  pose proof (close_ends _ _ _ _ HL Hg) as ->. auto.
Qed.

Lemma seg_opens q (L Z : list traced) w r :
  map fst L = LT :: w -> tags q (L ++ Z) = Some r -> q = InText.
Proof.
  intros HL H. apply map_eq_cons in HL as (a & L' & -> & Ha & _).
  exact (open_in_text _ _ _ _ H Ha).
Qed.

Lemma skipn_exact {A} (x rest : list A) : skipn (length x) (x ++ rest) = rest.
Proof. induction x as [|a x IH]; [reflexivity | exact IH]. Qed.

Lemma whole_rest (x rest : list traced) e cs :
  whole (x ++ rest) (Mtch (length x) e cs) = firstn (e - length x) rest.
Proof. unfold whole, sub. cbn [start stop]. rewrite skipn_exact. reflexivity. Qed.

(** *** Closing a list *)

Lemma keeps_li_close t c :
  (forall s mt, subst from_renderer t s mt = lits from_renderer c) ->
  tags InText (lits from_renderer c) = Some InText ->
  keeps_tags re_li_close (subst from_renderer t).
Proof.
  intros Ht Hc x rest e cs q Hx Hm Hq.
  remember (map fst rest) as l eqn:El.
  unfold re_li_close in Hm. cbn [seqs] in Hm.
  rewrite m_seq in Hm. apply m_lit in Hm as (l1 & -> & Hm).
  rewrite m_seq, m_grp in Hm. symmetry in El.
  apply map_eq_app in El as (L & Z1 & -> & EL & EZ).
  pose proof (seg_opens _ _ _ _ _ EL Hq) as ->.
  apply (seg_closed _ _ _ _ (ends_gt_codes _ (str "</li") EL)) in Hq
    as [HL HZ].
  rewrite Ht, Hc.
  apply m_alt in Hm as [Hm|Hm].
  - apply m_chr in Hm as (c' & t' & -> & Hc' & Hm). apply only_eq in Hc'.
    subst c'. apply m_nlook in Hm. apply accept_eq in Hm as [-> _].
    rewrite <- EL, length_map.
    apply map_eq_cons in EZ as (a & Z & -> & Ha & _).
    replace (L ++ a :: Z) with ((L ++ [a]) ++ Z)
      by (rewrite <- app_assoc; reflexivity).
    rewrite (firstn_rest (L ++ [a]) Z) by lengths.
    rewrite tags_app, HL.
    destruct (newline_plain a Ha) as (_ & Hl & Hg).
    rewrite (step_text a []) by assumption. reflexivity.
  - apply m_eol_false in Hm as [-> Hm]. apply m_nlook in Hm.
    apply accept_eq in Hm as [-> _]. apply map_eq_nil in EZ. subst Z1.
    rewrite <- EL, length_map.
    rewrite (firstn_rest L []) by lengths. symmetry. exact HL.
Qed.

Lemma keeps_li_close_ul :
  keeps_tags re_li_close (subst from_renderer "</li></ul>").
Proof. apply (keeps_li_close "</li></ul>" "</li></ul>"); reflexivity. Qed.

Lemma keeps_li_close_ol :
  keeps_tags re_li_close (subst from_renderer "</li></ol>").
Proof. apply (keeps_li_close "</li></ol>" "</li></ol>"); reflexivity. Qed.

(** *** Opening a list *)

Lemma keeps_li_open t o :
  (forall s mt, subst from_renderer t s mt
                = group s mt 1 ++ lits from_renderer o) ->
  tags InText (lits from_renderer o) = Some InText ->
  keeps_tags re_li_open (subst from_renderer t).
Proof.
  intros Ht Ho x rest e cs q Hx Hm Hq.
  remember (map fst rest) as l eqn:El.
  unfold re_li_open in Hm. cbn [seqs] in Hm.
  rewrite m_seq, m_grp in Hm. rewrite Ht. symmetry in El.
  apply m_alt in Hm as [Hm|Hm].
  - apply m_bol_false in Hm as [_ Hm]. apply m_lit in Hm as (l1 & -> & Hm).
    apply accept_eq in Hm as [-> ->].
    apply map_eq_app in El as (L & Z & -> & EL & _).
    pose proof (seg_opens _ _ _ _ _ EL Hq) as ->.
    apply (seg_closed _ _ _ _ (ends_gt_codes _ (str "<li") EL)) in Hq
      as [HL _].
    rewrite <- EL, length_map. unfold group. cbn [caps assoc Nat.eqb].
    rewrite (sub_rest x (L ++ Z) [] [] (L ++ Z)) by (reflexivity || lengths).
    rewrite (firstn_rest L Z) by lengths. cbn [app]. rewrite Ho, HL.
    reflexivity.
  - apply m_chr in Hm as (c & t' & -> & Hc & Hm).
    apply m_lit in Hm as (l1 & -> & Hm). apply accept_eq in Hm as [-> ->].
    apply map_eq_cons in El as (a & R & -> & Ha & El).
    apply map_eq_app in El as (L & Z & -> & EL & _).
    rewrite <- EL, length_map. unfold group. cbn [caps assoc Nat.eqb].
    rewrite (sub_rest x (a :: L ++ Z) [] [a] (L ++ Z))
      by (reflexivity || lengths).
    replace (a :: L ++ Z) with (([a] ++ L) ++ Z) by reflexivity.
    rewrite (firstn_rest ([a] ++ L) Z) by lengths.
    change (tags q (([a] ++ L) ++ Z) = Some InText) in Hq.
    rewrite <- app_assoc in Hq.
    apply tags_app_inv in Hq as (q1 & Ha1 & Hq).
    pose proof (seg_opens _ _ _ _ _ EL Hq) as ->.
    apply (seg_closed _ _ _ _ (ends_gt_codes _ (str "<li") EL)) in Hq
      as [HL _].
    rewrite !tags_app, Ha1. rewrite Ho, HL. reflexivity.
Qed.

Lemma keeps_li_open_ul :
  keeps_tags re_li_open (subst from_renderer "$1<ul><li>").
Proof. apply (keeps_li_open "$1<ul><li>" "<ul><li>"); reflexivity. Qed.

Lemma keeps_li_open_ol :
  keeps_tags re_li_open (subst from_renderer "$1<ol><li>").
Proof. apply (keeps_li_open "$1<ol><li>" "<ol><li>"); reflexivity. Qed.

(** *** Joining the items of an ordered list *)

Lemma tsubst_whole s mt :
  subst from_renderer "<li>$&" s mt = lits from_renderer "<li>" ++ whole s mt.
Proof.
  transitivity (lits from_renderer "<li>" ++ whole s mt ++ []);
    [reflexivity | rewrite app_nil_r; reflexivity].
Qed.

Lemma keeps_ol_join : keeps_tags re_ol_join (subst from_renderer "<li>$&").
Proof.
  intros x rest e cs q Hx Hm Hq.
  rewrite tsubst_whole, whole_rest.
  remember (map fst rest) as l eqn:El.
  unfold re_ol_join in Hm. cbn [seqs] in Hm.
  rewrite m_seq in Hm. apply m_nbehind in Hm.
  rewrite m_seq in Hm. apply m_lit in Hm as (l1 & -> & _).
  symmetry in El. apply map_eq_app in El as (L & Z & -> & EL & _).
  pose proof (seg_opens _ _ _ _ _ EL Hq) as ->.
  rewrite tags_app. reflexivity.
Qed.

(** *** Joining the items of a list *)

Lemma tsubst_join s mt :
  subst from_renderer "$1$2" s mt = group s mt 1 ++ group s mt 2.
Proof.
  transitivity (group s mt 1 ++ group s mt 2 ++ []);
    [reflexivity | rewrite app_nil_r; reflexivity].
Qed.

Lemma keeps_li_join : keeps_tags re_li_join (subst from_renderer "$1$2").
Proof.
  intros x rest e cs q Hx Hm Hq.
  remember (map fst rest) as l eqn:El.
  unfold re_li_join in Hm. cbn [seqs] in Hm.
  rewrite m_seq, m_grp, m_seq in Hm. apply m_lit in Hm as (l1 & -> & Hm).
  rewrite m_seq in Hm.
  apply (m_simple _ (fun _ => true)) in Hm as (d & l2 & -> & _ & Hm);
    [|intros c _; reflexivity].
  apply m_lit in Hm as (l3 & -> & Hm). cbv beta in Hm.
  rewrite m_seq in Hm. apply m_chr in Hm as (c & t & -> & Hc & Hm).
  apply only_eq in Hc. subst c.
  rewrite m_grp in Hm. apply m_lit in Hm as (l4 & -> & Hm).
  apply accept_eq in Hm as [-> ->]. symmetry in El.
  apply map_eq_app in El as (A1 & R1 & -> & EA & El).
  apply map_eq_app in El as (D & R2 & -> & ED & El).
  apply map_eq_app in El as (B1 & R3 & -> & EB & El).
  apply map_eq_cons in El as (a & R4 & -> & Ha & El).
  apply map_eq_app in El as (L2 & Z & -> & EL & _).
  subst d.
  pose proof (map_length_eq _ _ EA) as HA.
  pose proof (map_length_eq _ _ EB) as HB.
  pose proof (map_length_eq _ _ EL) as HL.
  rewrite tsubst_join. unfold group. cbn [caps assoc Nat.eqb].
  rewrite !length_map.
  rewrite (sub_rest x (A1 ++ D ++ B1 ++ a :: L2 ++ Z) [] (A1 ++ D ++ B1)
             (a :: L2 ++ Z))
    by ((cbn [app]; rewrite <- !app_assoc; reflexivity) || lengths).
  rewrite (sub_rest x (A1 ++ D ++ B1 ++ a :: L2 ++ Z) (A1 ++ D ++ B1 ++ [a])
             L2 Z)
    by ((rewrite <- !app_assoc; reflexivity) || lengths).
  replace (A1 ++ D ++ B1 ++ a :: L2 ++ Z)
    with (((A1 ++ D ++ B1) ++ a :: L2) ++ Z)
    by (rewrite <- !app_assoc; reflexivity).
  rewrite (firstn_rest ((A1 ++ D ++ B1) ++ a :: L2) Z) by lengths.
  replace (A1 ++ D ++ B1 ++ a :: L2 ++ Z)
    with ((A1 ++ D ++ B1) ++ a :: L2 ++ Z) in Hq
    by (rewrite <- !app_assoc; reflexivity).
  assert (HE : ends_gt (A1 ++ D ++ B1)).
  { apply ends_gt_app, ends_gt_app.
    exact (ends_gt_codes _ (str "</li") EB). }
  apply (seg_closed _ _ _ _ HE) in Hq as [H1 _].
  rewrite (tags_app (A1 ++ D ++ B1) L2), (tags_app (A1 ++ D ++ B1) (a :: L2)), H1.
  destruct (newline_plain a Ha) as (_ & Hl & Hg).
  rewrite step_text by assumption. reflexivity.
Qed.

(** *** Unwrapping a block *)

Lemma simple_block_name : simple (fun _ => true) re_block_name.
Proof.
  unfold re_block_name. cbn [alts simple].
  repeat split; try (intros c _; reflexivity); apply simple_lit.
Qed.

Lemma tsubst_group s mt : subst from_renderer "$1" s mt = group s mt 1.
Proof.
  transitivity (group s mt 1 ++ []);
    [reflexivity | rewrite app_nil_r; reflexivity].
Qed.

Lemma m_block k pv l pos cs z :
  m (seqs [Chr (only LT); re_block_name; Rep false 0 cls_dot; Lit "</";
           re_block_name; Chr (only GT)]) k pv l pos cs = Some z ->
  exists w l' pv',
    l = (w ++ [GT]) ++ l'
    /\ k pv' l' (pos + length (w ++ [GT])) cs = Some z.
Proof.
  intros H. cbn [seqs] in H.
  rewrite m_seq in H. apply m_chr in H as (c & t & -> & Hc & H).
  rewrite m_seq in H.
  apply (m_simple _ (fun _ => true)) in H as (n1 & l1 & -> & _ & H);
    [|exact simple_block_name].
  rewrite m_seq in H.
  apply (m_simple _ (fun _ => true)) in H as (d & l2 & -> & _ & H);
    [|intros c' _; reflexivity].
  rewrite m_seq in H. apply m_lit in H as (l3 & -> & H).
  rewrite m_seq in H.
  apply (m_simple _ (fun _ => true)) in H as (n2 & l4 & -> & _ & H);
    [|exact simple_block_name].
  apply m_chr in H as (c2 & t2 & -> & Hc2 & H).
  apply only_eq in Hc, Hc2. subst.
  exists (LT :: n1 ++ d ++ str "</" ++ n2), t2, (Some GT). split.
  - cbn [app]. rewrite <- !app_assoc. reflexivity.
  - replace (pos + length ((LT :: n1 ++ d ++ str "</" ++ n2) ++ [GT]))
      with (S (S pos + length n1 + length d + length (str "</") + length n2))
      by lengths.
    exact H.
Qed.

Lemma keeps_unwrap : keeps_tags re_unwrap (subst from_renderer "$1").
Proof.
  intros x rest e cs q Hx Hm Hq.
  remember (map fst rest) as l eqn:El.
  unfold re_unwrap in Hm.
  rewrite m_seqs_cons in Hm. apply m_lit in Hm as (l1 & -> & Hm).
  rewrite m_seqs_cons, m_grp in Hm.
  apply m_block in Hm as (w & l2 & pv' & -> & Hm). cbv beta in Hm.
  cbn [seqs] in Hm. apply m_lit in Hm as (l3 & -> & Hm).
  apply accept_eq in Hm as [-> ->]. symmetry in El.
  apply map_eq_app in El as (P & R1 & -> & EP & El).
  apply map_eq_app in El as (G & R2 & -> & EG & El).
  apply map_eq_app in El as (P' & Z & -> & EP' & _).
  pose proof (map_length_eq _ _ EP) as HP.
  pose proof (map_length_eq _ _ EG) as HG.
  pose proof (map_length_eq _ _ EP') as HP'.
  rewrite tsubst_group. unfold group. cbn [caps assoc Nat.eqb].
  rewrite HP, HG, HP'.
  rewrite (sub_rest x (P ++ G ++ P' ++ Z) P G (P' ++ Z))
    by (reflexivity || lengths).
  replace (P ++ G ++ P' ++ Z) with ((P ++ G ++ P') ++ Z)
    by (rewrite <- !app_assoc; reflexivity).
  rewrite (firstn_rest (P ++ G ++ P') Z) by lengths.
  pose proof (seg_opens _ _ _ _ _ EP Hq) as ->.
  apply (seg_closed _ _ _ _ (ends_gt_codes _ (str "<p") EP)) in Hq
    as [H1 Hq].
  apply (seg_closed _ _ _ _ (ends_gt_codes _ w EG)) in Hq as [H2 Hq].
  apply (seg_closed _ _ _ _ (ends_gt_codes _ (str "</p") EP')) in Hq
    as [H3 _].
  rewrite (tags_app P (G ++ P')), H1, (tags_app G P'), H2, H3. reflexivity.
Qed.

(** *** Paragraphs *)

Lemma para_end_ahead pv l pos cs e cs' :
  m (Alt (Seq (Chr (only NL)) (Chr (only NL))) (Eol false)) accept pv l pos cs
  = Some (e, cs') ->
  cs' = cs
  /\ (l = [] \/ exists c t, l = c :: t /\ line_terminator c = true).
Proof.
  intros H. apply m_alt in H as [H|H].
  - rewrite m_seq in H. apply m_chr in H as (c & t & -> & Hc & H).
    apply m_chr in H as (c2 & t2 & -> & _ & H).
    apply accept_eq in H as [_ ->].
    split; [reflexivity|]. right. exists c, (c2 :: t2). split; [reflexivity|].
    apply only_eq in Hc. subst. reflexivity.
  - apply m_eol_false in H as [Hl H]. apply accept_eq in H as [_ ->]. auto.
Qed.

Lemma keeps_para : keeps_tags re_para (fn_para fst from_renderer).
Proof.
  intros x rest e cs q Hx Hm Hq.
  remember (map fst rest) as l eqn:El.
  unfold re_para in Hm. cbn [seqs] in Hm.
  rewrite m_seq in Hm. apply m_chr in Hm as (c1 & t1 & -> & Hc1 & Hm).
  rewrite m_seq in Hm. apply m_chr in Hm as (c2 & t2 & -> & Hc2 & Hm).
  rewrite m_seq, m_grp in Hm.
  apply (m_simple _ (fun _ => true)) in Hm as (g & l3 & -> & _ & Hm);
    [|intros c _; reflexivity].
  cbv beta in Hm. apply m_look in Hm as (e' & cs' & Ha & Hm).
  apply para_end_ahead in Ha as [-> Hend].
  apply accept_eq in Hm as [-> ->].
  apply only_eq in Hc1, Hc2. subst c1 c2. symmetry in El.
  apply map_eq_cons in El as (a1 & R1 & -> & Ha1 & El).
  apply map_eq_cons in El as (a2 & R2 & -> & Ha2 & El).
  apply map_eq_app in El as (G & Z & -> & EG & EZ).
  subst g. rewrite <- EZ in Hend. apply line_end_traced in Hend.
  rewrite !length_map.
  destruct (newline_plain a1 Ha1) as (T1 & L1 & G1).
  destruct (newline_plain a2 Ha2) as (T2 & L2 & G2).
  pose proof (plain_in_text _ _ _ Hq T1 G1) as ->.
  rewrite !step_text in Hq by assumption.
  apply tags_app_inv in Hq as (qg & HG & HZ).
  pose proof (line_end_in_text _ _ HZ Hend) as ->.
  replace (a1 :: a2 :: G ++ Z) with (([a1; a2] ++ G) ++ Z) by reflexivity.
  rewrite (firstn_rest ([a1; a2] ++ G) Z) by lengths.
  cbn [app]. rewrite !step_text by assumption. rewrite HG.
  unfold fn_para, group. cbv zeta. cbn [caps assoc Nat.eqb].
  rewrite (sub_rest x (([a1; a2] ++ G) ++ Z) [a1; a2] G Z)
    by ((rewrite <- app_assoc; reflexivity) || lengths).
  match goal with |- context [if ?b then _ else _] => destruct b end.
  - rewrite tags_app. exact HG.
  - rewrite tags_app.
    change (tags InText
              (lits from_renderer "<p>" ++ G ++ lits from_renderer "</p>")
            = Some InText).
    apply wrap_tags; [reflexivity | reflexivity | exact HG].
Qed.

(** *** Trimming *)

Lemma drop_while_run_split {A} (f : A -> bool) : forall l,
  exists pre, l = pre ++ drop_while f l /\ forallb f pre = true.
Proof.
  induction l as [|a l (pre & E & H)]; [exists []; auto|].
  cbn [drop_while]. destruct (f a) eqn:Fa.
  - exists (a :: pre). cbn [app forallb]. rewrite Fa, H.
    split; [f_equal; exact E | reflexivity].
  - exists []. auto.
Qed.

Lemma space_run_no_angle : forall W : list traced,
  forallb (fun a => cls_s (fst a)) W = true -> Forall no_angle W.
Proof.
  induction W as [|a W IH]; intros H; [constructor|].
  cbn [forallb] in H. apply andb_prop in H as [Ha H].
  constructor; [|exact (IH H)].
  apply space_no_angle in Ha. unfold code_no_angle in Ha.
  apply andb_prop in Ha as [H1 H2]. apply negb_true_iff in H1, H2.
  apply N.eqb_neq in H1, H2. split; assumption.
Qed.

Lemma tags_drop_both (f : traced -> bool) s :
  (forall W, forallb f W = true -> Forall no_angle W) ->
  tags InText s = Some InText ->
  tags InText (rev (drop_while f (rev (drop_while f s)))) = Some InText.
Proof.
  intros Hf H.
  destruct (drop_while_run_split f s) as (pre & E & Hp).
  remember (drop_while f s) as s1 eqn:E1. clear E1. subst s.
  rewrite tags_app, (tags_text _ (Hf _ Hp)) in H.
  destruct (drop_while_run_split f (rev s1)) as (suf & E2 & Hs).
  remember (drop_while f (rev s1)) as s2 eqn:E3. clear E3.
  apply (f_equal (@rev traced)) in E2.
  rewrite rev_involutive, rev_app_distr in E2. subst s1.
  apply tags_app_inv in H as (q' & H1 & H2).
  assert (Hq : q' = InText).
  { apply (run_back (rev suf)); [|exact H2]. apply Forall_rev, Hf, Hs. }
  subst q'. exact H1.
Qed.

Lemma tags_trim s :
  tags InText s = Some InText -> tags InText (trim fst s) = Some InText.
Proof. intros H. exact (tags_drop_both _ s space_run_no_angle H). Qed.

(** *** Code blocks *)

Lemma forallb_imp {A} (p r : A -> bool) : forall l,
  (forall a, p a = true -> r a = true) ->
  forallb p l = true -> forallb r l = true.
Proof.
  induction l as [|a l IH]; intros Hi H; [reflexivity|].
  cbn [forallb] in *. apply andb_prop in H as [Ha H].
  rewrite (Hi _ Ha), (IH Hi H). reflexivity.
Qed.

Lemma lower_run_no_angle (L : list traced) :
  forallb cls_lower (map fst L) = true -> Forall no_angle L.
Proof.
  intros H. apply codes_no_angle.
  exact (forallb_imp cls_lower code_no_angle _ lower_no_angle H).
Qed.

Lemma forallb_rev {A} (p : A -> bool) (l : list A) :
  forallb p l = true -> forallb p (rev l) = true.
Proof.
  intros H. apply forallb_forall. intros a Ha. apply in_rev in Ha.
  rewrite forallb_forall in H. exact (H a Ha).
Qed.

(** The attribute the renderer writes around a language name. *)
Lemma language_tag_intro (L : list traced) :
  L <> [] -> forallb cls_lower (map fst L) = true ->
  language_tag
    (map from_renderer (str "code class=" ++ [QUOT] ++ str "language-")
     ++ L ++ [from_renderer QUOT]) = true.
Proof.
  intros HL Hl. unfold language_tag. cbv zeta.
  set (opening := str "code class=" ++ [QUOT] ++ str "language-").
  replace (length opening) with (length (map from_renderer opening))
    by apply length_map.
  rewrite (firstn_rest (map from_renderer opening) (L ++ [from_renderer QUOT]))
    by reflexivity.
  rewrite skipn_exact, rev_unit.
  replace (written (map from_renderer opening)) with true by reflexivity.
  replace (codes_eqb (map fst (map from_renderer opening)) opening) with true
    by reflexivity.
  cbn [andb negb snd fst from_renderer]. rewrite N.eqb_refl. cbn [andb].
  apply andb_true_intro. split.
  - destruct L as [|a L'] using rev_ind; [contradiction|].
    rewrite rev_unit. reflexivity.
  - apply forallb_rev. rewrite <- forallb_map. exact Hl.
Qed.

Lemma fence_tags (L C : list traced) :
  forallb cls_lower (map fst L) = true ->
  tags InText C = Some InText ->
  tags InText
    (lits from_renderer "<pre><code"
     ++ match L with
        | [] => []
        | _ :: _ =>
            lits from_renderer " class=" ++ [from_renderer QUOT]
              ++ lits from_renderer "language-" ++ L ++ [from_renderer QUOT]
        end
     ++ lits from_renderer ">" ++ trim fst C
     ++ lits from_renderer "</code></pre>")
  = Some InText.
Proof.
  intros Hl HC. apply tags_trim in HC.
  assert (Hend : tags InText (trim fst C ++ lits from_renderer "</code></pre>")
                 = Some InText)
    by (rewrite tags_app, HC; reflexivity).
  rewrite tags_app.
  change (tags InText (lits from_renderer "<pre><code"))
    with (Some (InTag (lits from_renderer "code"))).
  destruct L as [|a L'] eqn:EL.
  - exact Hend.
  - rewrite <- EL in *.
    assert (HLne : L <> []) by (rewrite EL; discriminate).
    clear EL. rewrite tags_app.
    assert (Hrun : Forall no_angle
                     (lits from_renderer " class=" ++ [from_renderer QUOT]
                      ++ lits from_renderer "language-" ++ L
                      ++ [from_renderer QUOT])).
    { apply Forall_app. split; [repeat constructor; discriminate|].
      apply Forall_cons; [split; discriminate|].
      apply Forall_app. split; [repeat constructor; discriminate|].
      apply Forall_app. split; [exact (lower_run_no_angle _ Hl)|].
      repeat constructor; discriminate. }
    rewrite (tags_in_tag_run _ _ Hrun).
    change (lits from_renderer ">" ++ trim fst C
            ++ lits from_renderer "</code></pre>")
      with (from_renderer GT
            :: trim fst C ++ lits from_renderer "</code></pre>").
    cbn [tags fst snd from_renderer]. rewrite N.eqb_refl.
    match goal with
    | |- (if valid_tag ?b then _ else _) = _ =>
        assert (Hv : valid_tag b = true)
          by (unfold valid_tag; apply orb_true_iff; right;
              exact (language_tag_intro L HLne Hl));
        rewrite Hv
    end.
    exact Hend.
Qed.

Lemma seg_plain q (L Z : list traced) c w :
  map fst L = c :: w -> tag_char c = false -> c <> GT ->
  tags q (L ++ Z) = Some InText -> q = InText.
Proof.
  intros HL T G H. apply map_eq_cons in HL as (a & L' & -> & Ha & _).
  subst c. exact (plain_in_text _ _ _ H T G).
Qed.

Lemma keeps_fence : keeps_tags re_fence (fn_fence fst from_renderer).
Proof.
  intros x rest e cs q Hx Hm Hq.
  remember (map fst rest) as l eqn:El.
  unfold re_fence in Hm. cbn [seqs] in Hm.
  rewrite m_seq in Hm. apply m_lit in Hm as (l1 & -> & Hm).
  rewrite m_seq, m_grp in Hm.
  apply (m_simple _ cls_lower) in Hm as (lg & l2 & -> & Hlg & Hm);
    [|intros c Hc; exact Hc].
  cbv beta in Hm.
  rewrite m_seq in Hm. apply m_chr in Hm as (c1 & t1 & -> & Hc1 & Hm).
  rewrite m_seq, m_grp in Hm.
  apply (m_simple _ (fun _ => true)) in Hm as (cd & l3 & -> & _ & Hm);
    [|intros c _; reflexivity].
  cbv beta in Hm.
  rewrite m_seq in Hm. apply m_chr in Hm as (c2 & t2 & -> & Hc2 & Hm).
  apply m_lit in Hm as (l4 & -> & Hm). apply accept_eq in Hm as [-> ->].
  apply only_eq in Hc1, Hc2. subst c1 c2. symmetry in El.
  apply map_eq_app in El as (T1 & R1 & -> & ET1 & El).
  apply map_eq_app in El as (L & R2 & -> & EL & El).
  apply map_eq_cons in El as (a1 & R3 & -> & Ha1 & El).
  apply map_eq_app in El as (C & R4 & -> & EC & El).
  apply map_eq_cons in El as (a2 & R5 & -> & Ha2 & El).
  apply map_eq_app in El as (T2 & Z & -> & ET2 & _).
  subst lg cd.
  pose proof (map_length_eq _ _ ET1) as HT1.
  pose proof (map_length_eq _ _ ET2) as HT2.
  rewrite HT1, !length_map.
  assert (N1 : Forall no_angle T1)
    by (apply codes_no_angle; rewrite ET1; reflexivity).
  assert (N2 : Forall no_angle T2)
    by (apply codes_no_angle; rewrite ET2; reflexivity).
  pose proof (lower_run_no_angle _ Hlg) as NL'.
  destruct (newline_plain a1 Ha1) as (P1 & L1 & G1).
  destruct (newline_plain a2 Ha2) as (P2 & L2 & G2).
  assert (Eq : q = InText).
  { apply (seg_plain q T1 (L ++ a1 :: C ++ a2 :: T2 ++ Z) BT (str "``") ET1);
      [reflexivity | discriminate | exact Hq]. }
  subst q.
  rewrite (tags_app T1), (tags_text _ N1), (tags_app L), (tags_text _ NL'),
    step_text in Hq by assumption.
  apply tags_app_inv in Hq as (qc & HC & Hq).
  pose proof (plain_in_text _ _ _ Hq P2 G2) as ->.
  replace (T1 ++ L ++ a1 :: C ++ a2 :: T2 ++ Z)
    with ((T1 ++ L ++ a1 :: C ++ a2 :: T2) ++ Z)
    by (repeat (rewrite <- app_assoc; cbn [app]); reflexivity).
  rewrite (firstn_rest (T1 ++ L ++ a1 :: C ++ a2 :: T2) Z) by lengths.
  replace (tags InText (T1 ++ L ++ a1 :: C ++ a2 :: T2)) with (Some InText).
  2:{ rewrite (tags_app T1), (tags_text _ N1), (tags_app L),
        (tags_text _ NL'), step_text, (tags_app C), HC, step_text
        by assumption.
      symmetry. exact (tags_text _ N2). }
  unfold fn_fence, group. cbv zeta. cbn [caps assoc Nat.eqb].
  rewrite (sub_rest x ((T1 ++ L ++ a1 :: C ++ a2 :: T2) ++ Z) T1 L
             (a1 :: C ++ a2 :: T2 ++ Z))
    by ((repeat (rewrite <- app_assoc; cbn [app]); reflexivity) || lengths).
  rewrite (sub_rest x ((T1 ++ L ++ a1 :: C ++ a2 :: T2) ++ Z)
             (T1 ++ L ++ [a1]) C (a2 :: T2 ++ Z))
    by ((repeat (rewrite <- app_assoc; cbn [app]); reflexivity) || lengths).
  exact (fence_tags L C Hlg HC).
Qed.

(** *** The whole renderer *)

Lemma escape_traced_no_angle : forall s : list traced,
  Forall no_angle (escape_html fst from_renderer s).
Proof.
  induction s as [|a s IH]; [constructor|].
  unfold escape_html. cbn [flat_map]. apply Forall_app. split; [|exact IH].
  unfold escape_char.
  destruct (fst a =? AMP)%N; [repeat constructor; discriminate|].
  destruct (fst a =? NBSP)%N; [repeat constructor; discriminate|].
  destruct (fst a =? LT)%N eqn:E1; [repeat constructor; discriminate|].
  destruct (fst a =? GT)%N eqn:E2; [repeat constructor; discriminate|].
  constructor; [|constructor]. split; apply N.eqb_neq; assumption.
Qed.

Lemma substitute_tags (s : list traced) :
  tags InText s = Some InText ->
  tags InText (substitute fst from_renderer s) = Some InText.
Proof.
  intros H. unfold substitute. cbv zeta. apply tags_trim.
  apply (replace_keeps_tags _ _ keeps_newline).
  apply (replace_keeps_tags _ _ keeps_unwrap).
  apply (replace_keeps_tags _ _ keeps_para).
  apply (replace_keeps_tags _ _ keeps_h1).
  apply (replace_keeps_tags _ _ keeps_h2).
  apply (replace_keeps_tags _ _ keeps_h3).
  apply (replace_keeps_tags _ _ keeps_li_close_ol).
  apply (replace_keeps_tags _ _ keeps_li_open_ol).
  apply (replace_keeps_tags _ _ keeps_ol_join).
  apply (replace_keeps_tags _ _ keeps_ol_item).
  apply (replace_keeps_tags _ _ keeps_li_close_ul).
  apply (replace_keeps_tags _ _ keeps_li_open_ul).
  apply (replace_keeps_tags _ _ keeps_li_join).
  apply (replace_keeps_tags _ _ keeps_ul_item).
  apply (replace_keeps_tags _ _ keeps_italic).
  apply (replace_keeps_tags _ _ keeps_bold).
  apply (replace_keeps_tags _ _ keeps_inline).
  apply (replace_keeps_tags _ _ keeps_fence).
  exact H.
Qed.

Lemma markdown_traced_tags (text : jsstring) :
  tags InText (markdown_traced text) = Some InText.
Proof.
  unfold markdown_traced, markdown. cbv zeta.
  apply substitute_tags, tags_text, escape_traced_no_angle.
Qed.

(** The reading of tags turns down a tag that was typed, and a tag of the
    renderer with anything but a language name added to it. *)
Example typed_tag_is_turned_down :
  well_tagged (map from_input (str "<b>")) = false
  /\ well_tagged (lits from_renderer "<" ++ map from_input (str "b")
                  ++ lits from_renderer ">") = false.
Proof. split; reflexivity. Qed.

Example foreign_attribute_is_turned_down :
  well_tagged
    (lits from_renderer "<code class=" ++ [from_renderer QUOT]
     ++ lits from_renderer "language-" ++ map from_input (str "js")
     ++ [from_renderer QUOT] ++ lits from_renderer ">") = true
  /\ well_tagged
       (lits from_renderer "<code class=" ++ [from_renderer QUOT]
        ++ lits from_renderer "language-" ++ map from_input (str "js onclick=x")
        ++ [from_renderer QUOT] ++ lits from_renderer ">") = false.
Proof. split; reflexivity. Qed.

(** C1: the raw input is escaped before any pattern is applied (the
    output is the substitution chain run on the escaped text), and the
    escaped text holds no [<] and no [>].  Tracing every character of the
    output to its origin (the trace erases to the renderer's output), each
    [<] and each [>] of the output was written by the renderer itself: none
    is a character of the input.  Read from left to right, the output is
    text without [<] or [>] and tags; every tag is opened and closed by the
    renderer, and what stands between its [<] and its [>] is either one of
    the renderer's tag names, written by the renderer, or the renderer's
    [code class="language-L"] in which only the lower-case letters of [L]
    may come from the input. *)
Theorem no_markup_from_input (text : jsstring) :
  advancedMarkdownToHtml (Str text)
  = substitute (fun c => c) (fun c => c) (escapeHtml text)
  /\ Forall (fun c => c <> LT /\ c <> GT) (escapeHtml text)
  /\ advancedMarkdownToHtml (Str text) = map fst (markdown_traced text)
  /\ Forall (fun a : traced => fst a = LT \/ fst a = GT -> snd a = false)
       (markdown_traced text)
  /\ well_tagged (markdown_traced text) = true.
Proof.
  split; [apply advancedMarkdownToHtml_Str|].
  split; [apply escapeHtml_no_angle|]. split; [|split].
  - rewrite advancedMarkdownToHtml_Str. unfold markdown_traced.
    rewrite (markdown_erase fst from_renderer (fun c => eq_refl)).
    rewrite map_map. cbn [fst from_input]. rewrite map_id. reflexivity.
  - unfold markdown_traced. apply Forall_markdown.
    + intros c _. reflexivity.
    + intros [c b] H1 H2 [H|H]; simpl in *; contradiction.
  - unfold well_tagged. rewrite markdown_traced_tags. reflexivity.
Qed.
